(** * Shallow embedding of the order matching core

    Sources embedded here:
    - [include/order.h]           : [Order], its enums and accessors;
    - [include/market_data.h]     : [MarketData];
    - [order_book.h / order_book.cpp] : [OrderBook] and its operations;
    - [ring_buffer.h]             : [LockFreeRingBuffer];
    - [order_matching_engine.h / .cpp] : [PerformanceMetrics] and the
      engine operations that touch it.

    Conventions.
    - [uint64_t] and [size_t] are [Z] with the wrap-around written out
      ([u64]).
    - [double] is the kernel's binary64 [float]; [a > b] is [b <? a].
    - [std::shared_ptr<Order>] is an address [ptr] into a store of [Order]
      objects ([heap]); every holder of the pointer sees the same object.
    - [std::chrono::high_resolution_clock::now()] is an argument [now] of
      the operation that reads the clock.
    - [std::map<double, V, Cmp>] is the list of its entries in iteration
      order, [begin()] being the head. *)

From Stdlib Require Import ZArith Floats Lia.
From stdpp Require Import gmap strings list.

Local Open Scope Z_scope.

(** ** Machine integers *)

Definition u64 (z : Z) : Z := z mod 2 ^ 64.

Definition UINT64_MAX : Z := 2 ^ 64 - 1.

(** Conversion [uint64_t -> double] (round to nearest, ties to even). *)
Definition double_of_u64 (z : Z) : float :=
  SF2Prim (binary_normalize prec emax z 0 false).

(** [a > b] on doubles, the comparison of [std::greater<double>]. *)
Definition gtb (a b : float) : bool := PrimFloat.ltb b a.

(** ** order.h *)

Inductive OrderSide := BUY | SELL.

Inductive OrderType := MARKET | LIMIT | STOP | STOP_LIMIT.

Inductive OrderStatus := PENDING | PARTIALLY_FILLED | FILLED | CANCELLED | REJECTED.

Definition time_point := Z.

Record Order := mkOrder {
  order_id : Z;
  client_id : Z;
  symbol : string;
  side : OrderSide;
  type : OrderType;
  quantity : Z;
  filled_quantity : Z;
  price : float;
  stop_price : float;
  timestamp : time_point;
  status : OrderStatus
}.

(** [Order::Order()]; the time point is value-initialised. *)
Definition Order_default : Order :=
  mkOrder 0 0 "" BUY LIMIT 0 0 0%float 0%float 0 PENDING.

(** [Order::Order(id, client, sym, s, t, qty, prc)]; [now] is the reading of
    the clock taken by the member initialiser of [timestamp]. *)
Definition Order_new (now : time_point) (id client : Z) (sym : string)
    (s : OrderSide) (t : OrderType) (qty : Z) (prc : float) : Order :=
  mkOrder id client sym s t qty 0 prc 0%float now PENDING.

Definition is_filled (o : Order) : bool := quantity o <=? filled_quantity o.

Definition is_partially_filled (o : Order) : bool :=
  (0 <? filled_quantity o) && (filled_quantity o <? quantity o).

Definition remaining_quantity (o : Order) : Z :=
  u64 (quantity o - filled_quantity o).

Definition set_filled_quantity (f : Z) (o : Order) : Order :=
  mkOrder (order_id o) (client_id o) (symbol o) (side o) (type o) (quantity o)
          f (price o) (stop_price o) (timestamp o) (status o).

Definition set_status (st : OrderStatus) (o : Order) : Order :=
  mkOrder (order_id o) (client_id o) (symbol o) (side o) (type o) (quantity o)
          (filled_quantity o) (price o) (stop_price o) (timestamp o) st.

(** The three assignments of [modify_order]. *)
Definition set_quantity_price_timestamp (q : Z) (p : float) (t : time_point)
    (o : Order) : Order :=
  mkOrder (order_id o) (client_id o) (symbol o) (side o) (type o) q
          (filled_quantity o) p (stop_price o) t (status o).

Global Instance OrderSide_eq_dec : EqDecision OrderSide.
Proof. solve_decision. Defined.

Global Instance OrderType_eq_dec : EqDecision OrderType.
Proof. solve_decision. Defined.

Global Instance OrderStatus_eq_dec : EqDecision OrderStatus.
Proof. solve_decision. Defined.

Global Instance Order_inhabited : Inhabited Order := populate Order_default.

(** ** market_data.h *)

Inductive MarketDataType := TRADE | QUOTE | ORDER_BOOK_UPDATE | TICK.

Record MarketData := mkMarketData {
  sequence_number : Z;
  md_symbol : string;
  md_type : MarketDataType;
  md_timestamp : time_point;
  trade_price : float;
  trade_quantity : Z;
  trade_id : Z;
  bid_price : float;
  bid_quantity : Z;
  ask_price : float;
  ask_quantity : Z;
  md_price : float;
  md_quantity : Z;
  is_bid : bool
}.

(** [MarketData::MarketData()]. *)
Definition MarketData_default : MarketData :=
  mkMarketData 0 "" TICK 0 0%float 0 0 0%float 0 0%float 0 0%float 0 false.

(** The [MarketData] that [record_trade] fills in. *)
Definition MarketData_trade (sym : string) (now : time_point) (prc : float)
    (qty : Z) (id : Z) : MarketData :=
  mkMarketData 0 sym TRADE now prc qty id 0%float 0 0%float 0 0%float 0 false.

Global Instance MarketData_inhabited : Inhabited MarketData :=
  populate MarketData_default.

(** ** std::map as the sorted list of its entries *)

Section OrderedMap.
Context {K V : Type}.
Variable comp : K -> K -> bool.

(** [m.find(k)]: lower bound, then the equivalence test. *)
Fixpoint map_find (k : K) (m : list (K * V)) : option V :=
  match m with
  | [] => None
  | (k', v) :: m' =>
      if comp k' k then map_find k m'
      else if comp k k' then None else Some v
  end.

(** [m[k] = f (m[k])], the entry being created from [d] when absent. *)
Fixpoint map_upsert (d : V) (f : V -> V) (k : K) (m : list (K * V))
    : list (K * V) :=
  match m with
  | [] => [(k, f d)]
  | (k', v) :: m' =>
      if comp k' k then (k', v) :: map_upsert d f k m'
      else if comp k k' then (k, f d) :: (k', v) :: m'
      else (k', f v) :: m'
  end.

(** [it = m.find(k); if (it != m.end()) it->second = f (it->second)]. *)
Fixpoint map_adjust (f : V -> V) (k : K) (m : list (K * V))
    : list (K * V) :=
  match m with
  | [] => []
  | (k', v) :: m' =>
      if comp k' k then (k', v) :: map_adjust f k m'
      else if comp k k' then (k', v) :: m'
      else (k', f v) :: m'
  end.
End OrderedMap.

(** ** order_book.h *)

Definition ptr := N.

(** [std::vector<std::shared_ptr<Order>>], one price level. *)
Abbreviation PriceLevel := (list ptr).

(** [std::map<double, std::vector<std::shared_ptr<Order>>, Cmp>]. *)
Abbreviation Ladder := (list (float * list ptr)).

Definition MAX_TRADES_HISTORY : Z := 1000.

Record OrderBook := mkOrderBook {
  symbol_ : string;
  bids_ : Ladder;                 (* std::greater<double> *)
  asks_ : Ladder;                 (* std::less<double> *)
  orders_by_id_ : gmap Z ptr;
  recent_trades_ : list MarketData;
  total_orders_ : Z;
  total_trades_ : Z;
  total_volume_ : float
}.

(** [OrderBook::OrderBook(symbol)]. *)
Definition OrderBook_new (sym : string) : OrderBook :=
  mkOrderBook sym [] [] ∅ [] 0 0 0%float.

(** The objects an operation of the book can reach: the [Order]s behind the
    shared pointers, the book itself, and [trace], the sequence of all
    [MarketData] values that [record_trade] has built so far (a history
    variable: the source keeps only the last [MAX_TRADES_HISTORY] of them). *)
Record State := mkState {
  heap : gmap ptr Order;
  book : OrderBook;
  trace : list MarketData
}.

Definition State_new (sym : string) : State :=
  mkState ∅ (OrderBook_new sym) [].

(** Dereference of a pointer the book holds. *)
Definition deref (h : gmap ptr Order) (p : ptr) : Order := h !!! p.

Definition set_bids (l : Ladder) (b : OrderBook) : OrderBook :=
  mkOrderBook (symbol_ b) l (asks_ b) (orders_by_id_ b) (recent_trades_ b)
              (total_orders_ b) (total_trades_ b) (total_volume_ b).

Definition set_asks (l : Ladder) (b : OrderBook) : OrderBook :=
  mkOrderBook (symbol_ b) (bids_ b) l (orders_by_id_ b) (recent_trades_ b)
              (total_orders_ b) (total_trades_ b) (total_volume_ b).

Definition set_orders_by_id (m : gmap Z ptr) (b : OrderBook) : OrderBook :=
  mkOrderBook (symbol_ b) (bids_ b) (asks_ b) m (recent_trades_ b)
              (total_orders_ b) (total_trades_ b) (total_volume_ b).

Definition set_total_orders (n : Z) (b : OrderBook) : OrderBook :=
  mkOrderBook (symbol_ b) (bids_ b) (asks_ b) (orders_by_id_ b)
              (recent_trades_ b) n (total_trades_ b) (total_volume_ b).

Definition set_heap (h : gmap ptr Order) (s : State) : State :=
  mkState h (book s) (trace s).

Definition set_book (b : OrderBook) (s : State) : State :=
  mkState (heap s) b (trace s).

Definition upd_book (f : OrderBook -> OrderBook) (s : State) : State :=
  set_book (f (book s)) s.

(** *** Price levels *)

(** Sorting a level with [a->timestamp < b->timestamp].  [std::sort] is
    not a stable sort: it returns a permutation in the order of the
    timestamps and leaves the order among equal timestamps to the
    implementation (libstdc++ keeps it in a level of up to 16 orders and
    may change it in a longer one).  The model returns the permutation
    that keeps equal timestamps in their order; what is stated of levels
    below depends on the level being a permutation in the order of the
    timestamps only. *)
Fixpoint insert_by_timestamp (h : gmap ptr Order) (p : ptr) (l : PriceLevel)
    : PriceLevel :=
  match l with
  | [] => [p]
  | q :: l' =>
      if timestamp (deref h q) <? timestamp (deref h p)
      then q :: insert_by_timestamp h p l'
      else p :: q :: l'
  end.

Definition sort_by_timestamp (h : gmap ptr Order) (l : PriceLevel)
    : PriceLevel :=
  foldr (insert_by_timestamp h) [] l.

(** [price_level.push_back(order); std::sort(...)]. *)
Definition level_push (h : gmap ptr Order) (p : ptr) (l : PriceLevel)
    : PriceLevel :=
  sort_by_timestamp h (l ++ [p]).

(** [erase(remove_if(..., order->order_id == id), end())]. *)
Definition level_remove (h : gmap ptr Order) (id : Z) (l : PriceLevel)
    : PriceLevel :=
  filter (fun q => order_id (deref h q) ≠ id) l.

Definition add_to_bid_level (prc : float) (p : ptr) (s : State) : State :=
  upd_book (fun b => set_bids (map_upsert gtb [] (level_push (heap s) p) prc (bids_ b)) b) s.

Definition add_to_ask_level (prc : float) (p : ptr) (s : State) : State :=
  upd_book (fun b => set_asks (map_upsert PrimFloat.ltb [] (level_push (heap s) p) prc (asks_ b)) b) s.

Definition remove_from_bid_level (prc : float) (id : Z) (s : State) : State :=
  upd_book (fun b => set_bids (map_adjust gtb (level_remove (heap s) id) prc (bids_ b)) b) s.

Definition remove_from_ask_level (prc : float) (id : Z) (s : State) : State :=
  upd_book (fun b => set_asks (map_adjust PrimFloat.ltb (level_remove (heap s) id) prc (asks_ b)) b) s.

Definition drop_empty (l : Ladder) : Ladder :=
  filter (fun kv => kv.2 ≠ []) l.

Definition cleanup_empty_levels (s : State) : State :=
  upd_book (fun b => set_asks (drop_empty (asks_ b)) (set_bids (drop_empty (bids_ b)) b)) s.

(** *** Trades *)

(** [OrderBook::record_trade]. The two order arguments are not read. *)
Definition record_trade (now : time_point) (prc : float) (qty : Z)
    (s : State) : State :=
  let b := book s in
  let trade := MarketData_trade (symbol_ b) now prc qty (u64 (total_trades_ b + 1)) in
  let pushed := recent_trades_ b ++ [trade] in
  let kept := if MAX_TRADES_HISTORY <? Z.of_nat (length pushed)
              then tail pushed else pushed in
  mkState (heap s)
          (mkOrderBook (symbol_ b) (bids_ b) (asks_ b) (orders_by_id_ b) kept
                       (total_orders_ b) (u64 (total_trades_ b + 1))
                       (total_volume_ b + prc * double_of_u64 qty)%float)
          (trace s ++ [trade]).

(** [filled_quantity += qty] through a shared pointer. *)
Definition fill (p : ptr) (qty : Z) (h : gmap ptr Order) : gmap ptr Order :=
  <[p := set_filled_quantity (u64 (filled_quantity (deref h p) + qty)) (deref h p)]> h.

(** "Remove filled orders" for one side of [match_orders]: the head of the
    best level is erased, its id leaves the id map and the order count
    drops. *)
Definition unlink_if_filled (o : Order) (rest : PriceLevel)
    (level : PriceLevel) (b : OrderBook) : PriceLevel * OrderBook :=
  if is_filled o
  then (rest,
        set_total_orders (u64 (total_orders_ b - 1))
          (set_orders_by_id (delete (order_id o) (orders_by_id_ b)) b))
  else (level, b).

(** "Clean up empty price levels" for one side of [match_orders]. *)
Definition relink (k : float) (level : PriceLevel) (others : Ladder) : Ladder :=
  match level with
  | [] => others
  | _ => (k, level) :: others
  end.

(** One evaluation of the loop of [OrderBook::match_orders]: [None] when the
    loop condition fails or a [break] is taken, the state after the body
    otherwise. *)
Definition match_step (now : time_point) (s : State) : option State :=
  match bids_ (book s), asks_ (book s) with
  | (best_bid, best_bids) :: bids', (best_ask, best_asks) :: asks' =>
      if (best_bid <? best_ask)%float then None
      else
        match best_bids, best_asks with
        | buy_order :: rest_bids, sell_order :: rest_asks =>
            let match_price := ((best_bid + best_ask) / 2)%float in
            let match_quantity :=
              Z.min (remaining_quantity (deref (heap s) buy_order))
                    (remaining_quantity (deref (heap s) sell_order)) in
            let s1 := record_trade now match_price match_quantity s in
            let h1 := fill buy_order match_quantity (heap s1) in
            let h2 := fill sell_order match_quantity h1 in
            let '(best_bids', b1) :=
              unlink_if_filled (deref h2 buy_order) rest_bids best_bids (book s1) in
            let '(best_asks', b2) :=
              unlink_if_filled (deref h2 sell_order) rest_asks best_asks b1 in
            Some (mkState h2
                    (set_asks (relink best_ask best_asks' asks')
                       (set_bids (relink best_bid best_bids' bids') b2))
                    (trace s1))
        | _, _ => None
        end
  | _, _ => None
  end.

(** The [while] loop, run for at most [fuel] evaluations of its condition;
    [None] when it has not left the loop by then. *)
Fixpoint match_loop (fuel : nat) (now : time_point) (s : State) : option State :=
  match fuel with
  | O => None
  | S fuel' =>
      match match_step now s with
      | None => Some s
      | Some s' => match_loop fuel' now s'
      end
  end.

Definition ladder_size (l : Ladder) : nat :=
  sum_list (map (fun kv => length kv.2) l).

Definition resting (b : OrderBook) : nat :=
  (ladder_size (bids_ b) + ladder_size (asks_ b))%nat.

(** [OrderBook::match_orders]. Every pass of the loop that pairs two
    different [Order] objects erases the head of a level, so one evaluation
    of the condition per resting pointer and one more leave the loop
    ([match_orders_terminates]); [None] stands for a run that is still in the
    loop after that many. *)
Definition match_orders (now : time_point) (s : State) : option State :=
  match_loop (S (resting (book s))) now s.

Definition process_market_order (now : time_point) (order : ptr) (s : State)
    : option State :=
  match_orders now s.

Definition process_limit_order (now : time_point) (order : ptr) (s : State)
    : option State :=
  match_orders now s.

(** *** Public operations *)

Definition add_to_level (o : Order) (order : ptr) (s : State) : State :=
  match side o with
  | BUY => add_to_bid_level (price o) order s
  | SELL => add_to_ask_level (price o) order s
  end.

Definition remove_from_level (o : Order) (id : Z) (s : State) : State :=
  match side o with
  | BUY => remove_from_bid_level (price o) id s
  | SELL => remove_from_ask_level (price o) id s
  end.

(** [OrderBook::add_order]. A pointer that the store does not hold stands
    for the null pointer. *)
Definition add_order (now : time_point) (order : ptr) (s : State)
    : option (bool * State) :=
  match heap s !! order with
  | None => Some (false, s)
  | Some o =>
      if negb (String.eqb (symbol o) (symbol_ (book s))) then Some (false, s)
      else
        match orders_by_id_ (book s) !! order_id o with
        | Some _ => Some (false, s)
        | None =>
            let s1 := upd_book (fun b =>
                        set_orders_by_id (<[order_id o := order]> (orders_by_id_ b)) b) s in
            let s2 := add_to_level o order s1 in
            let s3 := upd_book (fun b => set_total_orders (u64 (total_orders_ b + 1)) b) s2 in
            s4 ← (match type o with
                  | MARKET => process_market_order now order s3
                  | _ => process_limit_order now order s3
                  end);
            s5 ← match_orders now s4;
            Some (true, s5)
        end
  end.

(** [OrderBook::cancel_order]. *)
Definition cancel_order (id : Z) (s : State) : bool * State :=
  match orders_by_id_ (book s) !! id with
  | None => (false, s)
  | Some order =>
      let o := deref (heap s) order in
      let s1 := remove_from_level o id s in
      let s2 := upd_book (fun b => set_orders_by_id (delete id (orders_by_id_ b)) b) s1 in
      let s3 := set_heap (<[order := set_status CANCELLED (deref (heap s2) order)]> (heap s2)) s2 in
      let s4 := upd_book (fun b => set_total_orders (u64 (total_orders_ b - 1)) b) s3 in
      (true, cleanup_empty_levels s4)
  end.

(** [OrderBook::modify_order]. *)
Definition modify_order (now : time_point) (id : Z) (new_quantity : Z)
    (new_price : float) (s : State) : option (bool * State) :=
  match orders_by_id_ (book s) !! id with
  | None => Some (false, s)
  | Some order =>
      let o := deref (heap s) order in
      let s1 := remove_from_level o id s in
      let o' := set_quantity_price_timestamp new_quantity new_price now o in
      let s2 := set_heap (<[order := o']> (heap s1)) s1 in
      let s3 := add_to_level o' order s2 in
      s4 ← match_orders now s3;
      Some (true, cleanup_empty_levels s4)
  end.

(** *** Queries *)

Definition get_best_bid (b : OrderBook) : float :=
  match bids_ b with
  | [] => 0%float
  | (k, _) :: _ => k
  end.

Definition get_best_ask (b : OrderBook) : float :=
  match asks_ b with
  | [] => 0%float
  | (k, _) :: _ => k
  end.

Definition level_quantity (h : gmap ptr Order) (l : PriceLevel) : Z :=
  foldl (fun acc p => u64 (acc + remaining_quantity (deref h p))) 0 l.



Definition get_order_count (b : OrderBook) : Z := total_orders_ b.

Definition get_trade_count (b : OrderBook) : Z := total_trades_ b.

Definition get_total_volume (b : OrderBook) : float := total_volume_ b.

(** [get_recent_trades(count)]: newest first. *)
Definition get_recent_trades (count : nat) (b : OrderBook) : list MarketData :=
  take count (reverse (recent_trades_ b)).

(** *** Clients of one book

    What the collaborators of a book do between its operations: they
    construct orders ([std::make_shared<Order>], which yields an address
    that holds no live object) and call the three mutators.  A live [Order]
    has [uint64_t] fields, and [new_quantity] is converted to [uint64_t] at
    the call.  The book being "the sole owner of a live order's mutable
    state", no step writes to an order that was handed over. *)

Definition typed_orderb (o : Order) : bool :=
  (0 <=? quantity o) && (quantity o <? 2 ^ 64) &&
  (0 <=? filled_quantity o) && (filled_quantity o <? 2 ^ 64).

Inductive Op :=
  | OpNew (p : ptr) (o : Order)
  | OpAdd (now : time_point) (order : ptr)
  | OpCancel (id : Z)
  | OpModify (now : time_point) (id : Z) (new_quantity : Z) (new_price : float).

Definition alloc (p : ptr) (o : Order) (h : gmap ptr Order) : gmap ptr Order :=
  match h !! p with
  | None => if typed_orderb o then <[p := o]> h else h
  | Some _ => h
  end.

Definition step (op : Op) (s : State) : option State :=
  match op with
  | OpNew p o => Some (set_heap (alloc p o (heap s)) s)
  | OpAdd now order => snd <$> add_order now order s
  | OpCancel id => Some (cancel_order id s).2
  | OpModify now id q prc => snd <$> modify_order now id (u64 q) prc s
  end.

Fixpoint run (ops : list Op) (s : State) : option State :=
  match ops with
  | [] => Some s
  | op :: ops' => s' ← step op s; run ops' s'
  end.

(** ** ring_buffer.h *)

Record LockFreeRingBuffer (T : Type) := mkRing {
  buffer_ : list T;
  head_ : Z;
  tail_ : Z
}.

Arguments mkRing {T} _ _ _.
Arguments buffer_ {T} _.
Arguments head_ {T} _.
Arguments tail_ {T} _.

Section RingBuffer.
Context {T : Type} `{Inhabited T}.

(** The template argument, and what the [static_assert] of the class and
    the type [size_t] ask of it. *)
Variable Size : Z.

Definition Size_ok : Prop :=
  0 < Size /\ Z.land Size (Size - 1) = 0 /\ Size < 2 ^ 64.

Definition MASK : Z := Size - 1.

(** The defaulted constructor: value-initialised slots, both indices 0. *)
Definition LockFreeRingBuffer_new : LockFreeRingBuffer T :=
  mkRing (replicate (Z.to_nat Size) inhabitant) 0 0.

Definition try_push (item : T) (rb : LockFreeRingBuffer T)
    : bool * LockFreeRingBuffer T :=
  let current_tail := tail_ rb in
  let next_tail := Z.land (u64 (current_tail + 1)) MASK in
  if next_tail =? head_ rb then (false, rb)
  else (true, mkRing (<[Z.to_nat current_tail := item]> (buffer_ rb))
                     (head_ rb) next_tail).

Definition try_pop (rb : LockFreeRingBuffer T)
    : option T * LockFreeRingBuffer T :=
  let current_head := head_ rb in
  if current_head =? tail_ rb then (None, rb)
  else (Some (buffer_ rb !!! Z.to_nat current_head),
        mkRing (buffer_ rb) (Z.land (u64 (current_head + 1)) MASK) (tail_ rb)).

Definition ring_empty (rb : LockFreeRingBuffer T) : bool :=
  head_ rb =? tail_ rb.

Definition ring_full (rb : LockFreeRingBuffer T) : bool :=
  Z.land (u64 (tail_ rb + 1)) MASK =? head_ rb.

Definition ring_size (rb : LockFreeRingBuffer T) : Z :=
  if head_ rb <=? tail_ rb then tail_ rb - head_ rb
  else u64 (u64 (Size - head_ rb) + tail_ rb).

Definition ring_capacity (rb : LockFreeRingBuffer T) : Z := Size.

Definition ring_clear (rb : LockFreeRingBuffer T) : LockFreeRingBuffer T :=
  mkRing (buffer_ rb) 0 0.

(** Consecutive calls of [try_push], one per item, with their results. *)
Fixpoint push_all (items : list T) (rb : LockFreeRingBuffer T)
    : list bool * LockFreeRingBuffer T :=
  match items with
  | [] => ([], rb)
  | item :: items' =>
      let '(r, rb1) := try_push item rb in
      let '(rs, rb2) := push_all items' rb1 in
      (r :: rs, rb2)
  end.

End RingBuffer.

(** ** order_matching_engine.h *)

Record PerformanceMetrics := mkMetrics {
  orders_processed : Z;
  trades_executed : Z;
  market_data_updates : Z;
  total_latency_ns : Z;
  max_latency_ns : Z;
  min_latency_ns : Z;
  orders_per_second : Z;
  trades_per_second : Z;
  market_data_per_second : Z
}.

(** The default member initialisers. *)
Definition PerformanceMetrics_new : PerformanceMetrics :=
  mkMetrics 0 0 0 0 0 UINT64_MAX 0 0 0.

(** [PerformanceMetrics::reset]. *)
Definition PerformanceMetrics_reset (m : PerformanceMetrics) : PerformanceMetrics :=
  mkMetrics 0 0 0 0 0 UINT64_MAX 0 0 0.

(** The engine: the members of [OrderMatchingEngine] that its operations
    read or write, the [Order] objects its pointers reach ([orders]), and
    the three function-local statics of [calculate_throughput_metrics].
    The statics belong to the process and are shared by all its engines;
    the model follows one engine and keeps them with it. *)
Record OrderMatchingEngine := mkEngine {
  running_ : bool;
  shutdown_requested_ : bool;
  order_book_manager_ : gmap string OrderBook;
  order_buffer_ : LockFreeRingBuffer ptr;
  market_data_buffer_ : LockFreeRingBuffer MarketData;
  metrics_ : PerformanceMetrics;
  orders : gmap ptr Order;
  last_orders : Z;
  last_trades : Z;
  last_market_data : Z
}.

(** [OrderRingBuffer<65536>] and [MarketDataRingBuffer<65536>]. *)
Definition BUFFER_SIZE : Z := 65536.

Definition OrderMatchingEngine_new : OrderMatchingEngine :=
  mkEngine false false ∅
           (LockFreeRingBuffer_new BUFFER_SIZE) (LockFreeRingBuffer_new BUFFER_SIZE)
           PerformanceMetrics_new ∅ 0 0 0.

Definition set_running (r sh : bool) (e : OrderMatchingEngine) : OrderMatchingEngine :=
  mkEngine r sh (order_book_manager_ e) (order_buffer_ e) (market_data_buffer_ e)
           (metrics_ e) (orders e) (last_orders e) (last_trades e) (last_market_data e).

Definition set_order_buffer (rb : LockFreeRingBuffer ptr) (e : OrderMatchingEngine)
    : OrderMatchingEngine :=
  mkEngine (running_ e) (shutdown_requested_ e) (order_book_manager_ e) rb
           (market_data_buffer_ e) (metrics_ e) (orders e)
           (last_orders e) (last_trades e) (last_market_data e).

Definition set_market_data_buffer (rb : LockFreeRingBuffer MarketData)
    (e : OrderMatchingEngine) : OrderMatchingEngine :=
  mkEngine (running_ e) (shutdown_requested_ e) (order_book_manager_ e)
           (order_buffer_ e) rb (metrics_ e) (orders e)
           (last_orders e) (last_trades e) (last_market_data e).

Definition set_metrics (m : PerformanceMetrics) (e : OrderMatchingEngine)
    : OrderMatchingEngine :=
  mkEngine (running_ e) (shutdown_requested_ e) (order_book_manager_ e)
           (order_buffer_ e) (market_data_buffer_ e) m (orders e)
           (last_orders e) (last_trades e) (last_market_data e).

Definition set_orders (h : gmap ptr Order) (e : OrderMatchingEngine)
    : OrderMatchingEngine :=
  mkEngine (running_ e) (shutdown_requested_ e) (order_book_manager_ e)
           (order_buffer_ e) (market_data_buffer_ e) (metrics_ e) h
           (last_orders e) (last_trades e) (last_market_data e).

(** A call into the book of [sym] has run and left [s]. *)
Definition store_book (sym : string) (s : State) (e : OrderMatchingEngine)
    : OrderMatchingEngine :=
  mkEngine (running_ e) (shutdown_requested_ e)
           (<[sym := book s]> (order_book_manager_ e))
           (order_buffer_ e) (market_data_buffer_ e) (metrics_ e) (heap s)
           (last_orders e) (last_trades e) (last_market_data e).

(** [OrderBookManager::get_or_create_order_book], the book it returns. *)
Definition get_or_create_order_book (sym : string) (e : OrderMatchingEngine)
    : OrderBook :=
  match order_book_manager_ e !! sym with
  | Some b => b
  | None => OrderBook_new sym
  end.

(** [OrderMatchingEngine::start]; the two arguments say whether the TCP
    server and the market data processor came up.  Both answers are left
    open here, so that the runs of [engine_run] include every run of the
    program; [engine_start_owned] below computes the second from the
    processor that the constructor of the engine makes. *)
Definition engine_start (tcp_ok mdp_ok : bool) (e : OrderMatchingEngine)
    : bool * OrderMatchingEngine :=
  if running_ e then (true, e)
  else if negb tcp_ok then (false, e)
  else if negb mdp_ok then (false, e)
  else (true, set_running true (shutdown_requested_ e) e).

(** [OrderMatchingEngine::stop], after the workers have been joined. *)
Definition engine_stop (e : OrderMatchingEngine) : OrderMatchingEngine :=
  if running_ e then set_running false false e else e.

(** [OrderMatchingEngine::update_performance_metrics]; each of the two
    compare-and-swap loops ends with the smaller (larger) value stored. *)
Definition update_performance_metrics (latency_ns : Z) (e : OrderMatchingEngine)
    : OrderMatchingEngine :=
  let m := metrics_ e in
  set_metrics
    (mkMetrics (orders_processed m) (trades_executed m) (market_data_updates m)
               (u64 (total_latency_ns m + latency_ns))
               (if max_latency_ns m <? latency_ns then latency_ns else max_latency_ns m)
               (if latency_ns <? min_latency_ns m then latency_ns else min_latency_ns m)
               (orders_per_second m) (trades_per_second m) (market_data_per_second m))
    e.

(** [OrderMatchingEngine::submit_order]; [latency] is the difference of the
    two readings of the clock. *)
Definition submit_order (order : ptr) (latency : Z) (e : OrderMatchingEngine)
    : bool * OrderMatchingEngine :=
  if negb (running_ e) || negb (bool_decide (is_Some (orders e !! order)))
  then (false, e)
  else
    let '(pushed, rb) := try_push BUFFER_SIZE order (order_buffer_ e) in
    if negb pushed then (false, e)
    else (true, update_performance_metrics (u64 latency) (set_order_buffer rb e)).

(** [OrderMatchingEngine::cancel_order]. *)
Definition engine_cancel_order (id : Z) (sym : string) (e : OrderMatchingEngine)
    : bool * OrderMatchingEngine :=
  if negb (running_ e) then (false, e)
  else
    match order_book_manager_ e !! sym with
    | None => (false, e)
    | Some b =>
        let '(r, s) := cancel_order id (mkState (orders e) b []) in
        (r, store_book sym s e)
    end.

(** [OrderMatchingEngine::modify_order]. *)
Definition engine_modify_order (now : time_point) (id : Z) (sym : string)
    (new_quantity : Z) (new_price : float) (e : OrderMatchingEngine)
    : option (bool * OrderMatchingEngine) :=
  if negb (running_ e) then Some (false, e)
  else
    match order_book_manager_ e !! sym with
    | None => Some (false, e)
    | Some b =>
        '(r, s) ← modify_order now id new_quantity new_price (mkState (orders e) b []);
        Some (r, store_book sym s e)
    end.

(** [OrderMatchingEngine::submit_market_data]. *)
Definition submit_market_data (data : MarketData) (e : OrderMatchingEngine)
    : bool * OrderMatchingEngine :=
  if negb (running_ e) then (false, e)
  else
    let '(pushed, rb) := try_push BUFFER_SIZE data (market_data_buffer_ e) in
    if negb pushed then (false, e) else (true, set_market_data_buffer rb e).

(** The collecting loop of the two batch functions: up to [n] pops. *)
Fixpoint pop_batch {T : Type} `{Inhabited T} (n : nat) (rb : LockFreeRingBuffer T)
    : list T * LockFreeRingBuffer T :=
  match n with
  | O => ([], rb)
  | S n' =>
      match try_pop BUFFER_SIZE rb with
      | (None, _) => ([], rb)
      | (Some x, rb1) =>
          let '(xs, rb2) := pop_batch n' rb1 in (x :: xs, rb2)
      end
  end.

Definition count_order_processed (e : OrderMatchingEngine) : OrderMatchingEngine :=
  let m := metrics_ e in
  set_metrics
    (mkMetrics (u64 (orders_processed m + 1)) (trades_executed m)
               (market_data_updates m) (total_latency_ns m) (max_latency_ns m)
               (min_latency_ns m) (orders_per_second m) (trades_per_second m)
               (market_data_per_second m))
    e.

Definition count_market_data_update (e : OrderMatchingEngine) : OrderMatchingEngine :=
  let m := metrics_ e in
  set_metrics
    (mkMetrics (orders_processed m) (trades_executed m)
               (u64 (market_data_updates m + 1)) (total_latency_ns m)
               (max_latency_ns m) (min_latency_ns m) (orders_per_second m)
               (trades_per_second m) (market_data_per_second m))
    e.

(** The body of the processing loop of [process_order_batch]. *)
Definition process_order (now : time_point) (order : ptr) (e : OrderMatchingEngine)
    : option OrderMatchingEngine :=
  let sym := symbol (deref (orders e) order) in
  let b := get_or_create_order_book sym e in
  '(accepted, s) ← add_order now order (mkState (orders e) b []);
  let e' := store_book sym s e in
  Some (if accepted : bool then count_order_processed e' else e').

Fixpoint process_orders (now : time_point) (batch : list ptr)
    (e : OrderMatchingEngine) : option OrderMatchingEngine :=
  match batch with
  | [] => Some e
  | order :: batch' => e' ← process_order now order e; process_orders now batch' e'
  end.

(** [OrderMatchingEngine::process_order_batch]. *)
Definition process_order_batch (now : time_point) (e : OrderMatchingEngine)
    : option OrderMatchingEngine :=
  let '(batch, rb) := pop_batch 100 (order_buffer_ e) in
  process_orders now batch (set_order_buffer rb e).

(** [OrderMatchingEngine::process_market_data_batch]. The callback is code
    of the embedder; it is given the data by reference to const and is
    taken not to call back into the engine. *)
Definition process_market_data_batch (e : OrderMatchingEngine) : OrderMatchingEngine :=
  let '(batch, rb) := pop_batch 100 (market_data_buffer_ e) in
  foldl (fun e' _ => count_market_data_update e') (set_market_data_buffer rb e) batch.

(** [OrderMatchingEngine::calculate_throughput_metrics]. *)
Definition calculate_throughput_metrics (e : OrderMatchingEngine)
    : OrderMatchingEngine :=
  let m := metrics_ e in
  let current_orders := orders_processed m in
  let current_trades := trades_executed m in
  let current_market_data := market_data_updates m in
  mkEngine (running_ e) (shutdown_requested_ e) (order_book_manager_ e)
           (order_buffer_ e) (market_data_buffer_ e)
           (mkMetrics (orders_processed m) (trades_executed m) (market_data_updates m)
                      (total_latency_ns m) (max_latency_ns m) (min_latency_ns m)
                      (u64 (current_orders - last_orders e))
                      (u64 (current_trades - last_trades e))
                      (u64 (current_market_data - last_market_data e)))
           (orders e) current_orders current_trades current_market_data.

(** [OrderMatchingEngine::reset_performance_metrics]. *)
Definition reset_performance_metrics (e : OrderMatchingEngine) : OrderMatchingEngine :=
  set_metrics (PerformanceMetrics_reset (metrics_ e)) e.

(** *** What can happen to an engine

    One constructor per way the state of the engine changes: a client
    constructing an order, a call of a public member function, and one
    pass of the loop of a worker thread (matching, market data, metrics).
    Passes of different threads are taken one after the other. *)
Inductive EngineOp :=
  | ENew (p : ptr) (o : Order)
  | EStart (tcp_ok mdp_ok : bool)
  | EStop
  | ESubmitOrder (order : ptr) (latency : Z)
  | ECancelOrder (id : Z) (sym : string)
  | EModifyOrder (now : time_point) (id : Z) (sym : string) (q : Z) (prc : float)
  | ESubmitMarketData (data : MarketData)
  | EMatchingPass (now : time_point)
  | EMarketDataPass
  | EMetricsPass
  | EResetMetrics.

Definition engine_step (op : EngineOp) (e : OrderMatchingEngine)
    : option OrderMatchingEngine :=
  match op with
  | ENew p o => Some (set_orders (alloc p o (orders e)) e)
  | EStart tcp_ok mdp_ok => Some (engine_start tcp_ok mdp_ok e).2
  | EStop => Some (engine_stop e)
  | ESubmitOrder order latency => Some (submit_order order latency e).2
  | ECancelOrder id sym => Some (engine_cancel_order id sym e).2
  | EModifyOrder now id sym q prc => snd <$> engine_modify_order now id sym (u64 q) prc e
  | ESubmitMarketData data => Some (submit_market_data data e).2
  | EMatchingPass now => process_order_batch now e
  | EMarketDataPass => Some (process_market_data_batch e)
  | EMetricsPass => Some (calculate_throughput_metrics e)
  | EResetMetrics => Some (reset_performance_metrics e)
  end.

Fixpoint engine_run (ops : list EngineOp) (e : OrderMatchingEngine)
    : option OrderMatchingEngine :=
  match ops with
  | [] => Some e
  | op :: ops' => e' ← engine_step op e; engine_run ops' e'
  end.

(** * Further members of the embedded classes *)

(** ** order_book.cpp: the level 2 queries *)

(** The loop of [OrderBook::get_bids] and [OrderBook::get_asks] over the
    entries of a ladder: [count] levels have been emitted, the loop breaks
    at [count >= levels]. *)
Fixpoint collect_levels (h : gmap ptr Order) (levels count : nat) (l : Ladder)
    : list (float * Z) :=
  match l with
  | [] => []
  | (prc, level) :: l' =>
      if (levels <=? count)%nat then []
      else (prc, level_quantity h level) :: collect_levels h levels (S count) l'
  end.

(** [OrderBook::get_bids(levels)]. *)
Definition get_bids (levels : nat) (s : State) : list (float * Z) :=
  collect_levels (heap s) levels 0 (bids_ (book s)).

(** [OrderBook::get_asks(levels)]. *)
Definition get_asks (levels : nat) (s : State) : list (float * Z) :=
  collect_levels (heap s) levels 0 (asks_ (book s)).

(** [OrderBookSnapshot] of market_data.h. *)
Record OrderBookSnapshot := mkSnapshot {
  snap_symbol : string;
  snap_timestamp : time_point;
  snap_bids : list (float * Z);
  snap_asks : list (float * Z)
}.

(** [OrderBook::get_snapshot]. *)
Definition get_snapshot (now : time_point) (s : State) : OrderBookSnapshot :=
  mkSnapshot (symbol_ (book s)) now (get_bids 10 s) (get_asks 10 s).

(** ** performance_monitor.h / performance_monitor.cpp *)

Inductive CounterType := COUNTER | GAUGE | HISTOGRAM | LATENCY | THROUGHPUT.

(** [PerformanceCounter]: the public atomics [value], [count], [min_value]
    and [max_value] and the private [type_], [count_], [total_], [min_]
    and [max_].  The public member [type] is never initialised or assigned
    and is left out, as is the private [histogram_], which no member
    function touches. *)
Record PerformanceCounter := mkCounter {
  value : Z;
  count : Z;
  min_value : Z;
  max_value : Z;
  type_ : CounterType;
  count_ : Z;
  total_ : Z;
  min_ : Z;
  max_ : Z
}.

(** The two constructors; the name is not stored. *)
Definition PerformanceCounter_new (t : CounterType) : PerformanceCounter :=
  mkCounter 0 0 UINT64_MAX 0 t 0 0 UINT64_MAX 0.

(** [PerformanceCounter::increment]; each of the two compare-and-swap
    loops ends with the smaller (larger) value stored. *)
Definition increment (v : Z) (c : PerformanceCounter) : PerformanceCounter :=
  mkCounter (value c) (count c) (min_value c) (max_value c) (type_ c)
            (u64 (count_ c + 1)) (u64 (total_ c + v))
            (if v <? min_ c then v else min_ c)
            (if max_ c <? v then v else max_ c).

(** [PerformanceCounter::set]. *)
Definition counter_set (v : Z) (c : PerformanceCounter) : PerformanceCounter :=
  mkCounter v (count c) (min_value c) (max_value c) (type_ c)
            (count_ c) (total_ c) (min_ c) (max_ c).

(** [PerformanceCounter::record_latency] and [PerformanceCounter::update]. *)
Definition counter_record_latency (latency_ns : Z) (c : PerformanceCounter)
    : PerformanceCounter := increment latency_ns c.

Definition counter_update (v : Z) (c : PerformanceCounter) : PerformanceCounter :=
  increment v c.

Definition get_count (c : PerformanceCounter) : Z := count_ c.
Definition get_total (c : PerformanceCounter) : Z := total_ c.
Definition get_min (c : PerformanceCounter) : Z := min_ c.
Definition get_max (c : PerformanceCounter) : Z := max_ c.

(** [PerformanceCounter::get_average]. *)
Definition get_average (c : PerformanceCounter) : float :=
  if 0 <? count_ c
  then (double_of_u64 (total_ c) / double_of_u64 (count_ c))%float
  else 0%float.

(** [PerformanceCounter::get_histogram]: one hundred zeros. *)
Definition counter_get_histogram (c : PerformanceCounter) : list Z :=
  replicate 100 0.

(** [PerformanceCounter::get_percentile]. *)
Definition counter_get_percentile (percentile : float) (c : PerformanceCounter)
    : float := get_average c.

(** [PerformanceCounter::reset]. *)
Definition counter_reset (c : PerformanceCounter) : PerformanceCounter :=
  mkCounter 0 (count c) (min_value c) (max_value c) (type_ c) 0 0 UINT64_MAX 0.

(** [LatencyHistogram]: the members that its functions use. *)
Record LatencyHistogram := mkHistogram {
  buckets_ : list Z;
  total_count_ : Z;
  num_buckets_ : Z;
  bucket_size_ns_ : Z
}.

(** [LatencyHistogram::LatencyHistogram()] and
    [LatencyHistogram::LatencyHistogram(num_buckets)]. *)
Definition LatencyHistogram_default : LatencyHistogram :=
  mkHistogram (replicate 100 0) 0 100 1000.

Definition LatencyHistogram_new (num_buckets : Z) : LatencyHistogram :=
  mkHistogram (replicate (Z.to_nat num_buckets) 0) 0 num_buckets 1000.

(** [LatencyHistogram::get_bucket_index]. *)
Definition get_bucket_index (latency_ns : Z) (h : LatencyHistogram) : Z :=
  let bucket_index := latency_ns / bucket_size_ns_ h in
  let max_bucket := u64 (num_buckets_ h - 1) in
  if bucket_index <? max_bucket then bucket_index else max_bucket.

(** [LatencyHistogram::add_latency]. *)
Definition add_latency (latency_ns : Z) (h : LatencyHistogram) : LatencyHistogram :=
  let bucket_index := get_bucket_index latency_ns h in
  if bucket_index <? Z.of_nat (length (buckets_ h))
  then mkHistogram
         (<[Z.to_nat bucket_index :=
              u64 (buckets_ h !!! Z.to_nat bucket_index + 1)]> (buckets_ h))
         (u64 (total_count_ h + 1)) (num_buckets_ h) (bucket_size_ns_ h)
  else h.

(** [LatencyHistogram::reset]. *)
Definition histogram_reset (h : LatencyHistogram) : LatencyHistogram :=
  mkHistogram ((fun _ => 0) <$> buckets_ h) 0 (num_buckets_ h) (bucket_size_ns_ h).

(** The loop of [LatencyHistogram::get_histogram] from index [i] on. *)
Fixpoint histogram_entries (bucket_size : Z) (i : Z) (buckets : list Z)
    : list (Z * Z) :=
  match buckets with
  | [] => []
  | c :: buckets' =>
      if 0 <? c
      then (u64 (i * bucket_size), c) :: histogram_entries bucket_size (i + 1) buckets'
      else histogram_entries bucket_size (i + 1) buckets'
  end.

(** [LatencyHistogram::get_histogram]. *)
Definition get_histogram (h : LatencyHistogram) : list (Z * Z) :=
  histogram_entries (bucket_size_ns_ h) 0 (buckets_ h).

(** [PerformanceMonitor]: the counters, the histograms and the flag.  The
    memory, CPU and cache trackers read the operating system and are left
    out. *)
Record PerformanceMonitor := mkMonitor {
  counters_ : gmap string PerformanceCounter;
  latency_histograms_ : gmap string LatencyHistogram;
  detailed_monitoring_enabled_ : bool
}.

Definition PerformanceMonitor_new (enable_detailed_monitoring : bool)
    : PerformanceMonitor :=
  mkMonitor ∅ ∅ enable_detailed_monitoring.

(** [PerformanceMonitor::get_counter]; [None] is the null pointer. *)
Definition get_counter (name : string) (pm : PerformanceMonitor)
    : option PerformanceCounter :=
  counters_ pm !! name.

Definition create_counter (name : string) (t : CounterType) (pm : PerformanceMonitor)
    : PerformanceMonitor :=
  mkMonitor (<[name := PerformanceCounter_new t]> (counters_ pm))
            (latency_histograms_ pm) (detailed_monitoring_enabled_ pm).

Definition remove_counter (name : string) (pm : PerformanceMonitor)
    : PerformanceMonitor :=
  mkMonitor (delete name (counters_ pm)) (latency_histograms_ pm)
            (detailed_monitoring_enabled_ pm).

(** "Get or create counter" of [record_latency] and [record_throughput]. *)
Definition ensure_counter (name : string) (t : CounterType) (pm : PerformanceMonitor)
    : PerformanceMonitor :=
  match get_counter name pm with
  | Some _ => pm
  | None => create_counter name t pm
  end.

(** [PerformanceMonitor::record_latency]. *)
Definition monitor_record_latency (operation : string) (latency_ns : Z)
    (pm : PerformanceMonitor) : PerformanceMonitor :=
  let pm1 := ensure_counter operation LATENCY pm in
  match get_counter operation pm1 with
  | None => pm1
  | Some counter =>
      let counters := <[operation := counter_update latency_ns counter]> (counters_ pm1) in
      if detailed_monitoring_enabled_ pm1
      then
        let histogram :=
          match latency_histograms_ pm1 !! operation with
          | Some h => h
          | None => LatencyHistogram_default
          end in
        mkMonitor counters
                  (<[operation := add_latency latency_ns histogram]>
                     (latency_histograms_ pm1))
                  true
      else mkMonitor counters (latency_histograms_ pm1) false
  end.

(** [PerformanceMonitor::record_throughput]. *)
Definition record_throughput (operation : string) (n : Z) (pm : PerformanceMonitor)
    : PerformanceMonitor :=
  let pm1 := ensure_counter operation THROUGHPUT pm in
  match get_counter operation pm1 with
  | None => pm1
  | Some counter =>
      mkMonitor (<[operation := counter_update n counter]> (counters_ pm1))
                (latency_histograms_ pm1) (detailed_monitoring_enabled_ pm1)
  end.

(** [PerformanceMonitor::get_average_latency]. *)
Definition get_average_latency (operation : string) (pm : PerformanceMonitor)
    : float :=
  match get_counter operation pm with
  | Some counter => get_average counter
  | None => 0%float
  end.

(** [PerformanceMonitor::get_throughput]. *)
Definition get_throughput (operation : string) (pm : PerformanceMonitor) : Z :=
  match get_counter operation pm with
  | Some counter => value counter
  | None => 0
  end.

Definition enable_detailed_monitoring (enable : bool) (pm : PerformanceMonitor)
    : PerformanceMonitor :=
  mkMonitor (counters_ pm) (latency_histograms_ pm) enable.

(** [PerformanceMonitor::reset_all_counters], for the counters and the
    histograms. *)
Definition reset_all_counters (pm : PerformanceMonitor) : PerformanceMonitor :=
  mkMonitor (counter_reset <$> counters_ pm)
            (histogram_reset <$> latency_histograms_ pm)
            (detailed_monitoring_enabled_ pm).

(** The calls a user of the monitor can make on it. *)
Inductive MonitorOp :=
  | MCreate (name : string) (t : CounterType)
  | MRemove (name : string)
  | MRecordLatency (operation : string) (latency_ns : Z)
  | MRecordThroughput (operation : string) (n : Z)
  | MEnableDetailed (enable : bool)
  | MResetAll.

Definition monitor_step (op : MonitorOp) (pm : PerformanceMonitor)
    : PerformanceMonitor :=
  match op with
  | MCreate name t => create_counter name t pm
  | MRemove name => remove_counter name pm
  | MRecordLatency operation latency_ns =>
      monitor_record_latency operation (u64 latency_ns) pm
  | MRecordThroughput operation n => record_throughput operation (u64 n) pm
  | MEnableDetailed enable => enable_detailed_monitoring enable pm
  | MResetAll => reset_all_counters pm
  end.

Definition monitor_run (ops : list MonitorOp) (pm : PerformanceMonitor)
    : PerformanceMonitor :=
  foldl (fun pm' op => monitor_step op pm') pm ops.

(** ** order.h: the comparator *)

(** [OrderCompare::operator()]. *)
Definition OrderCompare (lhs rhs : Order) : bool :=
  match side lhs with
  | BUY =>
      if negb (price lhs =? price rhs)%float
      then (price lhs <? price rhs)%float
      else timestamp rhs <? timestamp lhs
  | SELL =>
      if negb (price lhs =? price rhs)%float
      then gtb (price lhs) (price rhs)
      else timestamp rhs <? timestamp lhs
  end.

(** [Order::reset]; the time point is not assigned. *)
Definition Order_reset (o : Order) : Order :=
  mkOrder 0 0 "" BUY LIMIT 0 0 0%float 0%float (timestamp o) PENDING.

(** ** market_data_processor.h / market_data_processor.cpp *)

(** [MarketDataProcessor::validate_market_data]; the time point counts
    from the epoch. *)
Definition validate_market_data (data : MarketData) : bool :=
  if String.eqb (md_symbol data) "" then false
  else if md_timestamp data =? 0 then false
  else
    match md_type data with
    | TRADE =>
        negb ((trade_price data <=? 0)%float || (trade_quantity data =? 0))
    | QUOTE =>
        negb ((bid_price data <=? 0)%float || (ask_price data <=? 0)%float ||
              (ask_price data <=? bid_price data)%float)
    | ORDER_BOOK_UPDATE => negb (md_price data <=? 0)%float
    | TICK => true
    end.

Inductive DataSourceType := NASDAQ_ITCH | CRYPTO_EXCHANGE | SIMULATED | CUSTOM_FEED.

(** [MarketDataConfig]: the members that the processor reads. *)
Record MarketDataConfig := mkMarketDataConfig {
  source_type : DataSourceType;
  batch_size : Z;
  enable_validation : bool
}.

(** The default member initialisers. *)
Definition MarketDataConfig_default : MarketDataConfig :=
  mkMarketDataConfig SIMULATED 1000 true.

Record MarketDataStats := mkMarketDataStats {
  messages_received : Z;
  messages_processed : Z;
  messages_dropped : Z;
  validation_errors : Z;
  processing_errors : Z;
  stats_total_latency_ns : Z;
  stats_max_latency_ns : Z;
  stats_min_latency_ns : Z;
  messages_per_second : Z;
  bytes_per_second : Z
}.

(** The default member initialisers, and [MarketDataStats::reset]. *)
Definition MarketDataStats_new : MarketDataStats :=
  mkMarketDataStats 0 0 0 0 0 0 0 UINT64_MAX 0 0.

(** [SimulatedMarketDataSource]: the two flags of its lifecycle.  The
    streaming thread draws random data and is left out; nothing in the
    repository sets the callback it would give them to. *)
Record SimulatedMarketDataSource := mkSource {
  connected_ : bool;
  streaming_ : bool
}.

Definition SimulatedMarketDataSource_new : SimulatedMarketDataSource :=
  mkSource false false.

Definition source_connect (src : SimulatedMarketDataSource)
    : bool * SimulatedMarketDataSource :=
  (true, mkSource true (streaming_ src)).

Definition source_disconnect (src : SimulatedMarketDataSource)
    : SimulatedMarketDataSource :=
  mkSource false (streaming_ src).

Definition start_streaming (src : SimulatedMarketDataSource)
    : bool * SimulatedMarketDataSource :=
  if negb (connected_ src) || streaming_ src then (false, src)
  else (true, mkSource (connected_ src) true).

Definition stop_streaming (src : SimulatedMarketDataSource)
    : SimulatedMarketDataSource :=
  if negb (streaming_ src) then src else mkSource (connected_ src) false.

(** [MarketDataProcessor]; [data_source_] is null when it is [None]. *)
Record MarketDataProcessor := mkProcessor {
  config_ : MarketDataConfig;
  processor_running_ : bool;
  data_source_ : option SimulatedMarketDataSource;
  input_buffer_ : LockFreeRingBuffer MarketData;
  stats_ : MarketDataStats
}.

(** [MarketDataProcessor::MarketDataProcessor(config)]. *)
Definition MarketDataProcessor_new (config : MarketDataConfig) : MarketDataProcessor :=
  mkProcessor config false
    (match source_type config with
     | SIMULATED => Some SimulatedMarketDataSource_new
     | _ => None
     end)
    (LockFreeRingBuffer_new BUFFER_SIZE) MarketDataStats_new.

(** [MarketDataProcessor::start]. *)
Definition processor_start (p : MarketDataProcessor) : bool * MarketDataProcessor :=
  if processor_running_ p then (true, p)
  else
    match data_source_ p with
    | Some src =>
        let '(started, src') := start_streaming src in
        if negb started then (false, p)
        else (true, mkProcessor (config_ p) true (Some src') (input_buffer_ p) (stats_ p))
    | None =>
        (true, mkProcessor (config_ p) true None (input_buffer_ p) (stats_ p))
    end.

(** [MarketDataProcessor::stop]. *)
Definition processor_stop (p : MarketDataProcessor) : MarketDataProcessor :=
  if negb (processor_running_ p) then p
  else mkProcessor (config_ p) false (stop_streaming <$> data_source_ p)
                   (input_buffer_ p) (stats_ p).

(** [MarketDataProcessor::connect_data_source]. *)
Definition connect_data_source (p : MarketDataProcessor) : bool * MarketDataProcessor :=
  match data_source_ p with
  | None => (false, p)
  | Some src =>
      let '(r, src') := source_connect src in
      (r, mkProcessor (config_ p) (processor_running_ p) (Some src')
                      (input_buffer_ p) (stats_ p))
  end.

(** [MarketDataProcessor::disconnect_data_source]. *)
Definition disconnect_data_source (p : MarketDataProcessor) : MarketDataProcessor :=
  mkProcessor (config_ p) (processor_running_ p)
              (source_disconnect <$> data_source_ p) (input_buffer_ p) (stats_ p).

Definition set_stats (st : MarketDataStats) (p : MarketDataProcessor)
    : MarketDataProcessor :=
  mkProcessor (config_ p) (processor_running_ p) (data_source_ p) (input_buffer_ p) st.

Definition set_input_buffer (rb : LockFreeRingBuffer MarketData)
    (p : MarketDataProcessor) : MarketDataProcessor :=
  mkProcessor (config_ p) (processor_running_ p) (data_source_ p) rb (stats_ p).

(** [MarketDataProcessor::update_statistics]. *)
Definition update_statistics (latency_ns : Z) (p : MarketDataProcessor)
    : MarketDataProcessor :=
  let st := stats_ p in
  set_stats
    (mkMarketDataStats (messages_received st) (messages_processed st)
       (messages_dropped st) (validation_errors st) (processing_errors st)
       (u64 (stats_total_latency_ns st + latency_ns))
       (if stats_max_latency_ns st <? latency_ns then latency_ns
        else stats_max_latency_ns st)
       (if latency_ns <? stats_min_latency_ns st then latency_ns
        else stats_min_latency_ns st)
       (messages_per_second st) (bytes_per_second st))
    p.

Definition count_validation_error (p : MarketDataProcessor) : MarketDataProcessor :=
  let st := stats_ p in
  set_stats
    (mkMarketDataStats (messages_received st) (messages_processed st)
       (messages_dropped st) (u64 (validation_errors st + 1)) (processing_errors st)
       (stats_total_latency_ns st) (stats_max_latency_ns st) (stats_min_latency_ns st)
       (messages_per_second st) (bytes_per_second st))
    p.

Definition count_message_dropped (p : MarketDataProcessor) : MarketDataProcessor :=
  let st := stats_ p in
  set_stats
    (mkMarketDataStats (messages_received st) (messages_processed st)
       (u64 (messages_dropped st + 1)) (validation_errors st) (processing_errors st)
       (stats_total_latency_ns st) (stats_max_latency_ns st) (stats_min_latency_ns st)
       (messages_per_second st) (bytes_per_second st))
    p.

Definition count_message_processed (p : MarketDataProcessor) : MarketDataProcessor :=
  let st := stats_ p in
  set_stats
    (mkMarketDataStats (messages_received st) (u64 (messages_processed st + 1))
       (messages_dropped st) (validation_errors st) (processing_errors st)
       (stats_total_latency_ns st) (stats_max_latency_ns st) (stats_min_latency_ns st)
       (messages_per_second st) (bytes_per_second st))
    p.

(** [MarketDataProcessor::submit_market_data]; [latency] is the difference
    of the two readings of the clock. *)
Definition processor_submit_market_data (data : MarketData) (latency : Z)
    (p : MarketDataProcessor) : bool * MarketDataProcessor :=
  if negb (processor_running_ p) then (false, p)
  else if enable_validation (config_ p) && negb (validate_market_data data)
  then (false, count_validation_error p)
  else
    let '(pushed, rb) := try_push BUFFER_SIZE data (input_buffer_ p) in
    if negb pushed then (false, count_message_dropped p)
    else (true, update_statistics (u64 latency) (set_input_buffer rb p)).

(** [MarketDataProcessor::process_market_data_batch]: the data given to
    the callback, in the order of the calls, and the processor afterwards.
    The callback is taken to return without an exception.  The pass of
    the code begins with [batch.reserve(config_.batch_size)], which throws
    for a batch size above [max_size()] before anything is popped; the
    model lets such a pass run too, and it runs the passes of the
    processing threads one after the other: the data it hands over
    include all that the code hands over. *)
Definition processor_process_market_data_batch (p : MarketDataProcessor)
    : list MarketData * MarketDataProcessor :=
  let '(batch, rb) := pop_batch (Z.to_nat (batch_size (config_ p))) (input_buffer_ p) in
  (batch, foldl (fun p' _ => count_message_processed p') (set_input_buffer rb p) batch).

(** [MarketDataProcessor::update_config] and [reset_stats]. *)
Definition processor_update_config (config : MarketDataConfig)
    (p : MarketDataProcessor) : MarketDataProcessor :=
  mkProcessor config (processor_running_ p) (data_source_ p) (input_buffer_ p)
              (stats_ p).

Definition processor_reset_stats (p : MarketDataProcessor) : MarketDataProcessor :=
  set_stats MarketDataStats_new p.

(** The calls a user of a processor can make on it, and one pass of a
    processing thread. *)
Inductive ProcessorOp :=
  | PStart
  | PStop
  | PConnect
  | PDisconnect
  | PSubmit (data : MarketData) (latency : Z)
  | PPass
  | PUpdateConfig (config : MarketDataConfig)
  | PResetStats.

(** A step of a processor, with the data it gives to its callback. *)
Definition processor_step (op : ProcessorOp) (p : MarketDataProcessor)
    : list MarketData * MarketDataProcessor :=
  match op with
  | PStart => ([], (processor_start p).2)
  | PStop => ([], processor_stop p)
  | PConnect => ([], (connect_data_source p).2)
  | PDisconnect => ([], disconnect_data_source p)
  | PSubmit data latency => ([], (processor_submit_market_data data latency p).2)
  | PPass => processor_process_market_data_batch p
  | PUpdateConfig config => ([], processor_update_config config p)
  | PResetStats => ([], processor_reset_stats p)
  end.

Fixpoint processor_run (ops : list ProcessorOp) (p : MarketDataProcessor)
    : list MarketData * MarketDataProcessor :=
  match ops with
  | [] => ([], p)
  | op :: ops' =>
      let '(out, p1) := processor_step op p in
      let '(out', p2) := processor_run ops' p1 in
      (out ++ out', p2)
  end.

(** ** The engine with the processor it owns

    [OrderMatchingEngine::start] and [stop] with the calls they make on
    the [MarketDataProcessor] that the constructor of the engine creates;
    [tcp_ok] says whether the TCP server came up. *)
Definition engine_start_owned (tcp_ok : bool)
    (ep : OrderMatchingEngine * MarketDataProcessor)
    : bool * (OrderMatchingEngine * MarketDataProcessor) :=
  let '(e, p) := ep in
  if running_ e then (true, (e, p))
  else if negb tcp_ok then (false, (e, p))
  else
    let '(started, p') := processor_start p in
    if negb started then (false, (e, p'))
    else (true, (set_running true (shutdown_requested_ e) e, p')).

Definition engine_stop_owned (ep : OrderMatchingEngine * MarketDataProcessor)
    : OrderMatchingEngine * MarketDataProcessor :=
  let '(e, p) := ep in
  if running_ e then (set_running false false e, processor_stop p) else (e, p).

(** A step of the engine and its processor: [start] and [stop] reach the
    processor, every other operation of the engine leaves it alone. *)
Definition owned_step (op : EngineOp) (ep : OrderMatchingEngine * MarketDataProcessor)
    : option (OrderMatchingEngine * MarketDataProcessor) :=
  match op with
  | EStart tcp_ok _ => Some (engine_start_owned tcp_ok ep).2
  | EStop => Some (engine_stop_owned ep)
  | _ => e' ← engine_step op ep.1; Some (e', ep.2)
  end.

Fixpoint owned_run (ops : list EngineOp) (ep : OrderMatchingEngine * MarketDataProcessor)
    : option (OrderMatchingEngine * MarketDataProcessor) :=
  match ops with
  | [] => Some ep
  | op :: ops' => ep' ← owned_step op ep; owned_run ops' ep'
  end.

(** [OrderMatchingEngine::OrderMatchingEngine]: the engine and the
    processor it makes with [std::make_unique<MarketDataProcessor>()]. *)
Definition OrderMatchingEngine_owned : OrderMatchingEngine * MarketDataProcessor :=
  (OrderMatchingEngine_new, MarketDataProcessor_new MarketDataConfig_default).

(** * Vocabulary of the statements

    Predicates on orders, ladders, books and engines, and the concrete
    states and runs that the statements below refer to. *)

(** A double that is not a NaN. *)
Definition is_number (x : float) : bool := PrimFloat.eqb x x.

(** The fields of a well-typed [Order] that the matching loop computes with
    hold values of [uint64_t]. *)
Definition typed_order (o : Order) : Prop :=
  0 <= quantity o < 2 ^ 64 /\ 0 <= filled_quantity o < 2 ^ 64.

(** [h'] holds every object of [h], each related to its old value by [R]. *)
Definition heap_rel (R : Order -> Order -> Prop) (h h' : gmap ptr Order) : Prop :=
  forall p o, h !! p = Some o -> exists o', h' !! p = Some o' /\ R o o'.

(** Nothing but [filled_quantity] differs. *)
Definition filled_only (o o' : Order) : Prop :=
  o' = set_filled_quantity (filled_quantity o') o.

Definition same_side (o o' : Order) : Prop := side o' = side o.

Definition side_of (h : gmap ptr Order) (sd : OrderSide) (p : ptr) : Prop :=
  exists o, h !! p = Some o /\ side o = sd.

Definition ladder_all (P : ptr -> Prop) (l : Ladder) : Prop :=
  Forall (fun kv => Forall P kv.2) l.

Definition typed_heap (h : gmap ptr Order) : Prop :=
  forall p o, h !! p = Some o -> typed_order o.

(** The bid ladder points to live BUY orders and the ask ladder to live SELL
    orders, all of them well typed. *)
Definition well_formed (s : State) : Prop :=
  typed_heap (heap s) /\
  ladder_all (side_of (heap s) BUY) (bids_ (book s)) /\
  ladder_all (side_of (heap s) SELL) (asks_ (book s)).

(** Iteration order follows [comp]. *)
Fixpoint sorted {K V : Type} (comp : K -> K -> bool) (m : list (K * V)) : Prop :=
  match m with
  | [] => True
  | kv :: m' => Forall (fun kv' => comp kv.1 kv'.1 = true) m' /\ sorted comp m'
  end.

Definition no_empty_level (l : Ladder) : Prop := Forall (fun kv => kv.2 <> []) l.

(** "best_bid < best_ask (or either side empty)". *)
Definition uncrossed (b : OrderBook) : Prop :=
  bids_ b = [] \/ asks_ b = [] \/ (get_best_bid b <? get_best_ask b)%float = true.

(** Every bid level lies below every ask level. *)
Definition separated (bids asks : Ladder) : Prop :=
  forall kvb kva, kvb ∈ bids -> kva ∈ asks -> (kvb.1 <? kva.1)%float = true.

(** A bid level and an ask level one of which is empty do not cross. *)
Definition quiet (bids asks : Ladder) : Prop :=
  forall kvb kva, kvb ∈ bids -> kva ∈ asks ->
    kvb.2 = [] \/ kva.2 = [] -> (kvb.1 <? kva.1)%float = true.

(** What holds of the ladders while [match_orders] runs. *)
Definition ordered (b : OrderBook) : Prop :=
  sorted gtb (bids_ b) /\ sorted PrimFloat.ltb (asks_ b) /\
  quiet (bids_ b) (asks_ b).

(** What holds of the ladders between two public operations. *)
Definition settled (b : OrderBook) : Prop :=
  sorted gtb (bids_ b) /\ sorted PrimFloat.ltb (asks_ b) /\
  no_empty_level (bids_ b) /\ no_empty_level (asks_ b) /\ uncrossed b.

Definition sub_keys (m' m : Ladder) : Prop :=
  forall kv, kv ∈ m' -> kv.1 ∈ m.*1.

Definition no_empty_levels (b : OrderBook) : Prop :=
  no_empty_level (bids_ b) /\ no_empty_level (asks_ b).

(** When [add_order] refuses an order. *)
Definition refused (order : ptr) (s : State) : Prop :=
  match heap s !! order with
  | None => True
  | Some o =>
      symbol o <> symbol_ (book s) \/
      is_Some (orders_by_id_ (book s) !! order_id o)
  end.

(** The invariant of the book between two public operations. *)
Definition book_inv (s : State) : Prop := well_formed s /\ settled (book s).

(** The state of [modify_order] when the order has been taken out of its
    level, updated and put into the level of its new price, and matching
    begins. *)
Definition modify_order_entered (now : time_point) (id : Z) (new_quantity : Z)
    (new_price : float) (order : ptr) (s : State) : State :=
  let o := deref (heap s) order in
  let s1 := remove_from_level o id s in
  let o' := set_quantity_price_timestamp new_quantity new_price now o in
  add_to_level o' order (set_heap (<[order := o']> (heap s1)) s1).

(** [price * quantity] as [record_trade] computes it for a trade. *)
Definition notional (t : MarketData) : float :=
  (trade_price t * double_of_u64 (trade_quantity t))%float.

(** The sum that [total_volume_ += price * quantity] accumulates over the
    trades in the order in which they were recorded, starting from 0.0. *)
Definition volume_of (trades : list MarketData) : float :=
  foldl (fun acc t => (acc + notional t)%float) 0%float trades.

(** The books agree with the history of [record_trade]: the volume is the
    sum over all trades, the bounded history holds the latest of them. *)
Definition accounted (s : State) : Prop :=
  total_volume_ (book s) = volume_of (trace s) /\
  recent_trades_ (book s)
  = drop (length (trace s) - Z.to_nat MAX_TRADES_HISTORY) (trace s).

(** [k] and [k'] are equivalent keys of a map ordered by [comp]. *)
Definition key_match (comp : float -> float -> bool) (k k' : float) : Prop :=
  comp k k' = false /\ comp k' k = false.

(** A pointer found in the level of key [k] of the ladder of side [sd]:
    it points to an order of that side whose id the id map sends back to
    the pointer and whose price is the key of the level. *)
Definition indexed (h : gmap ptr Order) (ids : gmap Z ptr) (sd : OrderSide)
    (comp : float -> float -> bool) (k : float) (p : ptr) : Prop :=
  exists o, h !! p = Some o /\ side o = sd /\ ids !! order_id o = Some p /\
            key_match comp (price o) k.

Definition level_indexed (h : gmap ptr Order) (ids : gmap Z ptr) (sd : OrderSide)
    (comp : float -> float -> bool) (kv : float * list ptr) : Prop :=
  is_number kv.1 = true /\ NoDup kv.2 /\ Forall (indexed h ids sd comp kv.1) kv.2.

Definition ladder_indexed (h : gmap ptr Order) (ids : gmap Z ptr) (sd : OrderSide)
    (comp : float -> float -> bool) (l : Ladder) : Prop :=
  Forall (level_indexed h ids sd comp) l.

(** No price is a NaN. *)
Definition numeric_heap (h : gmap ptr Order) : Prop :=
  forall p o, h !! p = Some o -> is_number (price o) = true.

(** The id map sends an id to an order of that id. *)
Definition ids_name_orders (h : gmap ptr Order) (ids : gmap Z ptr) : Prop :=
  forall id p, ids !! id = Some p -> exists o, h !! p = Some o /\ order_id o = id.

(** Every order in a level is in the id map, at the level of its price and
    on its side, and it is there once. *)
Definition index_inv (s : State) : Prop :=
  numeric_heap (heap s) /\
  ids_name_orders (heap s) (orders_by_id_ (book s)) /\
  ladder_indexed (heap s) (orders_by_id_ (book s)) BUY gtb (bids_ (book s)) /\
  ladder_indexed (heap s) (orders_by_id_ (book s)) SELL PrimFloat.ltb (asks_ (book s)).

(** The fields by which the book finds an order. *)
Definition key_fields (o o' : Order) : Prop :=
  side o' = side o /\ price o' = price o /\ order_id o' = order_id o.

(** The pointers of a ladder. *)
Definition ladder_ptrs (l : Ladder) : list ptr := mjoin l.*2.

(** The state of [add_order] when the order has been stored and counted and
    matching begins. *)
Definition add_order_entered (o : Order) (order : ptr) (s : State) : State :=
  upd_book (fun b => set_total_orders (u64 (total_orders_ b + 1)) b)
    (add_to_level o order
       (upd_book (fun b =>
          set_orders_by_id (<[order_id o := order]> (orders_by_id_ b)) b) s)).

(** The prices an operation brings are numbers. *)
Definition numeric_op (op : Op) : bool :=
  match op with
  | OpNew _ o => is_number (price o)
  | OpModify _ _ _ prc => is_number prc
  | _ => true
  end.

(** S1: BUY 100 @ 150.00 (id 1), then SELL 100 @ 149.00 (id 2). *)
Definition S1_buy : Order := Order_new 1 1 7 "AAPL" BUY LIMIT 100 150%float.
Definition S1_sell : Order := Order_new 3 2 8 "AAPL" SELL LIMIT 100 149%float.
Definition S1_ops : list Op :=
  [OpNew 1%N S1_buy; OpAdd 2 1%N; OpNew 2%N S1_sell; OpAdd 4 2%N].

(** The state of S1 inside the second [add_order], when the loop of
    [match_orders] is entered. *)
Definition S1_crossed : State :=
  mkState (<[2%N := S1_sell]> (<[1%N := S1_buy]> ∅))
          (mkOrderBook "AAPL" [(150%float, [1%N])] [(149%float, [2%N])]
                       (<[2 := 2%N]> (<[1 := 1%N]> ∅)) [] 2 0 0%float)
          [].

(** A MARKET BUY of 50 (price field 0.0) submitted to an empty book. *)
Definition market_buy : Order := Order_new 1 1 7 "AAPL" BUY MARKET 50 0%float.
Definition market_on_empty : State :=
  set_heap (<[1%N := market_buy]> ∅) (State_new "AAPL").

(** A LIMIT BUY of quantity 0 and a LIMIT BUY at price -1.0. *)
Definition zero_quantity_buy : Order := Order_new 1 1 7 "AAPL" BUY LIMIT 0 150%float.
Definition negative_price_buy : Order := Order_new 1 2 7 "AAPL" BUY LIMIT 10 (-1)%float.
Definition malformed_orders : State :=
  set_heap (<[2%N := negative_price_buy]> (<[1%N := zero_quantity_buy]> ∅))
           (State_new "AAPL").

(** An order constructed at time 5 and submitted at time 9. *)
Definition early_order : Order := Order_new 5 1 7 "AAPL" BUY LIMIT 100 150%float.
Definition early_state : State :=
  set_heap (<[1%N := early_order]> ∅) (State_new "AAPL").

(** The double nearest to 0.1; BUY 3 @ 0.1 (id 1), then SELL 3 @ 0.1
    (id 2): one trade of 3 at 0.1. *)
Definition tenth : float := 0x1.999999999999ap-4%float.
Definition tenth_ops : list Op :=
  [OpNew 1%N (Order_new 1 1 7 "AAPL" BUY LIMIT 3 tenth); OpAdd 2 1%N;
   OpNew 2%N (Order_new 3 2 8 "AAPL" SELL LIMIT 3 tenth); OpAdd 4 2%N].

(** BUY 2^53 + 1 @ 1.0 (id 1), then SELL 2^53 + 1 @ 1.0 (id 2). *)
Definition huge_ops : list Op :=
  [OpNew 1%N (Order_new 1 1 7 "AAPL" BUY LIMIT (2 ^ 53 + 1) 1%float); OpAdd 2 1%N;
   OpNew 2%N (Order_new 3 2 8 "AAPL" SELL LIMIT (2 ^ 53 + 1) 1%float); OpAdd 4 2%N].

(** The value of a finite double in units of 2^-1074, of which every finite
    double is a whole multiple. *)
Definition scaled (x : float) : option Z :=
  match Prim2SF x with
  | S754_zero _ => Some 0
  | S754_finite sign m e =>
      Some ((if sign then -1 else 1) * Z.pos m * 2 ^ (e + 1074))
  | S754_infinity _ | S754_nan => None
  end.

(** The sum of [trade_price * trade_quantity] over the trades, in the same
    units and without rounding. *)
Definition exact_volume (trades : list MarketData) : option Z :=
  foldr (fun t acc => p ← scaled (trade_price t); a ← acc;
                      Some (p * trade_quantity t + a)) (Some 0) trades.

(** BUY 10 @ 100.0 (id 1), BUY 10 @ NaN (id 2), BUY 10 @ 101.0 (id 3). *)
Definition NaN_between : list Op :=
  [OpNew 1%N (Order_new 1 1 7 "AAPL" BUY LIMIT 10 100%float); OpAdd 2 1%N;
   OpNew 2%N (Order_new 3 2 7 "AAPL" BUY LIMIT 10 nan); OpAdd 4 2%N;
   OpNew 3%N (Order_new 5 3 7 "AAPL" BUY LIMIT 10 101%float); OpAdd 6 3%N].

(** SELL 25 @ 100.0 (id 4). *)
Definition sell_after_cancel : list Op :=
  [OpNew 4%N (Order_new 7 4 8 "AAPL" SELL LIMIT 25 100%float); OpAdd 8 4%N].


(** Every book of the manager satisfies the invariant of a book over the
    orders of the engine. *)
Definition engine_inv (e : OrderMatchingEngine) : Prop :=
  typed_heap (orders e) /\
  forall sym b, order_book_manager_ e !! sym = Some b ->
    book_inv (mkState (orders e) b []).

(** The trade counter, the rate derived from it and the static that
    remembers it are all 0. *)
Definition no_trades_counted (e : OrderMatchingEngine) : Prop :=
  trades_executed (metrics_ e) = 0 /\ trades_per_second (metrics_ e) = 0 /\
  last_trades e = 0.

(** The step leaves the three of them as they are. *)
Definition same_trades (e e' : OrderMatchingEngine) : Prop :=
  trades_executed (metrics_ e') = trades_executed (metrics_ e) /\
  trades_per_second (metrics_ e') = trades_per_second (metrics_ e) /\
  last_trades e' = last_trades e.

(** The indices are in range and the array has [Size] slots. *)
Definition ring_inv {T : Type} (Size : Z) (rb : LockFreeRingBuffer T) : Prop :=
  0 <= head_ rb < Size /\ 0 <= tail_ rb < Size /\
  length (buffer_ rb) = Z.to_nat Size.

(** The items a consumer has still to pop: the slots from [head_] up to
    [tail_], oldest first. *)
Definition ring_items {T : Type} `{Inhabited T} (Size : Z)
    (rb : LockFreeRingBuffer T) : list T :=
  (fun i => buffer_ rb !!! Z.to_nat ((head_ rb + Z.of_nat i) mod Size))
    <$> seq 0 (Z.to_nat ((tail_ rb - head_ rb) mod Size)).

(** The pair that the level 2 queries emit for one level. *)
Definition level_total (h : gmap ptr Order) (kv : float * list ptr) : float * Z :=
  (kv.1, level_quantity h kv.2).

(** What [record_trade] writes and no other part of a book operation
    does. *)
Definition ledger (s : State)
    : string * list MarketData * list MarketData * Z * float :=
  (symbol_ (book s), trace s, recent_trades_ (book s), total_trades_ (book s),
   total_volume_ (book s)).

(** The trades carry the numbers 1, 2, 3, ... in the order of recording,
    the type TRADE and the symbol of the book. *)
Definition numbered (s : State) : Prop :=
  total_trades_ (book s) = u64 (Z.of_nat (length (trace s))) /\
  forall i t, trace s !! i = Some t ->
    trade_id t = u64 (Z.of_nat i + 1) /\ md_type t = TRADE /\
    md_symbol t = symbol_ (book s).

(** [total_orders_] is the number of entries of the id map. *)
Definition counted (s : State) : Prop :=
  total_orders_ (book s) = u64 (Z.of_nat (size (orders_by_id_ (book s)))).

(** Every order of the id map is in a level of a ladder. *)
Definition rests (s : State) : Prop :=
  forall id p, orders_by_id_ (book s) !! id = Some p ->
    p ∈ ladder_ptrs (bids_ (book s)) \/ p ∈ ladder_ptrs (asks_ (book s)).

Definition census (s : State) : Prop := index_inv s /\ counted s /\ rests s.

(** The scenario of the witnesses: one BUY order rests at 150.00. *)
Definition one_resting_buy : list Op :=
  [OpNew 1%N (Order_new 5 1 7 "AAPL" BUY LIMIT 100 150%float); OpAdd 9 1%N].

(** A level whose orders are in the order of their timestamps, earliest
    first. *)
Fixpoint by_time (h : gmap ptr Order) (l : list ptr) : Prop :=
  match l with
  | [] => True
  | p :: l' =>
      Forall (fun q => timestamp (deref h p) <= timestamp (deref h q)) l' /\
      by_time h l'
  end.

Definition ladder_by_time (h : gmap ptr Order) (l : Ladder) : Prop :=
  Forall (fun kv => by_time h kv.2) l.

Definition timed (s : State) : Prop :=
  index_inv s /\
  ladder_by_time (heap s) (bids_ (book s)) /\
  ladder_by_time (heap s) (asks_ (book s)).

(** Two BUY orders at one price, the later constructed one submitted
    first. *)
Definition late_first : list Op :=
  [OpNew 1%N (Order_new 5 1 7 "AAPL" BUY LIMIT 100 150%float);
   OpNew 2%N (Order_new 6 2 7 "AAPL" BUY LIMIT 100 150%float);
   OpAdd 7 2%N; OpAdd 8 1%N].

(** No order is filled beyond its quantity. *)
Definition no_overfill (s : State) : Prop :=
  forall p o, heap s !! p = Some o -> 0 <= filled_quantity o <= quantity o.

(** The operations of a run in which orders are constructed with
    [filled_quantity <= quantity] (the constructors of [Order] set it to 0)
    and the quantity of an order is not modified afterwards. *)
Definition fills_from_matching (op : Op) : bool :=
  match op with
  | OpNew _ o => (0 <=? filled_quantity o) && (filled_quantity o <=? quantity o)
  | OpModify _ _ _ _ => false
  | _ => true
  end.

(** A BUY of 100 and a SELL of 40 at crossing prices. *)
Definition partial_fill : list Op :=
  [OpNew 1%N (Order_new 1 1 7 "AAPL" BUY LIMIT 100 150%float); OpAdd 2 1%N;
   OpNew 2%N (Order_new 3 2 8 "AAPL" SELL LIMIT 40 149%float); OpAdd 4 2%N].

(** The orders that were submitted and not yet handed to a book, oldest
    first. *)
Definition pending_orders (e : OrderMatchingEngine) : list ptr :=
  ring_items BUFFER_SIZE (order_buffer_ e).

Definition pending_market_data (e : OrderMatchingEngine) : list MarketData :=
  ring_items BUFFER_SIZE (market_data_buffer_ e).

(** The indices of the two buffers are in range, every book is stored
    under its own symbol, and every pending pointer is a live order. *)
Definition engine_shape (e : OrderMatchingEngine) : Prop :=
  ring_inv BUFFER_SIZE (order_buffer_ e) /\
  ring_inv BUFFER_SIZE (market_data_buffer_ e) /\
  (forall sym b, order_book_manager_ e !! sym = Some b -> symbol_ b = sym) /\
  (forall p, p ∈ pending_orders e -> is_Some (orders e !! p)).

(** The parts of the engine that a call into a book leaves alone. *)
Definition same_queues (e e' : OrderMatchingEngine) : Prop :=
  order_buffer_ e' = order_buffer_ e /\
  market_data_buffer_ e' = market_data_buffer_ e /\
  running_ e' = running_ e.

(** The calls of [update_performance_metrics] for a sequence of
    latencies, in order. *)
Definition record_latencies (ls : list Z) (e : OrderMatchingEngine)
    : OrderMatchingEngine :=
  foldl (fun e' l => update_performance_metrics l e') e ls.

(** The calls of [increment] for a sequence of values, in order. *)
Definition increments (vs : list Z) (c : PerformanceCounter) : PerformanceCounter :=
  foldl (fun c' v => increment v c') c vs.

(** The public members of a counter are as its constructor left them. *)
Definition public_untouched (c : PerformanceCounter) : Prop :=
  value c = 0 /\ count c = 0 /\ min_value c = UINT64_MAX /\ max_value c = 0.

(** The calls of [add_latency] for a sequence of latencies, in order. *)
Definition add_latencies (ls : list Z) (h : LatencyHistogram) : LatencyHistogram :=
  foldl (fun h' l => add_latency l h') h ls.

(** The bucket of a latency: its number of whole microseconds, the last
    bucket taking all that is beyond. *)
Definition bucket_of (n : Z) (latency_ns : Z) : Z :=
  Z.min (latency_ns / 1000) (n - 1).

(** A histogram as its constructors and [add_latency] leave it. *)
Definition histogram_ok (n : Z) (h : LatencyHistogram) : Prop :=
  num_buckets_ h = n /\ length (buckets_ h) = Z.to_nat n /\
  bucket_size_ns_ h = 1000 /\ Forall (fun b => 0 <= b < 2 ^ 64) (buckets_ h).

(** [b] has the better price of the two for the side [sd]. *)
Definition better_price (sd : OrderSide) (a b : Order) : bool :=
  match sd with
  | BUY => (price a <? price b)%float
  | SELL => (price b <? price a)%float
  end.

(** What every state of an engine that has its own processor looks like. *)
Definition idle (ep : OrderMatchingEngine * MarketDataProcessor) : Prop :=
  running_ ep.1 = false /\
  order_book_manager_ ep.1 = ∅ /\
  head_ (order_buffer_ ep.1) = tail_ (order_buffer_ ep.1) /\
  head_ (market_data_buffer_ ep.1) = tail_ (market_data_buffer_ ep.1) /\
  ep.2 = MarketDataProcessor_new MarketDataConfig_default.

Definition valid (data : MarketData) : Prop := validate_market_data data = true.

(** The operations that leave the validation of incoming data switched on. *)
Definition validating (op : ProcessorOp) : bool :=
  match op with
  | PUpdateConfig config => enable_validation config
  | _ => true
  end.

Definition pending (p : MarketDataProcessor) : list MarketData :=
  ring_items BUFFER_SIZE (input_buffer_ p).

(** Validation is on, and the queue is well formed and holds valid data. *)
Definition screened (p : MarketDataProcessor) : Prop :=
  enable_validation (config_ p) = true /\
  ring_inv BUFFER_SIZE (input_buffer_ p) /\
  Forall valid (pending p).

Definition sample_tick : MarketData :=
  mkMarketData 1 "AAPL" TICK 5 150%float 100 0 0%float 0 0%float 0 0%float 0 false.

(** A trade without a price: [validate_market_data] refuses it. *)
Definition unpriced_trade : MarketData :=
  mkMarketData 2 "AAPL" TRADE 6 0%float 100 1 0%float 0 0%float 0 0%float 0 false.

Definition feed : list ProcessorOp :=
  [PConnect; PStart; PSubmit unpriced_trade 3; PSubmit sample_tick 4; PPass].

(** * Properties of the embedding *)

(** ** Doubles *)

Lemma SFltb_trans (a b c : spec_float) :
  SFltb a b = true -> SFltb b c = true -> SFltb a c = true.
Proof.
  unfold SFltb, SFcompare.
  destruct a as [sa|sa| |sa ma ea], b as [sb|sb| |sb mb eb], c as [sc|sc| |sc mc ec];
    try discriminate; try reflexivity;
    repeat match goal with s : bool |- _ => destruct s end;
    try discriminate; try reflexivity;
    change (PosDef.Pos.compare_cont Eq) with Pos.compare;
    destruct (Z.compare_spec ea eb), (Z.compare_spec eb ec), (Z.compare_spec ea ec);
    try discriminate; try reflexivity; try lia; subst;
    destruct (Pos.compare_spec ma mb), (Pos.compare_spec mb mc), (Pos.compare_spec ma mc);
    simpl; try discriminate; try reflexivity; try lia.
Qed.

Lemma ltb_trans (a b c : float) :
  PrimFloat.ltb a b = true -> PrimFloat.ltb b c = true -> PrimFloat.ltb a c = true.
Proof. rewrite !ltb_spec. apply SFltb_trans. Qed.

Lemma gtb_trans (a b c : float) :
  gtb a b = true -> gtb b c = true -> gtb a c = true.
Proof. unfold gtb. intros H1 H2. exact (ltb_trans _ _ _ H2 H1). Qed.

Lemma SFltb_irrefl (a : spec_float) : SFltb a a = false.
Proof.
  unfold SFltb, SFcompare.
  destruct a as [s|s| |s m e]; try destruct s; try reflexivity;
    rewrite Z.compare_refl; change (PosDef.Pos.compare_cont Eq) with Pos.compare;
    rewrite Pos.compare_refl; reflexivity.
Qed.

(** Two numbers neither of which is below the other compare equal. *)
Lemma SFcompare_Eq (a b : spec_float) :
  SFeqb a a = true -> SFeqb b b = true ->
  SFltb a b = false -> SFltb b a = false -> SFcompare a b = Some Eq.
Proof.
  unfold SFltb, SFeqb, SFcompare.
  destruct a as [sa|sa| |sa ma ea], b as [sb|sb| |sb mb eb];
    try discriminate; try reflexivity;
    repeat match goal with s : bool |- _ => destruct s end;
    try discriminate; try reflexivity;
    change (PosDef.Pos.compare_cont Eq) with Pos.compare;
    rewrite (Z.compare_antisym ea eb), (Pos.compare_antisym ma mb);
    destruct (ea ?= eb)%Z; simpl; try discriminate; try reflexivity;
    destruct (ma ?= mb)%positive; simpl; try discriminate; try reflexivity.
Qed.

Lemma SFcompare_Eq_ltb_l (a b c : spec_float) :
  SFcompare a b = Some Eq -> SFltb a c = SFltb b c.
Proof.
  unfold SFltb, SFcompare.
  destruct a as [sa|sa| |sa ma ea], b as [sb|sb| |sb mb eb], c as [sc|sc| |sc mc ec];
    try discriminate; try reflexivity;
    repeat match goal with s : bool |- _ => destruct s end;
    try discriminate; try reflexivity;
    change (PosDef.Pos.compare_cont Eq) with Pos.compare;
    destruct (Z.compare_spec ea eb); try discriminate; subst;
    destruct (Pos.compare_spec ma mb); try discriminate; subst; intros _; reflexivity.
Qed.

Lemma SFcompare_Eq_ltb_r (a b c : spec_float) :
  SFcompare a b = Some Eq -> SFltb c a = SFltb c b.
Proof.
  unfold SFltb, SFcompare.
  destruct a as [sa|sa| |sa ma ea], b as [sb|sb| |sb mb eb], c as [sc|sc| |sc mc ec];
    try discriminate; try reflexivity;
    repeat match goal with s : bool |- _ => destruct s end;
    try discriminate; try reflexivity;
    change (PosDef.Pos.compare_cont Eq) with Pos.compare;
    destruct (Z.compare_spec ea eb); try discriminate; subst;
    destruct (Pos.compare_spec ma mb); try discriminate; subst; intros _; reflexivity.
Qed.

Lemma ltb_irrefl (a : float) : PrimFloat.ltb a a = false.
Proof. rewrite ltb_spec. apply SFltb_irrefl. Qed.

Lemma gtb_irrefl (a : float) : gtb a a = false.
Proof. apply ltb_irrefl. Qed.

(** Numbers that are equivalent keys of a [std::less] map are below the
    same keys, and numbers that are equivalent keys of a [std::greater]
    map are above the same keys. *)
Lemma ltb_equiv_l (a b c : float) :
  is_number a = true -> is_number b = true ->
  PrimFloat.ltb a b = false -> PrimFloat.ltb b a = false ->
  PrimFloat.ltb b c = true -> PrimFloat.ltb a c = true.
Proof.
  unfold is_number. rewrite !FloatAxioms.eqb_spec, !FloatAxioms.ltb_spec. intros Ha Hb Hab Hba Hbc.
  by rewrite (SFcompare_Eq_ltb_l _ _ _ (SFcompare_Eq _ _ Ha Hb Hab Hba)).
Qed.

Lemma gtb_equiv_l (a b c : float) :
  is_number a = true -> is_number b = true ->
  gtb a b = false -> gtb b a = false -> gtb b c = true -> gtb a c = true.
Proof.
  unfold gtb, is_number. rewrite !FloatAxioms.eqb_spec, !FloatAxioms.ltb_spec. intros Ha Hb Hab Hba Hbc.
  by rewrite (SFcompare_Eq_ltb_r _ _ _ (SFcompare_Eq _ _ Ha Hb Hba Hab)).
Qed.

(** ** Machine integers *)

Lemma u64_range (z : Z) : 0 <= u64 z < 2 ^ 64.
Proof. unfold u64. apply Z.mod_pos_bound. lia. Qed.

Lemma u64_small (z : Z) : 0 <= z < 2 ^ 64 -> u64 z = z.
Proof. unfold u64. intros. apply Z.mod_small. lia. Qed.

(** Adding what remains of an order to what is filled reaches its quantity. *)
Lemma u64_fill_remaining (q f : Z) : u64 (f + u64 (q - f)) = u64 q.
Proof.
  unfold u64. rewrite Zplus_mod_idemp_r. f_equal. lia.
Qed.

(** ** Orders behind pointers *)

Lemma set_filled_quantity_id (o : Order) :
  set_filled_quantity (filled_quantity o) o = o.
Proof. by destruct o. Qed.

Lemma filled_only_refl (o : Order) : filled_only o o.
Proof. unfold filled_only. by rewrite set_filled_quantity_id. Qed.

Lemma filled_only_trans (a b c : Order) :
  filled_only a b -> filled_only b c -> filled_only a c.
Proof. unfold filled_only. intros -> ->. by destruct a. Qed.

Lemma filled_only_set (f : Z) (o : Order) : filled_only o (set_filled_quantity f o).
Proof. by destruct o. Qed.

Lemma heap_rel_refl (R : Order -> Order -> Prop) (h : gmap ptr Order) :
  (forall o, R o o) -> heap_rel R h h.
Proof. intros HR p o Hp. eauto. Qed.

Lemma heap_rel_trans (R : Order -> Order -> Prop) (h1 h2 h3 : gmap ptr Order) :
  (forall a b c, R a b -> R b c -> R a c) ->
  heap_rel R h1 h2 -> heap_rel R h2 h3 -> heap_rel R h1 h3.
Proof.
  intros HR H12 H23 p o Hp.
  destruct (H12 p o Hp) as (o2 & Hp2 & R2).
  destruct (H23 p o2 Hp2) as (o3 & Hp3 & R3). eauto.
Qed.

Lemma heap_rel_weaken (R R' : Order -> Order -> Prop) (h h' : gmap ptr Order) :
  (forall a b, R a b -> R' a b) -> heap_rel R h h' -> heap_rel R' h h'.
Proof. intros HR H p o Hp. destruct (H p o Hp) as (o' & ? & ?). eauto. Qed.

Lemma deref_Some (h : gmap ptr Order) (p : ptr) (o : Order) :
  h !! p = Some o -> deref h p = o.
Proof. apply lookup_total_correct. Qed.

Lemma heap_rel_fill (p : ptr) (qty : Z) (h : gmap ptr Order) :
  heap_rel filled_only h (fill p qty h).
Proof.
  intros q o Hq. unfold fill. destruct (decide (p = q)) as [->|Hne].
  - rewrite lookup_insert_eq, (deref_Some _ _ _ Hq).
    eexists; split; [done|apply filled_only_set].
  - rewrite lookup_insert_ne by done. eexists; split; [done|apply filled_only_refl].
Qed.

Lemma deref_fill_eq (p : ptr) (qty : Z) (h : gmap ptr Order) :
  deref (fill p qty h) p
  = set_filled_quantity (u64 (filled_quantity (deref h p) + qty)) (deref h p).
Proof. unfold fill, deref. by rewrite lookup_total_insert_eq. Qed.

Lemma deref_fill_ne (p q : ptr) (qty : Z) (h : gmap ptr Order) :
  p <> q -> deref (fill p qty h) q = deref h q.
Proof. intros. unfold fill, deref. by rewrite lookup_total_insert_ne. Qed.

(** ** One pass of the matching loop *)

(** What a pass of the loop that reaches the end of its body has done. *)
Lemma match_step_Some (now : time_point) (s s' : State) :
  match_step now s = Some s' ->
  exists bb buy rb bids' ba sell ra asks',
    bids_ (book s) = (bb, buy :: rb) :: bids' /\
    asks_ (book s) = (ba, sell :: ra) :: asks' /\
    (bb <? ba)%float = false /\
    let mq := Z.min (remaining_quantity (deref (heap s) buy))
                    (remaining_quantity (deref (heap s) sell)) in
    let h2 := fill sell mq (fill buy mq (heap s)) in
    let prc := ((bb + ba) / 2)%float in
    heap s' = h2 /\
    bids_ (book s') = relink bb (if is_filled (deref h2 buy) then rb else buy :: rb) bids' /\
    asks_ (book s') = relink ba (if is_filled (deref h2 sell) then ra else sell :: ra) asks' /\
    trace s' = trace s ++ [MarketData_trade (symbol_ (book s)) now prc mq
                             (u64 (total_trades_ (book s) + 1))] /\
    total_volume_ (book s') = (total_volume_ (book s) + prc * double_of_u64 mq)%float /\
    total_trades_ (book s') = u64 (total_trades_ (book s) + 1) /\
    symbol_ (book s') = symbol_ (book s) /\
    orders_by_id_ (book s') =
      (if is_filled (deref h2 sell) then delete (order_id (deref h2 sell)) else id)
        ((if is_filled (deref h2 buy) then delete (order_id (deref h2 buy)) else id)
           (orders_by_id_ (book s))).
Proof.
  unfold match_step. intros H.
  destruct (bids_ (book s)) as [|[bb [|buy rb]] bids'] eqn:Eb; try discriminate;
    destruct (asks_ (book s)) as [|[ba [|sell ra]] asks'] eqn:Ea; try discriminate;
    destruct (bb <? ba)%float eqn:Ecmp; try discriminate.
  exists bb, buy, rb, bids', ba, sell, ra, asks'.
  do 3 (split; [done|]).
  cbv zeta.
  unfold unlink_if_filled in H. cbn [record_trade heap book trace] in H.
  destruct (is_filled (deref _ buy)), (is_filled (deref _ sell));
    injection H as <-; cbn; repeat split; reflexivity.
Qed.

(** When the loop is left. *)
Lemma match_step_None (now : time_point) (s : State) :
  match_step now s = None ->
  bids_ (book s) = [] \/ asks_ (book s) = [] \/
  exists bb lb bids' ba la asks',
    bids_ (book s) = (bb, lb) :: bids' /\ asks_ (book s) = (ba, la) :: asks' /\
    ((bb <? ba)%float = true \/ lb = [] \/ la = []).
Proof.
  unfold match_step. intros H.
  destruct (bids_ (book s)) as [|[bb lb] bids'] eqn:Eb; [by left|].
  destruct (asks_ (book s)) as [|[ba la] asks'] eqn:Ea; [by right; left|].
  right; right. exists bb, lb, bids', ba, la, asks'.
  split; [done|]. split; [done|].
  destruct (bb <? ba)%float; [by left|right].
  destruct lb as [|buy rb]; [by left|]. destruct la as [|sell ra]; [by right|].
  unfold unlink_if_filled in H.
  destruct (is_filled _), (is_filled _); discriminate.
Qed.

Lemma match_step_heap (now : time_point) (s s' : State) :
  match_step now s = Some s' -> heap_rel filled_only (heap s) (heap s').
Proof.
  intros H. apply match_step_Some in H
    as (bb & buy & rb & bids' & ba & sell & ra & asks' & _ & _ & _ & H).
  cbv zeta in H. destruct H as (-> & _).
  eapply heap_rel_trans; [apply filled_only_trans|apply heap_rel_fill..].
Qed.

(** ** Well-formed states and termination of the matching loop *)

Lemma filled_only_same_side (o o' : Order) : filled_only o o' -> same_side o o'.
Proof. unfold filled_only, same_side. by intros ->. Qed.

Lemma side_of_mono (h h' : gmap ptr Order) (sd : OrderSide) (p : ptr) :
  heap_rel same_side h h' -> side_of h sd p -> side_of h' sd p.
Proof.
  intros Hrel (o & Hp & Hs). destruct (Hrel p o Hp) as (o' & Hp' & Hs').
  exists o'. split; [done|]. unfold same_side in Hs'. congruence.
Qed.

Lemma ladder_all_impl (P Q : ptr -> Prop) (l : Ladder) :
  (forall p, P p -> Q p) -> ladder_all P l -> ladder_all Q l.
Proof.
  intros HPQ H. unfold ladder_all in *.
  eapply Forall_impl; [exact H|]. intros kv Hkv.
  eapply Forall_impl; [exact Hkv|]. exact HPQ.
Qed.

Lemma ladder_all_mono (h h' : gmap ptr Order) (sd : OrderSide) (l : Ladder) :
  heap_rel same_side h h' ->
  ladder_all (side_of h sd) l -> ladder_all (side_of h' sd) l.
Proof. intros Hrel. apply ladder_all_impl. intros p. by apply side_of_mono. Qed.

Lemma ladder_all_relink (P : ptr -> Prop) (k : float) (c : bool) (p : ptr)
    (rest : PriceLevel) (others : Ladder) :
  ladder_all P ((k, p :: rest) :: others) ->
  ladder_all P (relink k (if c then rest else p :: rest) others).
Proof.
  unfold ladder_all. intros H. apply Forall_cons in H as [Hl Ho]. cbn in Hl.
  apply Forall_cons in Hl as Hl'. destruct Hl' as [Hp Hrest].
  destruct c; [destruct rest|]; cbn; auto.
Qed.

Lemma typed_heap_fill (p : ptr) (qty : Z) (h : gmap ptr Order) :
  typed_heap h -> typed_heap (fill p qty h).
Proof.
  intros Hh q o. unfold fill. destruct (decide (p = q)) as [->|Hne].
  - rewrite lookup_insert_eq. intros [= <-]. split; cbn; [|apply u64_range].
    unfold deref. rewrite lookup_total_alt.
    destruct (h !! q) as [o|] eqn:Hq; cbn; [apply (Hh q o Hq)|lia].
  - rewrite lookup_insert_ne by done. apply Hh.
Qed.

Lemma match_step_well_formed (now : time_point) (s s' : State) :
  well_formed s -> match_step now s = Some s' -> well_formed s'.
Proof.
  intros (Ht & Hb & Ha) H.
  pose proof (match_step_heap _ _ _ H) as Hrel.
  apply (heap_rel_weaken _ same_side) in Hrel; [|apply filled_only_same_side].
  apply match_step_Some in H
    as (bb & buy & rb & bids' & ba & sell & ra & asks' & Eb & Ea & _ & H).
  cbv zeta in H. destruct H as (Hh & Hb' & Ha' & _).
  split; [|split].
  - rewrite Hh. by do 2 apply typed_heap_fill.
  - rewrite Hb'. apply ladder_all_relink. rewrite <- Eb. by eapply ladder_all_mono.
  - rewrite Ha'. apply ladder_all_relink. rewrite <- Ea. by eapply ladder_all_mono.
Qed.

Lemma ladder_size_relink (k : float) (l : PriceLevel) (others : Ladder) :
  ladder_size (relink k l others) = (length l + ladder_size others)%nat.
Proof. by destruct l. Qed.

Lemma ladder_size_cons (k : float) (l : PriceLevel) (others : Ladder) :
  ladder_size ((k, l) :: others) = (length l + ladder_size others)%nat.
Proof. reflexivity. Qed.

(** After a match of two different objects the one with the smaller
    remainder is filled. *)
Lemma is_filled_after_fill (o : Order) (qty : Z) :
  typed_order o -> qty = remaining_quantity o ->
  is_filled (set_filled_quantity (u64 (filled_quantity o + qty)) o) = true.
Proof.
  intros [Hq _] ->. unfold is_filled, remaining_quantity. cbn.
  rewrite u64_fill_remaining, u64_small by done. lia.
Qed.

Lemma typed_deref (h : gmap ptr Order) (p : ptr) :
  typed_heap h -> typed_order (deref h p).
Proof.
  intros Hh. unfold deref. rewrite lookup_total_alt.
  destruct (h !! p) as [o|] eqn:Hp; cbn; [by eapply Hh|].
  split; cbn; lia.
Qed.

Lemma match_step_resting (now : time_point) (s s' : State) :
  well_formed s -> match_step now s = Some s' ->
  (resting (book s') < resting (book s))%nat.
Proof.
  intros (Ht & Hb & Ha) H.
  apply match_step_Some in H
    as (bb & buy & rb & bids' & ba & sell & ra & asks' & Eb & Ea & _ & H).
  cbv zeta in H. destruct H as (_ & Hb' & Ha' & _).
  unfold resting. rewrite Hb', Ha', Eb, Ea, !ladder_size_relink, !ladder_size_cons.
  clear Hb' Ha'.
  unfold ladder_all in Hb, Ha. rewrite Eb in Hb. rewrite Ea in Ha.
  apply Forall_cons in Hb as [Hb _]. apply Forall_cons in Hb as [(ob & Hob & Sb) _].
  apply Forall_cons in Ha as [Ha _]. apply Forall_cons in Ha as [(oa & Hoa & Sa) _].
  assert (buy <> sell) as Hne by (intros ->; congruence).
  set (mq := Z.min _ _).
  rewrite deref_fill_eq, (deref_fill_ne buy sell) by done.
  rewrite (deref_fill_ne sell buy) by done. rewrite deref_fill_eq.
  pose proof (typed_deref _ buy Ht) as Tb. pose proof (typed_deref _ sell Ht) as Ts.
  destruct (Z.min_spec (remaining_quantity (deref (heap s) buy))
                       (remaining_quantity (deref (heap s) sell))) as [[_ E]|[_ E]];
    fold mq in E.
  - rewrite (is_filled_after_fill _ mq Tb E).
    destruct (is_filled (set_filled_quantity _ _)); cbn [length]; lia.
  - rewrite (is_filled_after_fill _ mq Ts E).
    destruct (is_filled (set_filled_quantity _ _)); cbn [length]; lia.
Qed.

Lemma match_loop_terminates (now : time_point) (fuel : nat) (s : State) :
  well_formed s -> (resting (book s) < fuel)%nat ->
  is_Some (match_loop fuel now s).
Proof.
  revert s. induction fuel as [|fuel IH]; intros s Hwf Hlt; [lia|]. cbn.
  destruct (match_step now s) as [s'|] eqn:Hs; [|done].
  apply IH; [by eapply match_step_well_formed|].
  pose proof (match_step_resting _ _ _ Hwf Hs). lia.
Qed.

(** A property that every pass of the loop keeps holds when the loop is
    left, and the loop is left because its condition fails or it breaks. *)
Lemma match_loop_ind (P : State -> Prop) (now : time_point) :
  (forall s s', P s -> match_step now s = Some s' -> P s') ->
  forall fuel s s', P s -> match_loop fuel now s = Some s' ->
    P s' /\ match_step now s' = None.
Proof.
  intros Hstep. induction fuel as [|fuel IH]; intros s s' HP; cbn; [done|].
  destruct (match_step now s) as [s1|] eqn:Hs.
  - apply IH. by eapply Hstep.
  - by intros [= <-].
Qed.

Lemma match_orders_terminates (now : time_point) (s : State) :
  well_formed s ->
  exists s', match_orders now s = Some s' /\ well_formed s' /\
             match_step now s' = None.
Proof.
  intros Hwf. unfold match_orders.
  destruct (match_loop_terminates now (S (resting (book s))) s Hwf) as [s' Hs']; [lia|].
  exists s'. split; [done|].
  eapply (match_loop_ind well_formed); [|done..].
  intros ? ?. apply match_step_well_formed.
Qed.

(** ** Ordered maps *)

Section OrderedMapFacts.
Context {K V : Type}.
Variable comp : K -> K -> bool.
Hypothesis comp_trans :
  forall a b c, comp a b = true -> comp b c = true -> comp a c = true.

Lemma sorted_head (k : K) (v : V) (m : list (K * V)) (kv : K * V) :
  sorted comp ((k, v) :: m) -> kv ∈ (k, v) :: m -> kv.1 = k \/ comp k kv.1 = true.
Proof.
  intros [Hall _] Hin. apply elem_of_cons in Hin as [-> |Hin]; [by left|right].
  rewrite Forall_forall in Hall. by apply Hall.
Qed.

Lemma sorted_tail (kv : K * V) (m : list (K * V)) : sorted comp (kv :: m) -> sorted comp m.
Proof. by intros [_ ?]. Qed.

Lemma sorted_replace_head (k : K) (v v' : V) (m : list (K * V)) :
  sorted comp ((k, v) :: m) -> sorted comp ((k, v') :: m).
Proof. done. Qed.

Lemma sorted_filter (P : K * V -> Prop) `{!forall x, Decision (P x)}
    (m : list (K * V)) :
  sorted comp m -> sorted comp (filter P m).
Proof.
  induction m as [|kv m IH]; [done|]. intros [Hall Hm].
  rewrite filter_cons. destruct (decide (P kv)); [|by apply IH].
  split; [|by apply IH]. rewrite Forall_forall in Hall |- *.
  intros x [_ Hx]%list_elem_of_filter. by apply Hall.
Qed.

(** Every entry of the map after [m[k] = f (m[k])] is an old entry, an old
    entry whose value went through [f], or the new entry. *)
Lemma map_upsert_elem (d : V) (f : V -> V) (k : K) (m : list (K * V)) (kv : K * V) :
  kv ∈ map_upsert comp d f k m ->
  kv ∈ m \/ (exists v, (kv.1, v) ∈ m /\ kv.2 = f v) \/ kv = (k, f d).
Proof.
  induction m as [|[k' v'] m IH]; cbn.
  - intros ->%list_elem_of_singleton. by right; right.
  - destruct (comp k' k).
    + intros [-> |Hin]%elem_of_cons; [left; left|].
      destruct (IH Hin) as [?|[(v & ? & ?)|?]]; [left; by right| |by right; right].
      right; left. exists v. split; [by right|done].
    + destruct (comp k k').
      * intros [-> |Hin]%elem_of_cons; [by right; right|by left].
      * intros [-> |Hin]%elem_of_cons; [|left; by right].
        right; left. exists v'. split; [left|done].
Qed.

Lemma map_upsert_keys (d : V) (f : V -> V) (k : K) (m : list (K * V)) (kv : K * V) :
  kv ∈ map_upsert comp d f k m -> kv.1 = k \/ exists v, (kv.1, v) ∈ m.
Proof.
  intros [Hin|[(v & Hin & _)| -> ]]%map_upsert_elem; [right|right|by left].
  - exists kv.2. by destruct kv.
  - by exists v.
Qed.

Lemma sorted_upsert (d : V) (f : V -> V) (k : K) (m : list (K * V)) :
  sorted comp m -> sorted comp (map_upsert comp d f k m).
Proof.
  induction m as [|[k' v'] m IH]; cbn; [done|]. intros [Hall Hm].
  destruct (comp k' k) eqn:E1; [|destruct (comp k k') eqn:E2].
  - split; [|by apply IH]. rewrite Forall_forall. intros kv Hin.
    apply map_upsert_keys in Hin as [-> |(v & Hin)]; [done|].
    rewrite Forall_forall in Hall. exact (Hall _ Hin).
  - split; [|done]. constructor; [done|].
    eapply Forall_impl; [exact Hall|]. cbn. intros kv. by apply comp_trans.
  - done.
Qed.

Lemma map_adjust_elem (f : V -> V) (k : K) (m : list (K * V)) (kv : K * V) :
  kv ∈ map_adjust comp f k m ->
  kv ∈ m \/ exists v, (kv.1, v) ∈ m /\ kv.2 = f v.
Proof.
  induction m as [|[k' v'] m IH]; cbn; [by left|].
  destruct (comp k' k).
  - intros [-> |Hin]%elem_of_cons; [left; left|].
    destruct (IH Hin) as [?|(v & ? & ?)]; [left; by right|].
    right. exists v. split; [by right|done].
  - destruct (comp k k'); [by left|].
    intros [-> |Hin]%elem_of_cons; [|left; by right].
    right. exists v'. split; [left|done].
Qed.

Lemma map_adjust_keys (f : V -> V) (k : K) (m : list (K * V)) :
  (map_adjust comp f k m).*1 = m.*1.
Proof.
  induction m as [|[k' v'] m IH]; cbn; [done|].
  destruct (comp k' k); cbn; [by rewrite IH|]. by destruct (comp k k').
Qed.

Lemma sorted_keys (m m' : list (K * V)) : m.*1 = m'.*1 -> sorted comp m -> sorted comp m'.
Proof.
  revert m'. induction m as [|kv m IH]; intros [|kv' m']; try done.
  cbn. intros [= Hk Hm] [Hall Hs]. split; [|by apply IH].
  rewrite Forall_forall in Hall |- *. intros x Hx.
  assert (x.1 ∈ m.*1) as (y & Hy & Hin)%list_elem_of_fmap.
  { rewrite Hm. by apply list_elem_of_fmap_2. }
  rewrite <- Hk, !Hy. by apply Hall.
Qed.

Lemma sorted_adjust (f : V -> V) (k : K) (m : list (K * V)) :
  sorted comp m -> sorted comp (map_adjust comp f k m).
Proof. apply sorted_keys. by rewrite map_adjust_keys. Qed.

End OrderedMapFacts.

(** ** Price ladders of the book *)

Lemma sub_keys_refl (m : Ladder) : sub_keys m m.
Proof. intros kv Hin. by apply list_elem_of_fmap_2. Qed.

Lemma sub_keys_adjust (comp : float -> float -> bool)
    (f : PriceLevel -> PriceLevel) (k : float) (m : Ladder) :
  sub_keys (map_adjust comp f k m) m.
Proof.
  intros kv Hin. rewrite <- (map_adjust_keys comp f k m).
  by apply list_elem_of_fmap_2.
Qed.

Lemma sub_keys_drop_empty (m : Ladder) : sub_keys (drop_empty m) m.
Proof.
  intros kv [_ Hin]%list_elem_of_filter. by apply list_elem_of_fmap_2.
Qed.

Lemma sub_keys_trans (m1 m2 m3 : Ladder) :
  sub_keys m1 m2 -> sub_keys m2 m3 -> sub_keys m1 m3.
Proof.
  intros H12 H23 kv Hin.
  apply H12, list_elem_of_fmap in Hin as (kv2 & -> & Hin2). by apply H23.
Qed.

Lemma separated_sub_keys (bids bids' asks asks' : Ladder) :
  sub_keys bids' bids -> sub_keys asks' asks ->
  separated bids asks -> separated bids' asks'.
Proof.
  intros Hb Ha Hsep kvb kva Hinb Hina.
  apply Hb, list_elem_of_fmap in Hinb as (kvb0 & -> & Hinb).
  apply Ha, list_elem_of_fmap in Hina as (kva0 & -> & Hina).
  by apply Hsep.
Qed.

Lemma separated_quiet (bids asks : Ladder) : separated bids asks -> quiet bids asks.
Proof. intros Hsep kvb kva Hb Ha _. by apply Hsep. Qed.

Lemma separated_uncrossed (b : OrderBook) :
  separated (bids_ b) (asks_ b) -> uncrossed b.
Proof.
  unfold uncrossed, get_best_bid, get_best_ask. intros Hsep.
  destruct (bids_ b) as [|[kb lb] bids]; [by left|].
  destruct (asks_ b) as [|[ka la] asks]; [by right; left|].
  right; right. apply (Hsep (kb, lb) (ka, la)); left.
Qed.

(** Both heads bound their ladders, so an uncrossed pair of heads separates
    the ladders. *)
Lemma heads_separated (kb ka : float) (lb la : PriceLevel) (bids asks : Ladder) :
  sorted gtb ((kb, lb) :: bids) -> sorted PrimFloat.ltb ((ka, la) :: asks) ->
  (kb <? ka)%float = true ->
  separated ((kb, lb) :: bids) ((ka, la) :: asks).
Proof.
  intros Sb Sa Hlt kvb kva Hinb Hina.
  destruct (sorted_head gtb _ _ _ _ Sb Hinb) as [->|Hb];
    destruct (sorted_head PrimFloat.ltb _ _ _ _ Sa Hina) as [->|Ha]; unfold gtb in *.
  - done.
  - by eapply ltb_trans.
  - by eapply ltb_trans.
  - eapply ltb_trans; [exact Hb|]. by eapply ltb_trans.
Qed.

Lemma settled_separated (b : OrderBook) :
  settled b -> separated (bids_ b) (asks_ b).
Proof.
  intros (Sb & Sa & _ & _ & Hun). unfold uncrossed, get_best_bid, get_best_ask in Hun.
  destruct (bids_ b) as [|[kb lb] bids]; [by intros ? ? ?%elem_of_nil|].
  destruct (asks_ b) as [|[ka la] asks]; [by intros ? ? _ ?%elem_of_nil|].
  destruct Hun as [?|[?|Hlt]]; [done..|]. by apply heads_separated.
Qed.

Lemma settled_ordered (b : OrderBook) : settled b -> ordered b.
Proof.
  intros Hs. pose proof (settled_separated _ Hs) as Hsep.
  destruct Hs as (Sb & Sa & _). repeat split; [done..|by apply separated_quiet].
Qed.

Lemma no_empty_level_drop_empty (m : Ladder) : no_empty_level (drop_empty m).
Proof.
  unfold no_empty_level, drop_empty. rewrite Forall_forall.
  by intros kv [? _]%list_elem_of_filter.
Qed.

Lemma drop_empty_id (m : Ladder) : no_empty_level m -> drop_empty m = m.
Proof.
  unfold no_empty_level, drop_empty. induction 1 as [|kv m Hkv _ IH]; [done|].
  rewrite filter_cons_True by done. by rewrite IH.
Qed.

Lemma cleanup_empty_levels_id (s : State) :
  no_empty_level (bids_ (book s)) -> no_empty_level (asks_ (book s)) ->
  cleanup_empty_levels s = s.
Proof.
  intros Hb Ha. destruct s as [h [sym bids asks ids rt n1 n2 vol] tr]. cbn in *.
  unfold cleanup_empty_levels, upd_book, set_book, set_asks, set_bids. cbn.
  by rewrite !drop_empty_id.
Qed.

(** Sorted ladders that are separated are settled once the empty levels are
    dropped. *)
Lemma separated_settled (b : OrderBook) :
  sorted gtb (bids_ b) -> sorted PrimFloat.ltb (asks_ b) ->
  separated (bids_ b) (asks_ b) ->
  settled (set_asks (drop_empty (asks_ b)) (set_bids (drop_empty (bids_ b)) b)).
Proof.
  intros Sb Sa Hsep. unfold settled. cbn.
  split; [by apply sorted_filter|]. split; [by apply sorted_filter|].
  split; [apply no_empty_level_drop_empty|]. split; [apply no_empty_level_drop_empty|].
  apply separated_uncrossed. cbn.
  eapply separated_sub_keys; [apply sub_keys_drop_empty..|done].
Qed.

(** *** The matching loop *)

Lemma relink_elem (k : float) (c : bool) (p : ptr) (rest : PriceLevel)
    (others : Ladder) (kv : float * PriceLevel) :
  kv ∈ relink k (if c then rest else p :: rest) others ->
  kv ∈ others \/ (kv.1 = k /\ kv.2 <> []).
Proof.
  destruct c; [destruct rest|]; cbn; [by left|..];
    (intros [-> |?]%elem_of_cons; [by right|by left]).
Qed.

Lemma sorted_relink (comp : float -> float -> bool) (k : float) (l l' : PriceLevel)
    (others : Ladder) :
  sorted comp ((k, l) :: others) -> sorted comp (relink k l' others).
Proof. destruct l'; [apply sorted_tail|apply sorted_replace_head]. Qed.

Lemma no_empty_level_relink (k : float) (c : bool) (p : ptr) (rest : PriceLevel)
    (others : Ladder) :
  no_empty_level others ->
  no_empty_level (relink k (if c then rest else p :: rest) others).
Proof.
  unfold no_empty_level. intros Ho. rewrite Forall_forall in Ho |- *.
  intros kv [?|[_ ?]]%relink_elem; [by apply Ho|done].
Qed.

Lemma match_step_ordered (now : time_point) (s s' : State) :
  ordered (book s) -> match_step now s = Some s' -> ordered (book s').
Proof.
  intros (Sb & Sa & Hq) H.
  apply match_step_Some in H
    as (bb & buy & rb & bids' & ba & sell & ra & asks' & Eb & Ea & _ & H).
  cbv zeta in H. destruct H as (_ & Hb' & Ha' & _).
  unfold ordered. rewrite Hb', Ha'. rewrite Eb in Sb, Hq. rewrite Ea in Sa, Hq.
  split; [by eapply sorted_relink|]. split; [by eapply sorted_relink|].
  intros kvb kva Hinb Hina Hempty.
  apply relink_elem in Hinb as [Hinb|[Hkb Hnb]];
    apply relink_elem in Hina as [Hina|[Hka Hna]].
  - apply Hq; [by right..|done].
  - destruct Hempty as [Hempty|?]; [|done].
    rewrite Hka. apply (Hq kvb (ba, sell :: ra)); [by right|left|by left].
  - destruct Hempty as [?|Hempty]; [done|].
    rewrite Hkb. apply (Hq (bb, buy :: rb) kva); [left|by right|by right].
  - by destruct Hempty.
Qed.

Lemma match_step_no_empty (now : time_point) (s s' : State) :
  no_empty_level (bids_ (book s)) /\ no_empty_level (asks_ (book s)) ->
  match_step now s = Some s' ->
  no_empty_level (bids_ (book s')) /\ no_empty_level (asks_ (book s')).
Proof.
  intros [Nb Na] H.
  apply match_step_Some in H
    as (bb & buy & rb & bids' & ba & sell & ra & asks' & Eb & Ea & _ & H).
  cbv zeta in H. destruct H as (_ & Hb' & Ha' & _).
  rewrite Hb', Ha'. rewrite Eb in Nb. rewrite Ea in Na.
  apply Forall_cons in Nb as [_ Nb]. apply Forall_cons in Na as [_ Na].
  split; by apply no_empty_level_relink.
Qed.

(** When the loop is left with ordered ladders their heads do not cross. *)
Lemma exit_separated (now : time_point) (s : State) :
  ordered (book s) -> match_step now s = None ->
  separated (bids_ (book s)) (asks_ (book s)).
Proof.
  intros (Sb & Sa & Hq) H. apply match_step_None in H as [E|[E|H]].
  - rewrite E. by intros ? ? ?%elem_of_nil.
  - rewrite E. by intros ? ? _ ?%elem_of_nil.
  - destruct H as (bb & lb & bids' & ba & la & asks' & Eb & Ea & H).
    rewrite Eb in Sb, Hq |- *. rewrite Ea in Sa, Hq |- *.
    apply heads_separated; [done..|].
    destruct H as [?|H]; [done|].
    apply (Hq (bb, lb) (ba, la)); [left..|done].
Qed.

Lemma exit_settled (now : time_point) (s : State) :
  ordered (book s) -> match_step now s = None ->
  settled (book (cleanup_empty_levels s)).
Proof.
  intros Ho H. pose proof (exit_separated _ _ Ho H) as Hsep.
  destruct Ho as (Sb & Sa & _). by apply separated_settled.
Qed.

(** *** Insertion into and removal from a level *)

Lemma insert_by_timestamp_perm (h : gmap ptr Order) (p : ptr) (l : list ptr) :
  insert_by_timestamp h p l ≡ₚ p :: l.
Proof.
  induction l as [|q l IH]; cbn; [done|].
  destruct (_ <? _); [|done]. rewrite IH. apply Permutation_swap.
Qed.

Lemma sort_by_timestamp_perm (h : gmap ptr Order) (l : list ptr) :
  sort_by_timestamp h l ≡ₚ l.
Proof.
  induction l as [|q l IH]; cbn; [done|].
  rewrite insert_by_timestamp_perm. by rewrite IH.
Qed.

Lemma level_push_perm (h : gmap ptr Order) (p : ptr) (l : list ptr) :
  level_push h p l ≡ₚ p :: l.
Proof.
  unfold level_push. rewrite sort_by_timestamp_perm.
  by rewrite Permutation_app_comm.
Qed.

Lemma level_push_not_nil (h : gmap ptr Order) (p : ptr) (l : list ptr) :
  level_push h p l <> [].
Proof.
  intros E. pose proof (level_push_perm h p l) as HP. rewrite E in HP.
  by apply Permutation_nil_cons in HP.
Qed.

Lemma Forall_level_push (P : ptr -> Prop) (h : gmap ptr Order) (p : ptr)
    (l : list ptr) :
  P p -> Forall P l -> Forall P (level_push h p l).
Proof. intros Hp Hl. rewrite level_push_perm. by constructor. Qed.

Lemma Forall_level_remove (P : ptr -> Prop) (h : gmap ptr Order) (id : Z)
    (l : list ptr) :
  Forall P l -> Forall P (level_remove h id l).
Proof.
  unfold level_remove. rewrite !Forall_forall.
  intros Hl x [_ Hx]%list_elem_of_filter. by apply Hl.
Qed.

Section LadderUpdates.
Variable comp : float -> float -> bool.
Hypothesis comp_trans :
  forall a b c, comp a b = true -> comp b c = true -> comp a c = true.

Lemma ladder_all_upsert (P : ptr -> Prop) (h : gmap ptr Order) (p : ptr)
    (k : float) (m : Ladder) :
  P p -> ladder_all P m -> ladder_all P (map_upsert comp [] (level_push h p) k m).
Proof.
  unfold ladder_all. rewrite !Forall_forall. intros Hp Hm kv Hin.
  apply map_upsert_elem in Hin as [Hin|[(v & Hin & ->)| ->]].
  - by apply Hm.
  - apply Forall_level_push; [done|]. exact (Hm _ Hin).
  - by apply (Forall_level_push P h p []).
Qed.

Lemma no_empty_level_upsert (h : gmap ptr Order) (p : ptr) (k : float) (m : Ladder) :
  no_empty_level m -> no_empty_level (map_upsert comp [] (level_push h p) k m).
Proof.
  unfold no_empty_level. rewrite !Forall_forall. intros Hm kv Hin.
  apply map_upsert_elem in Hin as [Hin|[(v & Hin & ->)| ->]].
  - by apply Hm.
  - apply level_push_not_nil.
  - apply level_push_not_nil.
Qed.

(** The levels that are empty after an insertion were empty levels before. *)
Lemma upsert_empty_elem (h : gmap ptr Order) (p : ptr) (k : float) (m : Ladder)
    (kv : float * list ptr) :
  kv ∈ map_upsert comp [] (level_push h p) k m -> kv.2 = [] -> kv ∈ m.
Proof.
  intros [Hin|[(v & Hin & E)|E]]%map_upsert_elem Hnil; [done|..].
  - rewrite Hnil in E. symmetry in E. by apply level_push_not_nil in E.
  - rewrite E in Hnil. by apply level_push_not_nil in Hnil.
Qed.

Lemma ladder_all_adjust (P : ptr -> Prop) (h : gmap ptr Order) (id : Z)
    (k : float) (m : Ladder) :
  ladder_all P m -> ladder_all P (map_adjust comp (level_remove h id) k m).
Proof.
  unfold ladder_all. rewrite !Forall_forall. intros Hm kv Hin.
  apply map_adjust_elem in Hin as [Hin|(v & Hin & ->)].
  - by apply Hm.
  - apply Forall_level_remove. exact (Hm _ Hin).
Qed.

End LadderUpdates.

Lemma ladder_all_drop_empty (P : ptr -> Prop) (m : Ladder) :
  ladder_all P m -> ladder_all P (drop_empty m).
Proof.
  unfold ladder_all, drop_empty. rewrite !Forall_forall.
  intros Hm kv [_ Hin]%list_elem_of_filter. by apply Hm.
Qed.

(** An insertion on one side keeps the ladders quiet when the other side
    has no empty level. *)
Lemma quiet_upsert_bids (h : gmap ptr Order) (p : ptr) (k : float)
    (bids asks : Ladder) :
  no_empty_level asks -> quiet bids asks ->
  quiet (map_upsert gtb [] (level_push h p) k bids) asks.
Proof.
  intros Na Hq kvb kva Hinb Hina [Hnil|Hnil].
  - apply Hq; [by eapply upsert_empty_elem|done|by left].
  - unfold no_empty_level in Na. rewrite Forall_forall in Na. by apply Na in Hina.
Qed.

Lemma quiet_upsert_asks (h : gmap ptr Order) (p : ptr) (k : float)
    (bids asks : Ladder) :
  no_empty_level bids -> quiet bids asks ->
  quiet bids (map_upsert PrimFloat.ltb [] (level_push h p) k asks).
Proof.
  intros Nb Hq kvb kva Hinb Hina [Hnil|Hnil].
  - unfold no_empty_level in Nb. rewrite Forall_forall in Nb. by apply Nb in Hinb.
  - apply Hq; [done|by eapply upsert_empty_elem|by right].
Qed.

(** ** The public operations keep the book in order *)

Lemma settled_no_empty_levels (b : OrderBook) : settled b -> no_empty_levels b.
Proof. by intros (_ & _ & ? & ? & _). Qed.

Lemma book_inv_new (sym : string) : book_inv (State_new sym).
Proof.
  split; [split; [intros p o H; cbn in H; by rewrite lookup_empty in H|split; constructor]|].
  unfold settled, no_empty_level, uncrossed. cbn.
  split; [done|]. split; [done|]. split; [constructor|]. split; [constructor|by left].
Qed.

(** [match_orders] returns, and what it returns. *)
Lemma match_orders_spec (now : time_point) (s : State) :
  well_formed s -> ordered (book s) ->
  exists s', match_orders now s = Some s' /\
    well_formed s' /\ ordered (book s') /\ match_step now s' = None /\
    (no_empty_levels (book s) -> no_empty_levels (book s')) /\
    heap_rel filled_only (heap s) (heap s').
Proof.
  intros Hwf Hord.
  destruct (match_orders_terminates now s Hwf) as (s' & Hs' & Hwf' & Hexit).
  exists s'. unfold match_orders in Hs'.
  split; [done|]. split; [done|]. split; [|split; [done|split]].
  - eapply (match_loop_ind (fun s => ordered (book s))); [|done..].
    intros ? ?. apply match_step_ordered.
  - intros Hn.
    eapply (match_loop_ind (fun s => no_empty_levels (book s))); [|done..].
    intros ? ?. apply match_step_no_empty.
  - eapply (match_loop_ind (fun s0 => heap_rel filled_only (heap s) (heap s0)));
      [|apply heap_rel_refl, filled_only_refl|done].
    intros s1 s2 H1 H2. eapply heap_rel_trans; [apply filled_only_trans|done|].
    by eapply match_step_heap.
Qed.

(** When the loop is left and no level is empty the book is settled. *)
Lemma exit_settled_no_empty (now : time_point) (s : State) :
  ordered (book s) -> no_empty_levels (book s) -> match_step now s = None ->
  settled (book s).
Proof.
  intros Ho [Nb Na] H. rewrite <- (cleanup_empty_levels_id s) by done.
  by eapply exit_settled.
Qed.

Lemma add_to_level_heap (o : Order) (p : ptr) (s : State) :
  heap (add_to_level o p s) = heap s.
Proof. unfold add_to_level. by destruct (side o). Qed.

Lemma add_to_level_well_formed (o : Order) (p : ptr) (s : State) :
  heap s !! p = Some o -> well_formed s -> well_formed (add_to_level o p s).
Proof.
  intros Hp (Ht & Hb & Ha). unfold add_to_level, well_formed.
  destruct (side o) eqn:Hs; cbn; (split; [done|]); split; try done.
  - apply ladder_all_upsert; [by exists o|done].
  - apply ladder_all_upsert; [by exists o|done].
Qed.

Lemma add_to_level_no_empty (o : Order) (p : ptr) (s : State) :
  no_empty_levels (book s) -> no_empty_levels (book (add_to_level o p s)).
Proof.
  intros [Nb Na]. unfold add_to_level, no_empty_levels.
  destruct (side o); cbn; split; try done; by apply no_empty_level_upsert.
Qed.

Lemma add_to_level_ordered (o : Order) (p : ptr) (s : State) :
  ordered (book s) ->
  (side o = BUY -> no_empty_level (asks_ (book s))) ->
  (side o = SELL -> no_empty_level (bids_ (book s))) ->
  ordered (book (add_to_level o p s)).
Proof.
  intros (Sb & Sa & Hq) HB HS. unfold add_to_level, ordered.
  destruct (side o); cbn.
  - split; [apply sorted_upsert; [apply gtb_trans|done]|]. split; [done|].
    apply quiet_upsert_bids; auto.
  - split; [done|]. split; [apply sorted_upsert; [apply ltb_trans|done]|].
    apply quiet_upsert_asks; auto.
Qed.

Lemma remove_from_level_heap (o : Order) (id : Z) (s : State) :
  heap (remove_from_level o id s) = heap s.
Proof. unfold remove_from_level. by destruct (side o). Qed.

Lemma remove_from_level_well_formed (o : Order) (id : Z) (s : State) :
  well_formed s -> well_formed (remove_from_level o id s).
Proof.
  intros (Ht & Hb & Ha). unfold remove_from_level, well_formed.
  destruct (side o); cbn; (split; [done|]); split; try done;
    by apply ladder_all_adjust.
Qed.

(** A removal leaves the ladders sorted and separated; only the side of the
    order can have an empty level afterwards. *)
Lemma remove_from_level_ladders (o : Order) (id : Z) (s : State) :
  settled (book s) ->
  let b' := book (remove_from_level o id s) in
  sorted gtb (bids_ b') /\ sorted PrimFloat.ltb (asks_ b') /\
  separated (bids_ b') (asks_ b') /\
  (side o = BUY -> no_empty_level (asks_ b')) /\
  (side o = SELL -> no_empty_level (bids_ b')).
Proof.
  intros Hs. pose proof (settled_separated _ Hs) as Hsep.
  destruct Hs as (Sb & Sa & Nb & Na & _). unfold remove_from_level.
  destruct (side o); cbn.
  - split; [by apply sorted_adjust|]. split; [done|]. split; [|done].
    eapply separated_sub_keys; [apply sub_keys_adjust|apply sub_keys_refl|done].
  - split; [done|]. split; [by apply sorted_adjust|]. split; [|done].
    eapply separated_sub_keys; [apply sub_keys_refl|apply sub_keys_adjust|done].
Qed.

Lemma well_formed_cleanup (s : State) :
  well_formed s -> well_formed (cleanup_empty_levels s).
Proof.
  intros (Ht & Hb & Ha). unfold well_formed. cbn.
  split; [done|]. split; by apply ladder_all_drop_empty.
Qed.

Lemma heap_rel_store (p : ptr) (o' : Order) (h : gmap ptr Order) :
  side o' = side (deref h p) -> heap_rel same_side h (<[p := o']> h).
Proof.
  intros Hside q o Hq. destruct (decide (p = q)) as [->|Hne].
  - rewrite lookup_insert_eq. exists o'. split; [done|].
    unfold same_side. by rewrite Hside, (deref_Some _ _ _ Hq).
  - rewrite lookup_insert_ne by done. by exists o.
Qed.

Lemma typed_heap_insert (p : ptr) (o : Order) (h : gmap ptr Order) :
  typed_order o -> typed_heap h -> typed_heap (<[p := o]> h).
Proof.
  intros Ho Ht q o'. destruct (decide (p = q)) as [->|Hne].
  - rewrite lookup_insert_eq. by intros [= <-].
  - rewrite lookup_insert_ne by done. apply Ht.
Qed.

(** A well-formed state stays so when its objects keep their sides. *)
Lemma well_formed_heap (h' : gmap ptr Order) (s : State) :
  typed_heap h' -> heap_rel same_side (heap s) h' ->
  well_formed s -> well_formed (set_heap h' s).
Proof.
  intros Ht' Hrel (_ & Hb & Ha). unfold well_formed. cbn.
  split; [done|]. split; by eapply ladder_all_mono.
Qed.

(** Replacing an object by one of the same side and type-correct fields. *)
Lemma well_formed_store (p : ptr) (o' : Order) (s : State) :
  typed_order o' -> side o' = side (deref (heap s) p) ->
  well_formed s -> well_formed (set_heap (<[p := o']> (heap s)) s).
Proof.
  intros Ht' Hside Hwf. apply well_formed_heap; [|by apply heap_rel_store|done].
  apply typed_heap_insert; [done|apply Hwf].
Qed.

(** [add_order] returns; it keeps the invariant, and a refusal changes
    nothing. *)
Lemma add_order_inv (now : time_point) (order : ptr) (s : State) :
  book_inv s ->
  exists r s', add_order now order s = Some (r, s') /\ book_inv s' /\
    heap_rel filled_only (heap s) (heap s') /\ (r = false -> s' = s).
Proof.
  intros [Hwf Hset]. unfold add_order.
  assert (heap_rel filled_only (heap s) (heap s)) as Hrefl
    by apply heap_rel_refl, filled_only_refl.
  destruct (heap s !! order) as [o|] eqn:Ho; [|by exists false, s].
  destruct (negb _); [by exists false, s|].
  destruct (orders_by_id_ (book s) !! order_id o); [by exists false, s|].
  set (s1 := upd_book _ s).
  set (s3 := upd_book _ (add_to_level o order s1)).
  assert (well_formed s3) as Hwf3.
  { apply (add_to_level_well_formed o order s1 Ho Hwf). }
  assert (ordered (book s3)) as Ho3.
  { apply (add_to_level_ordered o order s1 (settled_ordered _ Hset));
      intros _; apply Hset. }
  assert (no_empty_levels (book s3)) as Hn3.
  { apply (add_to_level_no_empty o order s1), (settled_no_empty_levels _ Hset). }
  assert (heap s3 = heap s) as Hh3.
  { unfold s3. cbn. by rewrite add_to_level_heap. }
  destruct (match_orders_spec now s3 Hwf3 Ho3)
    as (s4 & Hs4 & Hwf4 & Ho4 & _ & Hn4 & Hrel4).
  destruct (match_orders_spec now s4 Hwf4 Ho4)
    as (s5 & Hs5 & Hwf5 & Ho5 & Hexit & Hn5 & Hrel5).
  exists true, s5. split.
  - unfold process_market_order, process_limit_order.
    destruct (type o); rewrite Hs4; cbn [mbind option_bind]; by rewrite Hs5.
  - split; [|split; [|done]].
    + split; [done|]. eapply exit_settled_no_empty; eauto.
    + rewrite <- Hh3. eapply heap_rel_trans; [apply filled_only_trans|done..].
Qed.

Lemma typed_order_set_status (st : OrderStatus) (o : Order) :
  typed_order o -> typed_order (set_status st o).
Proof. done. Qed.

Lemma cancel_order_absent (id : Z) (s : State) :
  orders_by_id_ (book s) !! id = None -> cancel_order id s = (false, s).
Proof. unfold cancel_order. by intros ->. Qed.

(** [cancel_order] keeps the invariant. *)
Lemma cancel_order_inv (id : Z) (s : State) :
  book_inv s ->
  book_inv (cancel_order id s).2 /\
  heap_rel same_side (heap s) (heap (cancel_order id s).2).
Proof.
  intros [Hwf Hset]. unfold cancel_order.
  destruct (orders_by_id_ (book s) !! id) as [order|].
  2:{ split; [done|]. by apply heap_rel_refl. }
  cbn [snd]. set (o := deref (heap s) order).
  pose proof (remove_from_level_well_formed o id s Hwf) as Hwf1.
  pose proof (remove_from_level_heap o id s) as Hh1.
  destruct (remove_from_level_ladders o id s Hset) as (Sb & Sa & Hsep & _).
  set (s1 := remove_from_level o id s) in *.
  split; [split|].
  - apply well_formed_cleanup.
    apply (well_formed_store order _ (upd_book _ s1)); [|done|done].
    apply typed_order_set_status, typed_deref, Hwf1.
  - by apply separated_settled.
  - cbn. rewrite Hh1. by apply heap_rel_store.
Qed.

Lemma typed_order_set_qpt (q : Z) (p : float) (t : time_point) (o : Order) :
  0 <= q < 2 ^ 64 -> typed_order o ->
  typed_order (set_quantity_price_timestamp q p t o).
Proof. intros Hq [_ Hf]. by split. Qed.

Lemma modify_order_found (now : time_point) (id q : Z) (prc : float) (order : ptr)
    (s : State) :
  orders_by_id_ (book s) !! id = Some order ->
  modify_order now id q prc s =
    (s4 ← match_orders now (modify_order_entered now id q prc order s);
     Some (true, cleanup_empty_levels s4)).
Proof. intros Hid. unfold modify_order. by rewrite Hid. Qed.

Lemma modify_order_absent (now : time_point) (id q : Z) (prc : float) (s : State) :
  orders_by_id_ (book s) !! id = None -> modify_order now id q prc s = Some (false, s).
Proof. intros Hid. unfold modify_order. by rewrite Hid. Qed.

Lemma modify_order_entered_inv (now : time_point) (id q : Z) (prc : float)
    (order : ptr) (s : State) :
  0 <= q < 2 ^ 64 -> book_inv s ->
  let o' := set_quantity_price_timestamp q prc now (deref (heap s) order) in
  well_formed (modify_order_entered now id q prc order s) /\
  ordered (book (modify_order_entered now id q prc order s)) /\
  heap (modify_order_entered now id q prc order s) = <[order := o']> (heap s).
Proof.
  intros Hq [Hwf Hset]. cbv zeta. unfold modify_order_entered.
  set (o := deref (heap s) order).
  pose proof (remove_from_level_well_formed o id s Hwf) as Hwf1.
  pose proof (remove_from_level_heap o id s) as Hh1.
  destruct (remove_from_level_ladders o id s Hset) as (Sb & Sa & Hsep & NB & NS).
  set (s1 := remove_from_level o id s) in *.
  set (o' := set_quantity_price_timestamp q prc now o).
  set (s2 := set_heap (<[order := o']> (heap s1)) s1).
  assert (well_formed s2) as Hwf2.
  { apply well_formed_store; [|by rewrite Hh1|done].
    apply typed_order_set_qpt; [done|]. apply typed_deref, Hwf. }
  split; [|split].
  - apply add_to_level_well_formed; [|done]. cbn. by rewrite lookup_insert_eq.
  - apply add_to_level_ordered; [|done..].
    split; [done|]. split; [done|]. by apply separated_quiet.
  - rewrite add_to_level_heap. cbn. by rewrite Hh1.
Qed.

(** [modify_order] returns and keeps the invariant. *)
Lemma modify_order_inv (now : time_point) (id q : Z) (prc : float) (s : State) :
  0 <= q < 2 ^ 64 -> book_inv s ->
  exists r s', modify_order now id q prc s = Some (r, s') /\ book_inv s' /\
    heap_rel same_side (heap s) (heap s') /\ (r = false -> s' = s).
Proof.
  intros Hq Hinv.
  destruct (orders_by_id_ (book s) !! id) as [order|] eqn:Hid.
  2:{ exists false, s. rewrite (modify_order_absent now id q prc s Hid).
      split; [done|]. split; [done|]. split; [|done]. by apply heap_rel_refl. }
  rewrite (modify_order_found now id q prc order s Hid).
  destruct (modify_order_entered_inv now id q prc order s Hq Hinv) as (Hwf3 & Ho3 & Hh3).
  destruct (match_orders_spec now _ Hwf3 Ho3)
    as (s4 & Hs4 & Hwf4 & Ho4 & Hexit & _ & Hrel4).
  exists true, (cleanup_empty_levels s4). rewrite Hs4. split; [done|].
  split; [|split; [|done]].
  - split; [by apply well_formed_cleanup|by eapply exit_settled].
  - change (heap (cleanup_empty_levels s4)) with (heap s4).
    eapply heap_rel_trans; [unfold same_side; congruence| |].
    + by apply (heap_rel_store order
                  (set_quantity_price_timestamp q prc now (deref (heap s) order)) (heap s)).
    + rewrite <- Hh3. eapply heap_rel_weaken; [apply filled_only_same_side|done].
Qed.

(** ** The ring buffer *)

(** What the [static_assert] accepts are the powers of two. *)
Lemma land_pred_pow2 (n : Z) :
  0 < n -> Z.land n (n - 1) = 0 -> exists k, 0 <= k /\ n = 2 ^ k.
Proof.
  intros Hpos Hland. exists (Z.log2 n). split; [apply Z.log2_nonneg|].
  destruct (Z.log2_spec n Hpos) as [Hlo Hhi].
  destruct (Z.eq_dec n (2 ^ Z.log2 n)) as [|Hne]; [done|exfalso].
  assert (0 < 2 ^ Z.log2 n) as Hp2 by (apply Z.pow_pos_nonneg; [lia|apply Z.log2_nonneg]).
  assert (Z.log2 (n - 1) = Z.log2 n) as Hlog.
  { apply Z.log2_unique; [apply Z.log2_nonneg|]. lia. }
  assert (Z.testbit (Z.land n (n - 1)) (Z.log2 n) = true) as Hbit.
  { rewrite Z.land_spec, (Z.bit_log2 n Hpos), <- Hlog, Z.bit_log2; [done|lia]. }
  rewrite Hland, Z.bits_0 in Hbit. discriminate.
Qed.

Lemma land_MASK (Size a : Z) :
  Size_ok Size -> 0 <= a -> Z.land a (MASK Size) = a mod Size.
Proof.
  intros (Hpos & Hland & _) Ha.
  destruct (land_pred_pow2 Size Hpos Hland) as (k & Hk & ->).
  unfold MASK. rewrite Z.sub_1_r, <- Z.ones_equiv. by apply Z.land_ones.
Qed.

Section RingFacts.
Context {T : Type} `{Inhabited T}.
Variable Size : Z.
Hypothesis HSize : Size_ok Size.

(** A push into a buffer whose indices are in range. *)
Lemma try_push_spec (item : T) (rb : LockFreeRingBuffer T) :
  0 <= tail_ rb < Size ->
  try_push Size item rb =
    if (tail_ rb + 1) mod Size =? head_ rb then (false, rb)
    else (true, mkRing (<[Z.to_nat (tail_ rb) := item]> (buffer_ rb))
                       (head_ rb) ((tail_ rb + 1) mod Size)).
Proof.
  intros Ht. unfold try_push. cbv zeta.
  assert (Size < 2 ^ 64) by apply HSize.
  rewrite u64_small by lia. by rewrite land_MASK by (done || lia).
Qed.

(** From an empty buffer, [n] pushes succeed as long as a slot beyond the
    reserved one is free, and fail from then on. *)
Lemma push_all_from (items : list T) (rb : LockFreeRingBuffer T) (j : Z) :
  0 <= head_ rb < Size -> 0 <= j < Size ->
  tail_ rb = (head_ rb + j) mod Size ->
  (push_all Size items rb).1 =
    replicate (Nat.min (length items) (Z.to_nat (Size - 1 - j))) true ++
    replicate (length items - Z.to_nat (Size - 1 - j)) false.
Proof.
  revert rb j. induction items as [|item items IH]; intros rb j Hh Hj Ht; [done|].
  cbn [push_all].
  assert (0 <= tail_ rb < Size) as Htr by (rewrite Ht; apply Z.mod_pos_bound; lia).
  rewrite try_push_spec by done.
  assert ((tail_ rb + 1) mod Size = (head_ rb + (j + 1)) mod Size) as Hnext.
  { rewrite Ht, Zplus_mod_idemp_l. f_equal. lia. }
  destruct (Z.eq_dec (j + 1) Size) as [Hfull|Hfree].
  - (* the reserved slot is the only one left *)
    assert ((tail_ rb + 1) mod Size = head_ rb) as E.
    { rewrite Hnext, Hfull, Z.add_mod, Z_mod_same_full, Z.add_0_r, Z.mod_mod by lia.
      apply Z.mod_small. lia. }
    rewrite E, Z.eqb_refl.
    destruct (push_all Size items rb) as [rs rb2] eqn:Hrest. cbn [fst].
    specialize (IH rb j Hh Hj Ht). rewrite Hrest in IH. cbn [fst] in IH.
    rewrite IH. replace (Size - 1 - j) with 0 by lia. cbn.
    rewrite !Nat.min_0_r, !Nat.sub_0_r. done.
  - assert ((tail_ rb + 1) mod Size <> head_ rb) as E.
    { rewrite Hnext. intros E.
      assert ((head_ rb + (j + 1)) mod Size = head_ rb mod Size) as E'
        by (rewrite E; symmetry; apply Z.mod_small; lia).
      destruct (Z_lt_le_dec (head_ rb + (j + 1)) Size) as [Hlt|Hge].
      - rewrite !Z.mod_small in E' by lia. lia.
      - replace (head_ rb + (j + 1)) with (head_ rb + (j + 1) - Size + 1 * Size) in E' by lia.
        rewrite Z_mod_plus_full, !Z.mod_small in E' by lia. lia. }
    apply Z.eqb_neq in E. rewrite E.
    set (rb1 := mkRing _ _ _).
    destruct (push_all Size items rb1) as [rs rb2] eqn:Hrest. cbn [fst].
    specialize (IH rb1 (j + 1)). rewrite Hrest in IH. cbn [fst] in IH.
    rewrite IH by (cbn; (done || lia)).
    replace (Z.to_nat (Size - 1 - j)) with (S (Z.to_nat (Size - 1 - (j + 1)))) by lia.
    cbn [length]. rewrite <- Nat.succ_min_distr. cbn [replicate app].
    by rewrite Nat.sub_succ.
Qed.

(** Where the indices are after the pushes. *)
Lemma push_all_state (items : list T) (rb : LockFreeRingBuffer T) (j : Z) :
  0 <= head_ rb < Size -> 0 <= j < Size ->
  tail_ rb = (head_ rb + j) mod Size ->
  head_ (push_all Size items rb).2 = head_ rb /\
  tail_ (push_all Size items rb).2
  = (head_ rb + Z.min (j + Z.of_nat (length items)) (Size - 1)) mod Size.
Proof.
  revert rb j. induction items as [|item items IH]; intros rb j Hh Hj Ht.
  { cbn. split; [done|]. rewrite Ht. f_equal. lia. }
  cbn [push_all].
  assert (0 <= tail_ rb < Size) as Htr by (rewrite Ht; apply Z.mod_pos_bound; lia).
  rewrite try_push_spec by done.
  assert ((tail_ rb + 1) mod Size = (head_ rb + (j + 1)) mod Size) as Hnext.
  { rewrite Ht, Zplus_mod_idemp_l. f_equal. lia. }
  destruct ((tail_ rb + 1) mod Size =? head_ rb) eqn:E.
  - apply Z.eqb_eq in E.
    assert (j + 1 = Size) as Hfull.
    { rewrite Hnext in E.
      destruct (Z_lt_le_dec (head_ rb + (j + 1)) Size) as [Hlt|Hge].
      - rewrite Z.mod_small in E by lia. lia.
      - replace (head_ rb + (j + 1)) with (head_ rb + (j + 1) - Size + 1 * Size) in E by lia.
        rewrite Z_mod_plus_full, Z.mod_small in E by lia. lia. }
    destruct (push_all Size items rb) as [rs rb2] eqn:Hrest. cbn [snd].
    specialize (IH rb j Hh Hj Ht). rewrite Hrest in IH. cbn [snd] in IH.
    destruct IH as [IH1 IH2]. split; [done|]. rewrite IH2. f_equal.
    cbn [length]. lia.
  - apply Z.eqb_neq in E.
    assert (j + 1 < Size) as Hfree.
    { destruct (Z.eq_dec (j + 1) Size) as [Hfull|]; [|lia]. exfalso. apply E.
      rewrite Hnext, Hfull, Z.add_mod, Z_mod_same_full, Z.add_0_r, Z.mod_mod by lia.
      apply Z.mod_small. lia. }
    set (rb1 := mkRing _ _ _).
    destruct (push_all Size items rb1) as [rs rb2] eqn:Hrest. cbn [snd].
    specialize (IH rb1 (j + 1)). rewrite Hrest in IH. cbn [snd] in IH.
    destruct IH as [IH1 IH2]; [cbn; (done || lia)..|].
    split; [done|]. rewrite IH2. cbn [head_ rb1 length]. f_equal. lia.
Qed.

End RingFacts.

(** C8. From an empty [LockFreeRingBuffer] of capacity [Size], consecutive
    calls of [try_push] succeed exactly [Size - 1] times and fail from the
    [Size]-th on; one slot stays unused, and after [Size - 1] pushes
    [full()] holds, that is [(tail + 1) mod Size = head]. *)
Theorem ring_buffer_holds_one_less_than_Size {T : Type} `{Inhabited T}
    (Size : Z) (rb : LockFreeRingBuffer T) (items : list T) :
  Size_ok Size -> 0 <= head_ rb < Size -> ring_empty rb = true ->
  (push_all Size items rb).1 =
    replicate (Nat.min (length items) (Z.to_nat (Size - 1))) true ++
    replicate (length items - Z.to_nat (Size - 1)) false /\
  (length items = Z.to_nat Size ->
   (push_all Size items rb).1 = replicate (Z.to_nat (Size - 1)) true ++ [false]) /\
  ((Z.to_nat (Size - 1) <= length items)%nat ->
   ring_full Size (push_all Size items rb).2 = true /\
   (tail_ (push_all Size items rb).2 + 1) mod Size = head_ (push_all Size items rb).2).
Proof.
  intros HSize Hh Hempty. apply Z.eqb_eq in Hempty.
  assert (0 < Size) as Hpos by apply HSize.
  assert (Size < 2 ^ 64) as Hlt by apply HSize.
  assert (tail_ rb = (head_ rb + 0) mod Size) as Ht.
  { rewrite Z.add_0_r, Z.mod_small by done. done. }
  pose proof (push_all_from Size HSize items rb 0 Hh ltac:(lia) Ht) as Hres.
  rewrite Z.sub_0_r in Hres.
  split; [done|]. split.
  - intros Hlen. rewrite Hres, Hlen.
    replace (Nat.min (Z.to_nat Size) (Z.to_nat (Size - 1))) with (Z.to_nat (Size - 1)) by lia.
    by replace (Z.to_nat Size - Z.to_nat (Size - 1))%nat with 1%nat by lia.
  - intros Hlen.
    destruct (push_all_state Size HSize items rb 0 Hh ltac:(lia) Ht) as [Hhead Htail].
    assert ((tail_ (push_all Size items rb).2 + 1) mod Size
            = head_ (push_all Size items rb).2) as Hfull.
    { rewrite Hhead, Htail, Zplus_mod_idemp_l.
      replace (Z.min (0 + Z.of_nat (length items)) (Size - 1)) with (Size - 1) by lia.
      replace (head_ rb + (Size - 1) + 1) with (head_ rb + 1 * Size) by lia.
      rewrite Z_mod_plus_full. apply Z.mod_small. lia. }
    split; [|done]. unfold ring_full.
    assert (0 <= tail_ (push_all Size items rb).2 < Size) as Htr
      by (rewrite Htail; apply Z.mod_pos_bound; lia).
    rewrite u64_small by lia. rewrite land_MASK by (done || lia).
    by apply Z.eqb_eq.
Qed.

Lemma ring_buffer_holds_one_less_than_Size_witness :
  Size_ok 8 /\
  (push_all 8 [1; 2; 3; 4; 5; 6; 7; 8] (LockFreeRingBuffer_new 8)).1
  = [true; true; true; true; true; true; true; false].
Proof.
  assert (Size_ok 8) as HSize by (by vm_compute).
  split; [exact HSize|].
  exact (proj1 (proj2 (ring_buffer_holds_one_less_than_Size 8
                         (LockFreeRingBuffer_new 8) [1; 2; 3; 4; 5; 6; 7; 8]
                         HSize ltac:(done) eq_refl)) eq_refl).
Defined.

(** ** Runs of a book *)

Lemma typed_orderb_spec (o : Order) : typed_orderb o = true -> typed_order o.
Proof. unfold typed_orderb, typed_order. intros H. lia. Qed.

Lemma alloc_keeps (p q : ptr) (o o' : Order) (h : gmap ptr Order) :
  h !! q = Some o' -> alloc p o h !! q = Some o'.
Proof.
  intros Hq. unfold alloc. destruct (h !! p) eqn:Hp; [done|].
  destruct (typed_orderb o); [|done].
  rewrite lookup_insert_ne; [done|]. intros ->. congruence.
Qed.

Lemma typed_heap_alloc (p : ptr) (o : Order) (h : gmap ptr Order) :
  typed_heap h -> typed_heap (alloc p o h).
Proof.
  intros Ht. unfold alloc. destruct (h !! p); [done|].
  destruct (typed_orderb o) eqn:E; [|done].
  by apply typed_heap_insert, Ht; apply typed_orderb_spec.
Qed.

Lemma heap_rel_alloc (p : ptr) (o : Order) (h : gmap ptr Order) :
  heap_rel same_side h (alloc p o h).
Proof. intros q o' Hq. exists o'. split; [by apply alloc_keeps|done]. Qed.

Lemma step_inv (op : Op) (s : State) :
  book_inv s -> exists s', step op s = Some s' /\ book_inv s'.
Proof.
  intros Hinv. destruct op as [p o|now order|id|now id q prc]; cbn [step].
  - eexists; split; [done|]. destruct Hinv as [Hwf Hset]. split; [|done].
    apply well_formed_heap; [apply typed_heap_alloc, Hwf|apply heap_rel_alloc|done].
  - destruct (add_order_inv now order s Hinv) as (r & s' & -> & Hinv' & _).
    by exists s'.
  - eexists; split; [done|]. by apply cancel_order_inv.
  - destruct (modify_order_inv now id (u64 q) prc s (u64_range q) Hinv)
      as (r & s' & -> & Hinv' & _).
    by exists s'.
Qed.

(** Every run of a book returns, and in a state that satisfies the
    invariant. *)
Lemma run_inv (ops : list Op) (s : State) :
  book_inv s -> exists s', run ops s = Some s' /\ book_inv s'.
Proof.
  revert s. induction ops as [|op ops IH]; intros s Hinv; [by exists s|].
  destruct (step_inv op s Hinv) as (s1 & Hs1 & Hinv1).
  destruct (IH s1 Hinv1) as (s' & Hs' & Hinv').
  exists s'. cbn. by rewrite Hs1.
Qed.

(** ** Trades and volume *)

Lemma tail_drop {A : Type} (n : nat) (l : list A) :
  tail (drop n l) = drop (S n) l.
Proof.
  revert l. induction n as [|n IH]; intros [|x l]; try done. apply IH.
Qed.

Lemma accounted_ledger (s s' : State) :
  trace s' = trace s -> total_volume_ (book s') = total_volume_ (book s) ->
  recent_trades_ (book s') = recent_trades_ (book s) ->
  accounted s -> accounted s'.
Proof. unfold accounted. by intros -> -> ->. Qed.

Lemma record_trade_accounted (now : time_point) (prc : float) (qty : Z) (s : State) :
  accounted s -> accounted (record_trade now prc qty s).
Proof.
  intros [Hvol Hrec]. unfold accounted, record_trade. cbn [book trace total_volume_ recent_trades_].
  split.
  - unfold volume_of. rewrite foldl_app. cbn. fold (volume_of (trace s)).
    by rewrite Hvol.
  - rewrite Hrec. set (t := MarketData_trade _ _ _ _ _).
    unfold MAX_TRADES_HISTORY.
    destruct (1000 <? _) eqn:E.
    + apply Z.ltb_lt in E. rewrite length_app, length_drop in E. cbn [length] in E.
      rewrite <- drop_app_le by lia. rewrite tail_drop. f_equal.
      rewrite length_app. cbn [length]. lia.
    + apply Z.ltb_ge in E. rewrite length_app, length_drop in E. cbn [length] in E.
      rewrite length_app. cbn [length].
      replace (length (trace s) + 1 - Z.to_nat 1000)%nat with 0%nat by lia.
      replace (length (trace s) - Z.to_nat 1000)%nat with 0%nat by lia.
      done.
Qed.

Lemma match_step_accounted (now : time_point) (s s' : State) :
  accounted s -> match_step now s = Some s' -> accounted s'.
Proof.
  intros Hacc H. unfold match_step in H.
  destruct (bids_ (book s)) as [|[bb [|buy rb]] bids'] eqn:Eb; try discriminate;
    destruct (asks_ (book s)) as [|[ba [|sell ra]] asks'] eqn:Ea; try discriminate;
    destruct (bb <? ba)%float eqn:Ecmp; try discriminate.
  set (s1 := record_trade now _ _ s) in H.
  pose proof (record_trade_accounted now ((bb + ba) / 2)%float
                (Z.min (remaining_quantity (deref (heap s) buy))
                       (remaining_quantity (deref (heap s) sell))) s Hacc) as H1.
  fold s1 in H1. unfold unlink_if_filled in H.
  destruct (is_filled _), (is_filled _); injection H as <-;
    (eapply accounted_ledger; [| | |exact H1]); reflexivity.
Qed.

Lemma match_orders_accounted (now : time_point) (s s' : State) :
  accounted s -> match_orders now s = Some s' -> accounted s'.
Proof.
  intros Hacc H. unfold match_orders in H.
  eapply (match_loop_ind accounted); [|done..].
  intros ? ? ? ?. by eapply match_step_accounted.
Qed.

Lemma add_to_level_ledger (o : Order) (p : ptr) (s : State) :
  accounted s -> accounted (add_to_level o p s).
Proof. apply accounted_ledger; unfold add_to_level; by destruct (side o). Qed.

Lemma remove_from_level_ledger (o : Order) (id : Z) (s : State) :
  accounted s -> accounted (remove_from_level o id s).
Proof. apply accounted_ledger; unfold remove_from_level; by destruct (side o). Qed.

Lemma add_order_accounted (now : time_point) (order : ptr) (s s' : State) (r : bool) :
  accounted s -> add_order now order s = Some (r, s') -> accounted s'.
Proof.
  intros Hacc. unfold add_order.
  destruct (heap s !! order) as [o|]; [|by intros [= _ <-]].
  destruct (negb _); [by intros [= _ <-]|].
  destruct (orders_by_id_ (book s) !! order_id o); [by intros [= _ <-]|].
  set (s3 := upd_book _ (add_to_level o order _)).
  assert (accounted s3) as H3.
  { apply (accounted_ledger s); [..|done];
      unfold s3, add_to_level; by destruct (side o). }
  assert (forall s4 s5, match_orders now s3 = Some s4 ->
                        match_orders now s4 = Some s5 -> accounted s5) as Hfin.
  { intros s4 s5 H4 H5. eapply match_orders_accounted; [|exact H5].
    by eapply match_orders_accounted. }
  unfold process_market_order, process_limit_order.
  destruct (type o);
    (destruct (match_orders now s3) as [s4|] eqn:H4; [|done]);
    cbn [mbind option_bind];
    (destruct (match_orders now s4) as [s5|] eqn:H5; [|done]);
    cbn [mbind option_bind]; intros [= _ <-]; eauto.
Qed.

Lemma cancel_order_accounted (id : Z) (s : State) :
  accounted s -> accounted (cancel_order id s).2.
Proof.
  intros Hacc. unfold cancel_order.
  destruct (orders_by_id_ (book s) !! id) as [order|]; [|done]. cbn [snd].
  apply (accounted_ledger s); [..|done];
    unfold remove_from_level; by destruct (side _).
Qed.

Lemma modify_order_accounted (now : time_point) (id q : Z) (prc : float)
    (s s' : State) (r : bool) :
  accounted s -> modify_order now id q prc s = Some (r, s') -> accounted s'.
Proof.
  intros Hacc. unfold modify_order.
  destruct (orders_by_id_ (book s) !! id) as [order|]; [|by intros [= _ <-]].
  set (o := deref (heap s) order). set (o' := set_quantity_price_timestamp _ _ _ _).
  set (s2 := set_heap _ _).
  assert (accounted (add_to_level o' order s2)) as H3.
  { apply add_to_level_ledger.
    apply (accounted_ledger s); [..|done];
      unfold s2, remove_from_level; by destruct (side o). }
  destruct (match_orders now _) as [s4|] eqn:H4; [|done]. cbn.
  intros [= _ <-]. apply (accounted_ledger s4); [done..|].
  by eapply match_orders_accounted.
Qed.

Lemma step_accounted (op : Op) (s s' : State) :
  accounted s -> step op s = Some s' -> accounted s'.
Proof.
  intros Hacc. destruct op as [p o|now order|id|now id q prc]; cbn [step].
  - intros [= <-]. by apply (accounted_ledger s).
  - destruct (add_order now order s) as [[r s1]|] eqn:H; [|done].
    intros [= <-]. by eapply add_order_accounted.
  - intros [= <-]. by apply cancel_order_accounted.
  - destruct (modify_order now id (u64 q) prc s) as [[r s1]|] eqn:H; [|done].
    intros [= <-]. by eapply modify_order_accounted.
Qed.

Lemma run_accounted (ops : list Op) (s s' : State) :
  accounted s -> run ops s = Some s' -> accounted s'.
Proof.
  revert s. induction ops as [|op ops IH]; intros s Hacc; cbn; [by intros [= <-]|].
  destruct (step op s) as [s1|] eqn:H1; [|done]. cbn.
  apply IH. by eapply step_accounted.
Qed.

(** ** The id map and the ladders agree *)

Lemma elem_of_ladder_ptrs (l : Ladder) (p : ptr) :
  p ∈ ladder_ptrs l <-> exists kv, kv ∈ l /\ p ∈ kv.2.
Proof.
  unfold ladder_ptrs. rewrite list_elem_of_join. split.
  - intros (v & Hp & Hv). apply list_elem_of_fmap in Hv as (kv & -> & Hkv). eauto.
  - intros (kv & Hkv & Hp). exists kv.2. split; [done|]. by apply list_elem_of_fmap_2.
Qed.

Lemma filled_only_key_fields (o o' : Order) : filled_only o o' -> key_fields o o'.
Proof. unfold filled_only. by intros ->. Qed.

Lemma key_fields_refl (o : Order) : key_fields o o.
Proof. done. Qed.

Lemma key_fields_trans (a b c : Order) :
  key_fields a b -> key_fields b c -> key_fields a c.
Proof. unfold key_fields. intros (-> & -> & ->) (-> & -> & ->). done. Qed.

Lemma numeric_heap_rel (h h' : gmap ptr Order) :
  (forall p o', h' !! p = Some o' ->
     is_number (price o') = true \/ exists o, h !! p = Some o /\ price o' = price o) ->
  numeric_heap h -> numeric_heap h'.
Proof.
  intros Hrel Hn p o' Hp. destruct (Hrel p o' Hp) as [?|(o & Ho & ->)]; [done|].
  by eapply Hn.
Qed.

Section Indexed.
Variable sd : OrderSide.
Variable comp : float -> float -> bool.
Hypothesis comp_trans :
  forall a b c, comp a b = true -> comp b c = true -> comp a c = true.
Hypothesis comp_irrefl : forall a, comp a a = false.
Hypothesis comp_equiv_l :
  forall a b c, is_number a = true -> is_number b = true ->
    comp a b = false -> comp b a = false -> comp b c = true -> comp a c = true.

(** A pointer is not indexed at two keys one of which is before the other. *)
Lemma indexed_one_key (h : gmap ptr Order) (ids : gmap Z ptr) (k k2 : float) (p : ptr) :
  numeric_heap h -> is_number k = true ->
  indexed h ids sd comp k p -> indexed h ids sd comp k2 p ->
  comp k k2 = true -> False.
Proof.
  intros Hn Hk (o & Ho & _ & _ & [H1 H2]) (o2 & Ho2 & _ & _ & [H3 _]) Hlt.
  assert (o2 = o) as -> by congruence.
  assert (comp (price o) k2 = true) as H4.
  { apply (comp_equiv_l (price o) k k2); [by eapply Hn|done..]. }
  congruence.
Qed.

(** After [find(k)] and an update of what was found, every entry whose key
    is equivalent to [k] has been updated. *)
Lemma map_adjust_at (f : list ptr -> list ptr) (k : float) (m : Ladder)
    (kv : float * list ptr) :
  sorted comp m -> Forall (fun kv => is_number kv.1 = true) m -> is_number k = true ->
  kv ∈ map_adjust comp f k m -> key_match comp k kv.1 ->
  exists v, (kv.1, v) ∈ m /\ kv.2 = f v.
Proof.
  intros Hs Hnum Hk. induction m as [|[k' v'] m IH]; cbn; [by intros ?%elem_of_nil|].
  destruct Hs as [Hall Hs]. apply Forall_cons in Hnum as [Hk' Hnum]. cbn in Hk'.
  rewrite Forall_forall in Hall.
  destruct (comp k' k) eqn:E1; [|destruct (comp k k') eqn:E2].
  - intros [-> |Hin]%elem_of_cons Hkm; [destruct Hkm as [_ Hm]; cbn in Hm; congruence|].
    destruct (IH Hs Hnum Hin Hkm) as (v & Hv & Hf).
    exists v. split; [by right|done].
  - intros [-> |Hin]%elem_of_cons [Hm _]; [cbn in Hm; congruence|].
    specialize (Hall _ Hin). cbn in Hall.
    pose proof (comp_trans _ _ _ E2 Hall). congruence.
  - intros [-> |Hin]%elem_of_cons [Hm _]; [exists v'; split; [left|done]|].
    specialize (Hall _ Hin). cbn in Hall.
    pose proof (comp_equiv_l k k' kv.1 Hk Hk' E2 E1 Hall). congruence.
Qed.

(** Every entry after [m[k] = f (m[k])]: an old entry, the entry found, or
    the entry created. *)
Lemma map_upsert_at (f : list ptr -> list ptr) (k : float) (m : Ladder)
    (kv : float * list ptr) :
  kv ∈ map_upsert comp [] f k m ->
  kv ∈ m \/ (exists v, (kv.1, v) ∈ m /\ kv.2 = f v /\ key_match comp k kv.1) \/
  kv = (k, f []).
Proof.
  induction m as [|[k' v'] m IH]; cbn.
  - intros ->%list_elem_of_singleton. by right; right.
  - destruct (comp k' k) eqn:E1; [|destruct (comp k k') eqn:E2].
    + intros [-> |Hin]%elem_of_cons; [left; left|].
      destruct (IH Hin) as [?|[(v & ? & ? & ?)|?]]; [left; by right| |by right; right].
      right; left. exists v. split; [by right|done].
    + intros [-> |Hin]%elem_of_cons; [by right; right|by left].
    + intros [-> |Hin]%elem_of_cons; [|left; by right].
      right; left. exists v'. split; [left|done].
Qed.

Lemma ladder_indexed_elem (h : gmap ptr Order) (ids : gmap Z ptr) (l : Ladder)
    (kv : float * list ptr) (p : ptr) :
  ladder_indexed h ids sd comp l -> kv ∈ l -> p ∈ kv.2 ->
  is_number kv.1 = true /\ indexed h ids sd comp kv.1 p.
Proof.
  unfold ladder_indexed. rewrite Forall_forall. intros Hl Hkv Hp.
  destruct (Hl _ Hkv) as (Hk & _ & Hall). rewrite Forall_forall in Hall. auto.
Qed.

(** A pointer of the head level is in no other level. *)
Lemma head_ptr_once (h : gmap ptr Order) (ids : gmap Z ptr) (k : float)
    (v : list ptr) (m : Ladder) (kv : float * list ptr) (p : ptr) :
  numeric_heap h -> sorted comp ((k, v) :: m) ->
  ladder_indexed h ids sd comp ((k, v) :: m) ->
  p ∈ v -> kv ∈ m -> p ∈ kv.2 -> False.
Proof.
  intros Hn [Hall _] Hl Hp Hkv Hp2.
  destruct (ladder_indexed_elem h ids _ (k, v) p Hl) as [Hk Hi]; [left|done|].
  destruct (ladder_indexed_elem h ids _ kv p Hl) as [_ Hi2]; [by right|done|].
  rewrite Forall_forall in Hall.
  exact (indexed_one_key h ids k kv.1 p Hn Hk Hi Hi2 (Hall _ Hkv)).
Qed.

(** The levels shrink and what is known of their pointers still holds. *)
Lemma ladder_indexed_sub (h h' : gmap ptr Order) (ids ids' : gmap Z ptr)
    (l l' : Ladder) :
  ladder_indexed h ids sd comp l ->
  (forall kv', kv' ∈ l' ->
     exists v, (kv'.1, v) ∈ l /\ (NoDup v -> NoDup kv'.2) /\
       forall p, p ∈ kv'.2 -> p ∈ v /\
         (indexed h ids sd comp kv'.1 p -> indexed h' ids' sd comp kv'.1 p)) ->
  ladder_indexed h' ids' sd comp l'.
Proof.
  unfold ladder_indexed. rewrite !Forall_forall. intros Hl Hsub kv' Hkv'.
  destruct (Hsub kv' Hkv') as (v & Hv & Hnd & Hp).
  destruct (Hl _ Hv) as (Hk & Hnd' & Hall). cbn in *.
  split; [done|]. split; [by apply Hnd|].
  rewrite Forall_forall in Hall |- *. intros p Hin.
  destruct (Hp p Hin) as [Hpv Hi]. by apply Hi, Hall.
Qed.

(** No pointer that is left after [remove_from_*_level(price, id)] points to
    the order that the id map has for [id]. *)
Lemma removed_from_ladder (h : gmap ptr Order) (ids : gmap Z ptr) (id : Z)
    (order : ptr) (l : Ladder) (kv : float * list ptr) :
  numeric_heap h -> ids_name_orders h ids -> sorted comp l ->
  ladder_indexed h ids sd comp l -> ids !! id = Some order ->
  kv ∈ map_adjust comp (level_remove h id) (price (deref h order)) l ->
  order ∉ kv.2.
Proof.
  intros Hn Hids Hs Hl Hid Hkv Hin.
  destruct (Hids id order Hid) as (o & Ho & Hoid).
  rewrite (deref_Some _ _ _ Ho) in Hkv.
  assert (forall v, kv.2 = level_remove h id v -> False) as Hfilter.
  { intros v Hv. rewrite Hv in Hin. unfold level_remove in Hin.
    apply list_elem_of_filter in Hin as [Hne _].
    by rewrite (deref_Some _ _ _ Ho) in Hne. }
  destruct (map_adjust_elem _ _ _ _ _ Hkv) as [Hold|(v & _ & Hv)]; [|by eapply Hfilter].
  destruct (ladder_indexed_elem h ids l kv order Hl Hold Hin)
    as [_ (o' & Ho' & _ & _ & Hm)].
  assert (o' = o) as -> by congruence.
  destruct (map_adjust_at (level_remove h id) (price o) l kv Hs) as (v & _ & Hv);
    [|by eapply Hn|done..|by eapply Hfilter].
  unfold ladder_indexed in Hl. eapply Forall_impl; [exact Hl|]. by intros ? (? & _).
Qed.

End Indexed.

Lemma indexed_change (h h' : gmap ptr Order) (ids ids' : gmap Z ptr)
    (sd : OrderSide) (comp : float -> float -> bool) (k : float) (p : ptr) :
  (forall o, h !! p = Some o -> exists o', h' !! p = Some o' /\ key_fields o o') ->
  (forall o, h !! p = Some o -> ids !! order_id o = Some p ->
             ids' !! order_id o = Some p) ->
  indexed h ids sd comp k p -> indexed h' ids' sd comp k p.
Proof.
  intros Hh Hids (o & Ho & Hs & Hi & Hm).
  destruct (Hh o Ho) as (o' & Ho' & Hs' & Hp' & Hi').
  exists o'. rewrite Hs', Hp', Hi'. eauto.
Qed.

Lemma is_number_zero : is_number 0%float = true.
Proof. reflexivity. Qed.

Lemma numeric_heap_fill (p : ptr) (qty : Z) (h : gmap ptr Order) :
  numeric_heap h -> numeric_heap (fill p qty h).
Proof.
  intros Hn q o. unfold fill. destruct (decide (p = q)) as [->|Hne].
  - rewrite lookup_insert_eq. intros [= <-]. cbn.
    unfold deref. rewrite lookup_total_alt.
    destruct (h !! q) as [o|] eqn:Hq; cbn; [by eapply Hn|done].
  - rewrite lookup_insert_ne by done. apply Hn.
Qed.

Lemma ids_name_orders_rel (h h' : gmap ptr Order) (ids ids' : gmap Z ptr) :
  heap_rel key_fields h h' ->
  (forall id p, ids' !! id = Some p -> ids !! id = Some p) ->
  ids_name_orders h ids -> ids_name_orders h' ids'.
Proof.
  intros Hrel Hsub Hids id p Hp.
  destruct (Hids id p (Hsub id p Hp)) as (o & Ho & Hoid).
  destruct (Hrel p o Ho) as (o' & Ho' & _ & _ & Hid'). exists o'. split; [done|congruence].
Qed.

Lemma relink_elem_eq (k : float) (l : list ptr) (others : Ladder)
    (kv : float * list ptr) :
  kv ∈ relink k l others -> kv ∈ others \/ kv = (k, l).
Proof.
  destruct l; cbn; [by left|]. intros [-> |?]%elem_of_cons; [by right|by left].
Qed.

(** An insertion of a pointer that is in no level. *)
Lemma ladder_indexed_upsert (sd : OrderSide) (comp : float -> float -> bool)
    (h h0 : gmap ptr Order) (ids : gmap Z ptr) (order : ptr) (o : Order) (l : Ladder) :
  (forall a, comp a a = false) ->
  ladder_indexed h ids sd comp l ->
  h !! order = Some o -> side o = sd -> is_number (price o) = true ->
  ids !! order_id o = Some order -> order ∉ ladder_ptrs l ->
  ladder_indexed h ids sd comp (map_upsert comp [] (level_push h0 order) (price o) l).
Proof.
  intros Hirr Hl Ho Hs Hnum Hid Hfresh. unfold ladder_indexed in *.
  rewrite Forall_forall in Hl |- *. intros kv Hkv.
  apply map_upsert_at in Hkv as [Hold|[(v & Hv & Hpush & Hm)| ->]].
  - by apply Hl.
  - destruct (Hl _ Hv) as (Hk & Hnd & Hall). cbn in Hk, Hnd, Hall.
    split; [done|]. rewrite Hpush. split.
    + rewrite level_push_perm. apply NoDup_cons. split; [|done].
      intros Hin. apply Hfresh, elem_of_ladder_ptrs. by exists (kv.1, v).
    + rewrite level_push_perm. constructor; [|done]. by exists o.
  - split; [done|]. split.
    + change (NoDup (level_push h0 order [])).
      rewrite level_push_perm. apply NoDup_singleton.
    + change (Forall (indexed h ids sd comp (price o)) (level_push h0 order [])).
      rewrite level_push_perm. constructor; [|done]. exists o.
      repeat split; try done; apply Hirr.
Qed.

Lemma gtb_equiv_l' (a b c : float) :
  is_number a = true -> is_number b = true ->
  gtb a b = false -> gtb b a = false -> gtb b c = true -> gtb a c = true.
Proof. apply gtb_equiv_l. Qed.

(** Two pointers with the same id in the id map are the same pointer. *)
Lemma indexed_same_id (h : gmap ptr Order) (ids : gmap Z ptr)
    (sd sd' : OrderSide) (comp comp' : float -> float -> bool) (k k' : float)
    (p q : ptr) (op oq : Order) :
  indexed h ids sd comp k p -> indexed h ids sd' comp' k' q ->
  h !! p = Some op -> h !! q = Some oq -> order_id op = order_id oq -> p = q.
Proof.
  intros (o1 & H1 & _ & I1 & _) (o2 & H2 & _ & I2 & _) Hp Hq E.
  assert (o1 = op) as -> by congruence. assert (o2 = oq) as -> by congruence.
  rewrite E in I1. congruence.
Qed.

Lemma indexed_side (h : gmap ptr Order) (ids : gmap Z ptr) (sd : OrderSide)
    (comp : float -> float -> bool) (k : float) (p : ptr) (o : Order) :
  indexed h ids sd comp k p -> h !! p = Some o -> side o = sd.
Proof. intros (o' & H' & Hs & _) Ho. congruence. Qed.

(** *** The matching loop keeps the index *)

Lemma match_step_index (now : time_point) (s s' : State) :
  ordered (book s) -> index_inv s -> match_step now s = Some s' -> index_inv s'.
Proof.
  intros (Sb & Sa & _) (Hn & Hids & Hb & Ha) H.
  pose proof (match_step_heap _ _ _ H) as Hrel.
  apply (heap_rel_weaken _ key_fields) in Hrel; [|apply filled_only_key_fields].
  apply match_step_Some in H
    as (bb & buy & rb & bids' & ba & sell & ra & asks' & Eb & Ea & _ & H).
  cbv zeta in H. destruct H as (Hh & Hb' & Ha' & _ & _ & _ & _ & Hids').
  rewrite <- Hh in Hb', Ha', Hids'.
  rewrite Eb in Sb, Hb. rewrite Ea in Sa, Ha.
  destruct (ladder_indexed_elem BUY gtb _ _ _ (bb, buy :: rb) buy Hb)
    as [Hkb Hib]; [left|left|].
  destruct (ladder_indexed_elem SELL PrimFloat.ltb _ _ _ (ba, sell :: ra) sell Ha)
    as [Hka Hia]; [left|left|].
  destruct Hib as (ob & Hob & Sob & Iob & Mob).
  destruct Hia as (oa & Hoa & Soa & Ioa & Moa).
  destruct (Hrel buy ob Hob) as (ob' & Hob' & _ & _ & Eob).
  destruct (Hrel sell oa Hoa) as (oa' & Hoa' & _ & _ & Eoa).
  rewrite (deref_Some _ _ _ Hob'), (deref_Some _ _ _ Hoa') in *.
  rewrite Eob, Eoa in Hids'.
  assert (NoDup (buy :: rb)) as Hndb.
  { unfold ladder_indexed in Hb. apply Forall_cons in Hb as [(_ & ? & _) _]. done. }
  assert (NoDup (sell :: ra)) as Hnda.
  { unfold ladder_indexed in Ha. apply Forall_cons in Ha as [(_ & ? & _) _]. done. }
  (* the ids of the pointers that stay survive the two erasures *)
  assert (forall p op, heap s !! p = Some op ->
            orders_by_id_ (book s) !! order_id op = Some p ->
            (is_filled ob' = true -> p <> buy) ->
            (is_filled oa' = true -> p <> sell) ->
            orders_by_id_ (book s') !! order_id op = Some p) as Hkeep.
  { intros p op Hp Hi Hnb Hna. rewrite Hids'.
    assert (is_filled ob' = true -> order_id ob <> order_id op) as Hb1.
    { intros Hf E. apply (Hnb Hf). rewrite E in Iob. congruence. }
    assert (is_filled oa' = true -> order_id oa <> order_id op) as Ha1.
    { intros Hf E. apply (Hna Hf). rewrite E in Ioa. congruence. }
    destruct (is_filled oa'), (is_filled ob'); cbn;
      repeat (rewrite lookup_delete_ne by auto); done. }
  assert (forall p op, heap s !! p = Some op ->
            exists o', heap s' !! p = Some o' /\ key_fields op o') as Hheap.
  { intros p op Hp. apply (Hrel p op Hp). }
  assert (forall p k, indexed (heap s) (orders_by_id_ (book s)) BUY gtb k p ->
            p <> sell) as Hbs.
  { intros p k Hi ->. pose proof (indexed_side _ _ _ _ _ _ _ Hi Hoa). congruence. }
  assert (forall p k, indexed (heap s) (orders_by_id_ (book s)) SELL PrimFloat.ltb k p ->
            p <> buy) as Hsb.
  { intros p k Hi ->. pose proof (indexed_side _ _ _ _ _ _ _ Hi Hob). congruence. }
  split; [|split; [|split]].
  - rewrite Hh. by do 2 apply numeric_heap_fill.
  - apply (ids_name_orders_rel (heap s) _ (orders_by_id_ (book s))); [done| |done].
    intros id p. rewrite Hids'.
    destruct (is_filled oa'), (is_filled ob'); cbn; intros H;
      repeat (apply lookup_delete_Some in H as [_ H]); exact H.
  - rewrite Hb'. eapply (ladder_indexed_sub BUY gtb); [exact Hb|].
    intros kv' [Htail| ->]%relink_elem_eq.
    + exists kv'.2. split; [right; by destruct kv'|]. split; [done|].
      intros p Hp. split; [done|]. intros Hi.
      destruct Hi as (op & Hop & Hi).
      apply (indexed_change (heap s) _ (orders_by_id_ (book s))); [by apply Hheap| |by exists op].
      intros o Ho Hio. apply Hkeep; [done..| |].
      * intros _ ->. eapply (head_ptr_once BUY gtb); try done.
        -- apply gtb_equiv_l.
        -- left.
      * intros _. by apply (Hbs p kv'.1); exists op.
    + exists (buy :: rb). split; [left|]. split.
      { intros _. destruct (is_filled ob'); [by apply NoDup_cons in Hndb as [_ ?]|done]. }
      intros p Hp.
      assert (p ∈ buy :: rb) as Hp'.
      { destruct (is_filled ob'); [by right|done]. }
      split; [done|]. intros Hi.
      apply (indexed_change (heap s) _ (orders_by_id_ (book s))); [by apply Hheap| |done].
      intros o Ho Hio. apply Hkeep; [done..| |].
      * intros Hf ->. rewrite Hf in Hp. by apply NoDup_cons in Hndb as [? _].
      * intros _. by apply (Hbs p bb).
  - rewrite Ha'. eapply (ladder_indexed_sub SELL PrimFloat.ltb); [exact Ha|].
    intros kv' [Htail| ->]%relink_elem_eq.
    + exists kv'.2. split; [right; by destruct kv'|]. split; [done|].
      intros p Hp. split; [done|]. intros Hi.
      destruct Hi as (op & Hop & Hi).
      apply (indexed_change (heap s) _ (orders_by_id_ (book s))); [by apply Hheap| |by exists op].
      intros o Ho Hio. apply Hkeep; [done..| |].
      * intros _. by apply (Hsb p kv'.1); exists op.
      * intros _ ->. eapply (head_ptr_once SELL PrimFloat.ltb); try done.
        -- apply ltb_equiv_l.
        -- left.
    + exists (sell :: ra). split; [left|]. split.
      { intros _. destruct (is_filled oa'); [by apply NoDup_cons in Hnda as [_ ?]|done]. }
      intros p Hp.
      assert (p ∈ sell :: ra) as Hp'.
      { destruct (is_filled oa'); [by right|done]. }
      split; [done|]. intros Hi.
      apply (indexed_change (heap s) _ (orders_by_id_ (book s))); [by apply Hheap| |done].
      intros o Ho Hio. apply Hkeep; [done..| |].
      * intros _. by apply (Hsb p ba).
      * intros Hf ->. rewrite Hf in Hp. by apply NoDup_cons in Hnda as [? _].
Qed.

Lemma match_orders_index (now : time_point) (s s' : State) :
  ordered (book s) -> index_inv s -> match_orders now s = Some s' -> index_inv s'.
Proof.
  intros Ho Hi H. unfold match_orders in H.
  eapply (match_loop_ind (fun s => ordered (book s) /\ index_inv s)); [|by split|done].
  intros s1 s2 [Ho1 Hi1] Hs. split; [by eapply match_step_ordered|].
  by eapply match_step_index.
Qed.

(** *** The public operations keep the index *)

Lemma add_order_accepting (now : time_point) (order : ptr) (o : Order) (s : State) :
  heap s !! order = Some o -> ~ refused order s ->
  add_order now order s =
    (s4 ← match_orders now (add_order_entered o order s);
     s5 ← match_orders now s4; Some (true, s5)).
Proof.
  intros Ho Hok. unfold refused, add_order in *. rewrite Ho in *.
  destruct (String.eqb_spec (symbol o) (symbol_ (book s))) as [_|Hne];
    [|exfalso; apply Hok; by left].
  cbn [negb].
  destruct (orders_by_id_ (book s) !! order_id o) as [p|];
    [exfalso; apply Hok; by right|].
  unfold process_market_order, process_limit_order. by destruct (type o).
Qed.

Lemma add_order_refusing (now : time_point) (order : ptr) (s : State) :
  refused order s -> add_order now order s = Some (false, s).
Proof.
  unfold refused, add_order. destruct (heap s !! order) as [o|]; [|done].
  intros [Hsym|[p Hid]].
  - apply String.eqb_neq in Hsym. by rewrite Hsym.
  - rewrite Hid. by destruct (negb _).
Qed.

Lemma refused_dec (order : ptr) (s : State) : refused order s \/ ~ refused order s.
Proof.
  unfold refused. destruct (heap s !! order) as [o|]; [|by left].
  destruct (decide (symbol o = symbol_ (book s))) as [E|Hne]; [|left; by left].
  destruct (orders_by_id_ (book s) !! order_id o) as [p|]; [left; right; by exists p|].
  right. intros [?|[p Hp]]; done.
Qed.

Lemma add_order_entered_index (o : Order) (order : ptr) (s : State) :
  heap s !! order = Some o -> orders_by_id_ (book s) !! order_id o = None ->
  index_inv s -> index_inv (add_order_entered o order s).
Proof.
  intros Ho Hnone (Hn & Hids & Hb & Ha).
  set (ids1 := <[order_id o := order]> (orders_by_id_ (book s))).
  assert (forall sd comp k p, indexed (heap s) (orders_by_id_ (book s)) sd comp k p ->
                              indexed (heap s) ids1 sd comp k p) as Hmono.
  { intros sd comp k p. apply indexed_change.
    - intros op Hop. exists op. by split.
    - intros op Hop Hi. unfold ids1. rewrite lookup_insert_ne; [done|]. congruence. }
  assert (forall sd comp l, ladder_indexed (heap s) (orders_by_id_ (book s)) sd comp l ->
                            ladder_indexed (heap s) ids1 sd comp l) as Hlad.
  { intros sd comp l Hl. unfold ladder_indexed in *.
    eapply Forall_impl; [exact Hl|]. intros kv (Hk & Hnd & Hall).
    split; [done|]. split; [done|]. eapply Forall_impl; [exact Hall|]. apply Hmono. }
  assert (forall sd comp l, ladder_indexed (heap s) (orders_by_id_ (book s)) sd comp l ->
                            order ∉ ladder_ptrs l) as Hfresh.
  { intros sd comp l Hl (kv & Hkv & Hp)%elem_of_ladder_ptrs.
    destruct (ladder_indexed_elem sd comp _ _ _ kv order Hl Hkv Hp)
      as [_ (o' & Ho' & _ & Hi & _)].
    congruence. }
  assert (ids_name_orders (heap s) ids1) as Hids1.
  { intros id p. unfold ids1. destruct (decide (order_id o = id)) as [<-|Hne].
    - rewrite lookup_insert_eq. intros [= <-]. by exists o.
    - rewrite lookup_insert_ne by done. apply Hids. }
  assert (ids1 !! order_id o = Some order) as Hi1 by apply lookup_insert_eq.
  unfold index_inv, add_order_entered, add_to_level.
  destruct (side o) eqn:Hs; cbn; (split; [done|]); (split; [done|]); split; eauto.
  - apply (ladder_indexed_upsert BUY gtb _ _ _ _ o); eauto using gtb_irrefl.
  - apply (ladder_indexed_upsert SELL PrimFloat.ltb _ _ _ _ o); eauto using ltb_irrefl.
Qed.

Lemma add_order_entered_inv (o : Order) (order : ptr) (s : State) :
  heap s !! order = Some o -> book_inv s ->
  well_formed (add_order_entered o order s) /\
  ordered (book (add_order_entered o order s)) /\
  heap (add_order_entered o order s) = heap s.
Proof.
  intros Ho [Hwf Hset]. unfold add_order_entered.
  set (s1 := upd_book _ s). split; [|split].
  - apply (add_to_level_well_formed o order s1 Ho Hwf).
  - apply (add_to_level_ordered o order s1 (settled_ordered _ Hset));
      intros _; apply Hset.
  - cbn. by rewrite add_to_level_heap.
Qed.

Lemma add_order_index (now : time_point) (order : ptr) (s s' : State) (r : bool) :
  book_inv s -> index_inv s -> add_order now order s = Some (r, s') -> index_inv s'.
Proof.
  intros Hinv Hidx. destruct (refused_dec order s) as [Hr|Hok].
  { rewrite (add_order_refusing now order s Hr). by intros [= _ <-]. }
  destruct (heap s !! order) as [o|] eqn:Ho.
  2:{ exfalso. apply Hok. unfold refused. by rewrite Ho. }
  rewrite (add_order_accepting now order o s Ho Hok).
  destruct (add_order_entered_inv o order s Ho Hinv) as (Hwf3 & Ho3 & _).
  assert (index_inv (add_order_entered o order s)) as Hi3.
  { apply add_order_entered_index; [done| |done].
    unfold refused in Hok. rewrite Ho in Hok.
    destruct (orders_by_id_ (book s) !! order_id o) eqn:E; [|done].
    exfalso. apply Hok. right. by eexists. }
  destruct (match_orders_spec now _ Hwf3 Ho3) as (s4 & Hs4 & Hwf4 & Ho4 & _).
  rewrite Hs4. cbn [mbind option_bind].
  destruct (match_orders now s4) as [s5|] eqn:Hs5; [|done]. cbn.
  intros [= _ <-]. eapply match_orders_index; [exact Ho4| |exact Hs5].
  exact (match_orders_index now _ s4 Ho3 Hi3 Hs4).
Qed.

Lemma ladder_indexed_drop_empty (sd : OrderSide) (comp : float -> float -> bool)
    (h : gmap ptr Order) (ids : gmap Z ptr) (l : Ladder) :
  ladder_indexed h ids sd comp l -> ladder_indexed h ids sd comp (drop_empty l).
Proof.
  unfold ladder_indexed, drop_empty. rewrite !Forall_forall.
  intros Hl kv [_ Hkv]%list_elem_of_filter. by apply Hl.
Qed.

Lemma ladder_ptrs_drop_empty (l : Ladder) (p : ptr) :
  p ∈ ladder_ptrs (drop_empty l) -> p ∈ ladder_ptrs l.
Proof.
  rewrite !elem_of_ladder_ptrs. intros (kv & [_ Hkv]%list_elem_of_filter & Hp). eauto.
Qed.

(** The same ladder seen over another store and another id map. *)
Lemma ladder_indexed_change (sd : OrderSide) (comp : float -> float -> bool)
    (h h' : gmap ptr Order) (ids ids' : gmap Z ptr) (l : Ladder) :
  (forall p k, p ∈ ladder_ptrs l ->
     indexed h ids sd comp k p -> indexed h' ids' sd comp k p) ->
  ladder_indexed h ids sd comp l -> ladder_indexed h' ids' sd comp l.
Proof.
  intros Hch Hl. unfold ladder_indexed in *. rewrite Forall_forall in Hl |- *.
  intros kv Hkv. destruct (Hl kv Hkv) as (Hk & Hnd & Hall).
  split; [done|]. split; [done|]. rewrite Forall_forall in Hall |- *.
  intros p Hp. apply Hch; [|by apply Hall].
  apply elem_of_ladder_ptrs. eauto.
Qed.

Lemma ladder_indexed_adjust (sd : OrderSide) (comp : float -> float -> bool)
    (h h0 : gmap ptr Order) (ids : gmap Z ptr) (id : Z) (k : float) (l : Ladder) :
  ladder_indexed h ids sd comp l ->
  ladder_indexed h ids sd comp (map_adjust comp (level_remove h0 id) k l).
Proof.
  intros Hl. unfold ladder_indexed in *. rewrite Forall_forall in Hl |- *.
  intros kv [Hold|(v & Hv & Hf)]%map_adjust_elem; [by apply Hl|].
  destruct (Hl _ Hv) as (Hk & Hnd & Hall). cbn in *.
  split; [done|]. rewrite Hf. unfold level_remove. split; [by apply NoDup_filter|].
  rewrite Forall_forall in Hall |- *. intros p [_ Hp]%list_elem_of_filter. by apply Hall.
Qed.

(** After the removal step of [cancel_order] and [modify_order] the order
    that the id map has for the id is in no level, and the ladders are
    still indexed. *)
Lemma remove_from_level_index (id : Z) (order : ptr) (s : State) :
  settled (book s) -> index_inv s -> orders_by_id_ (book s) !! id = Some order ->
  let s1 := remove_from_level (deref (heap s) order) id s in
  (order ∉ ladder_ptrs (bids_ (book s1))) /\
  (order ∉ ladder_ptrs (asks_ (book s1))) /\
  ladder_indexed (heap s) (orders_by_id_ (book s)) BUY gtb (bids_ (book s1)) /\
  ladder_indexed (heap s) (orders_by_id_ (book s)) SELL PrimFloat.ltb (asks_ (book s1)).
Proof.
  intros (Sb & Sa & _) (Hn & Hids & Hb & Ha) Hid. cbv zeta.
  destruct (Hids id order Hid) as (o & Ho & Hoid).
  unfold remove_from_level. destruct (side (deref (heap s) order)) eqn:Hs; cbn.
  - split; [|split; [|split; [by apply ladder_indexed_adjust|done]]].
    + intros (kv & Hkv & Hp)%elem_of_ladder_ptrs.
      by eapply (removed_from_ladder BUY gtb gtb_trans gtb_equiv_l).
    + intros (kv & Hkv & Hp)%elem_of_ladder_ptrs.
      destruct (ladder_indexed_elem SELL PrimFloat.ltb _ _ _ kv order Ha Hkv Hp) as [_ Hi].
      pose proof (indexed_side _ _ _ _ _ _ _ Hi Ho).
      rewrite (deref_Some _ _ _ Ho) in Hs. congruence.
  - split; [|split; [|split; [done|by apply ladder_indexed_adjust]]].
    + intros (kv & Hkv & Hp)%elem_of_ladder_ptrs.
      destruct (ladder_indexed_elem BUY gtb _ _ _ kv order Hb Hkv Hp) as [_ Hi].
      pose proof (indexed_side _ _ _ _ _ _ _ Hi Ho).
      rewrite (deref_Some _ _ _ Ho) in Hs. congruence.
    + intros (kv & Hkv & Hp)%elem_of_ladder_ptrs.
      by eapply (removed_from_ladder SELL PrimFloat.ltb ltb_trans ltb_equiv_l).
Qed.

Lemma key_fields_set_status (st : OrderStatus) (o : Order) :
  key_fields o (set_status st o).
Proof. done. Qed.

Lemma heap_rel_key_fields_store (p : ptr) (o' : Order) (h : gmap ptr Order) :
  (forall o, h !! p = Some o -> key_fields o o') ->
  heap_rel key_fields h (<[p := o']> h).
Proof.
  intros Hk q o Hq. destruct (decide (p = q)) as [->|Hne].
  - rewrite lookup_insert_eq. exists o'. split; [done|by apply Hk].
  - rewrite lookup_insert_ne by done. by exists o.
Qed.

Lemma cancel_order_fields (id : Z) (order : ptr) (s : State) :
  orders_by_id_ (book s) !! id = Some order ->
  let s' := (cancel_order id s).2 in
  let s1 := remove_from_level (deref (heap s) order) id s in
  heap s' = <[order := set_status CANCELLED (deref (heap s) order)]> (heap s) /\
  orders_by_id_ (book s') = delete id (orders_by_id_ (book s)) /\
  bids_ (book s') = drop_empty (bids_ (book s1)) /\
  asks_ (book s') = drop_empty (asks_ (book s1)).
Proof.
  intros Hid. unfold cancel_order. rewrite Hid. cbn.
  unfold remove_from_level. by destruct (side _).
Qed.

(** [cancel_order] keeps the index, and the order it cancels is in no level
    afterwards. *)
Lemma cancel_order_index (id : Z) (s : State) :
  settled (book s) -> index_inv s ->
  index_inv (cancel_order id s).2 /\
  forall order, orders_by_id_ (book s) !! id = Some order ->
    (order ∉ ladder_ptrs (bids_ (book (cancel_order id s).2))) /\
    (order ∉ ladder_ptrs (asks_ (book (cancel_order id s).2))).
Proof.
  intros Hset Hidx.
  destruct (orders_by_id_ (book s) !! id) as [order|] eqn:Hid.
  2:{ rewrite (cancel_order_absent id s Hid). by split. }
  destruct (remove_from_level_index id order s Hset Hidx Hid)
    as (Hfb & Hfa & Hb1 & Ha1).
  destruct (cancel_order_fields id order s Hid) as (Eh & Ei & Eb & Ea).
  destruct Hidx as (Hn & Hids & _ & _).
  destruct (Hids id order Hid) as (o & Ho & Hoid).
  unfold index_inv. rewrite Eh, Ei, Eb, Ea. rewrite (deref_Some _ _ _ Ho) in *.
  set (h' := <[order := set_status CANCELLED o]> (heap s)).
  set (ids' := delete id (orders_by_id_ (book s))).
  assert (heap_rel key_fields (heap s) h') as Hrel.
  { apply heap_rel_key_fields_store. intros o0 Ho0.
    assert (o0 = o) as -> by congruence. apply key_fields_set_status. }
  assert (forall sd comp l, order ∉ ladder_ptrs l ->
            ladder_indexed (heap s) (orders_by_id_ (book s)) sd comp l ->
            ladder_indexed h' ids' sd comp (drop_empty l)) as Hlad.
  { intros sd comp l Hfresh Hl. apply ladder_indexed_drop_empty.
    eapply ladder_indexed_change; [|exact Hl].
    intros p k Hp. apply indexed_change; [by apply Hrel|].
    intros op Hop Hi. unfold ids'. rewrite lookup_delete_ne; [done|].
    intros E. rewrite <- E in Hi. congruence. }
  split; [split; [|split; [|split]]|].
  - intros p o'. unfold h'. destruct (decide (order = p)) as [->|Hne].
    + rewrite lookup_insert_eq. intros [= <-]. by apply (Hn p o).
    + rewrite lookup_insert_ne by done. apply Hn.
  - apply (ids_name_orders_rel (heap s) _ (orders_by_id_ (book s))); [done| |done].
    intros id' p. unfold ids'. by intros [_ ?]%lookup_delete_Some.
  - by apply Hlad.
  - by apply Hlad.
  - intros order' [= <-]. split; intros Hp%ladder_ptrs_drop_empty; done.
Qed.

(** An order that is in the id map and in no level is put into the level of
    its price. *)
Lemma add_to_level_index (o : Order) (order : ptr) (s : State) :
  index_inv s -> heap s !! order = Some o ->
  orders_by_id_ (book s) !! order_id o = Some order ->
  order ∉ ladder_ptrs (bids_ (book s)) -> order ∉ ladder_ptrs (asks_ (book s)) ->
  index_inv (add_to_level o order s).
Proof.
  intros (Hn & Hids & Hb & Ha) Ho Hid Hfb Hfa.
  pose proof (Hn order o Ho) as Hnum.
  unfold index_inv, add_to_level.
  destruct (side o) eqn:Hs; cbn; (split; [done|]); (split; [done|]); split; try done.
  - apply (ladder_indexed_upsert BUY gtb _ _ _ _ o); eauto using gtb_irrefl.
  - apply (ladder_indexed_upsert SELL PrimFloat.ltb _ _ _ _ o); eauto using ltb_irrefl.
Qed.

Lemma modify_order_entered_index (now : time_point) (id q : Z) (prc : float)
    (order : ptr) (s : State) :
  is_number prc = true -> settled (book s) -> index_inv s ->
  orders_by_id_ (book s) !! id = Some order ->
  index_inv (modify_order_entered now id q prc order s).
Proof.
  intros Hprc Hset Hidx Hid.
  destruct (remove_from_level_index id order s Hset Hidx Hid)
    as (Hfb & Hfa & Hb1 & Ha1).
  destruct Hidx as (Hn & Hids & _ & _).
  destruct (Hids id order Hid) as (o & Ho & Hoid).
  unfold modify_order_entered. rewrite (deref_Some _ _ _ Ho) in *.
  set (s1 := remove_from_level o id s) in *.
  assert (heap s1 = heap s) as Eh by apply remove_from_level_heap.
  assert (orders_by_id_ (book s1) = orders_by_id_ (book s)) as Ei.
  { unfold s1, remove_from_level. by destruct (side o). }
  set (o' := set_quantity_price_timestamp q prc now o).
  rewrite Eh. set (h' := <[order := o']> (heap s)).
  assert (forall sd comp l, order ∉ ladder_ptrs l ->
            ladder_indexed (heap s) (orders_by_id_ (book s)) sd comp l ->
            ladder_indexed h' (orders_by_id_ (book s)) sd comp l) as Hlad.
  { intros sd comp l Hfresh Hl. eapply ladder_indexed_change; [|exact Hl].
    intros p k Hp. apply indexed_change; [|done].
    intros op Hop. exists op. split; [|done].
    unfold h'. rewrite lookup_insert_ne; [done|]. by intros <-. }
  apply add_to_level_index; cbn; rewrite ?Ei.
  - split; [|split; [|split]]; cbn; rewrite ?Ei.
    + intros p op. unfold h'. destruct (decide (order = p)) as [->|Hne].
      * rewrite lookup_insert_eq. by intros [= <-].
      * rewrite lookup_insert_ne by done. apply Hn.
    + intros id' p Hp. unfold h'. destruct (decide (order = p)) as [<-|Hne].
      * rewrite lookup_insert_eq. exists o'. split; [done|]. cbn.
        destruct (Hids id' order Hp) as (o0 & Ho0 & <-). congruence.
      * rewrite lookup_insert_ne by done. by apply Hids.
    + by apply Hlad.
    + by apply Hlad.
  - apply lookup_insert_eq.
  - cbn. by rewrite Hoid.
  - done.
  - done.
Qed.

Lemma index_inv_cleanup (s : State) : index_inv s -> index_inv (cleanup_empty_levels s).
Proof.
  intros (Hn & Hids & Hb & Ha). unfold index_inv, cleanup_empty_levels. cbn.
  split; [done|]. split; [done|]. split; by apply ladder_indexed_drop_empty.
Qed.

(** [modify_order] keeps the index. *)
Lemma modify_order_index (now : time_point) (id q : Z) (prc : float)
    (s s' : State) (r : bool) :
  0 <= q < 2 ^ 64 -> is_number prc = true -> book_inv s -> index_inv s ->
  modify_order now id q prc s = Some (r, s') -> index_inv s'.
Proof.
  intros Hq Hprc Hinv Hidx.
  destruct (orders_by_id_ (book s) !! id) as [order|] eqn:Hid.
  2:{ rewrite (modify_order_absent now id q prc s Hid). by intros [= _ <-]. }
  rewrite (modify_order_found now id q prc order s Hid).
  destruct (modify_order_entered_inv now id q prc order s Hq Hinv) as (Hwf3 & Ho3 & _).
  pose proof (modify_order_entered_index now id q prc order s Hprc (proj2 Hinv) Hidx Hid)
    as Hi3.
  destruct (match_orders_spec now _ Hwf3 Ho3) as (s4 & Hs4 & _).
  rewrite Hs4. cbn. intros [= _ <-]. apply index_inv_cleanup.
  exact (match_orders_index now _ s4 Ho3 Hi3 Hs4).
Qed.

(** *** Every reachable state with prices that are numbers *)

Lemma index_inv_new (sym : string) : index_inv (State_new sym).
Proof.
  split; [|split; [|split]]; cbn.
  - intros p o. by rewrite lookup_empty.
  - intros id p. by rewrite lookup_empty.
  - constructor.
  - constructor.
Qed.

Lemma alloc_index (p : ptr) (o : Order) (s : State) :
  is_number (price o) = true -> index_inv s ->
  index_inv (set_heap (alloc p o (heap s)) s).
Proof.
  intros Hnum (Hn & Hids & Hb & Ha). unfold alloc.
  destruct (heap s !! p) as [o0|] eqn:Hp; [by destruct s|].
  destruct (typed_orderb o); [|by destruct s].
  assert (forall q oq, heap s !! q = Some oq -> <[p := o]> (heap s) !! q = Some oq) as Hsub.
  { intros q oq Hq. rewrite lookup_insert_ne; [done|]. intros <-. congruence. }
  assert (forall sd comp l, ladder_indexed (heap s) (orders_by_id_ (book s)) sd comp l ->
            ladder_indexed (<[p := o]> (heap s)) (orders_by_id_ (book s)) sd comp l)
    as Hlad.
  { intros sd comp l Hl. eapply ladder_indexed_change; [|exact Hl].
    intros q k _. apply indexed_change; [|done].
    intros oq Hq. exists oq. split; [by apply Hsub|done]. }
  split; [|split; [|split]]; cbn.
  - intros q oq. destruct (decide (p = q)) as [->|Hne].
    + rewrite lookup_insert_eq. by intros [= <-].
    + rewrite lookup_insert_ne by done. apply Hn.
  - intros id q Hq. destruct (Hids id q Hq) as (oq & Hoq & E). exists oq.
    split; [by apply Hsub|done].
  - by apply Hlad.
  - by apply Hlad.
Qed.

Lemma step_index (op : Op) (s s' : State) :
  numeric_op op = true -> book_inv s -> index_inv s -> step op s = Some s' ->
  index_inv s'.
Proof.
  intros Hnum Hinv Hidx. destruct op as [p o|now order|id|now id q prc]; cbn.
  - intros [= <-]. by apply alloc_index.
  - destruct (add_order now order s) as [[r s1]|] eqn:Ha; [|done]. cbn.
    intros [= <-]. by eapply add_order_index.
  - intros [= <-]. by apply cancel_order_index; [apply Hinv|].
  - destruct (modify_order now id (u64 q) prc s) as [[r s1]|] eqn:Hm; [|done]. cbn.
    intros [= <-]. eapply modify_order_index; [apply u64_range|exact Hnum|done..].
Qed.

Lemma run_index (ops : list Op) (s s' : State) :
  forallb numeric_op ops = true -> book_inv s -> index_inv s -> run ops s = Some s' ->
  book_inv s' /\ index_inv s'.
Proof.
  revert s. induction ops as [|op ops IH]; intros s Hnum Hinv Hidx; cbn.
  - intros [= <-]. by split.
  - cbn in Hnum. apply andb_prop in Hnum as [Hop Hops].
    destruct (step op s) as [s1|] eqn:Hs; [|done]. cbn.
    destruct (step_inv op s Hinv) as (s1' & Hs1 & Hinv1).
    assert (s1' = s1) as -> by congruence.
    apply IH; [done|done|]. exact (step_index op s s1 Hop Hinv Hidx Hs).
Qed.

(** ** Scenarios *)


Lemma early_state_inv : book_inv early_state.
Proof.
  destruct (run_inv [OpNew 1%N early_order] _ (book_inv_new "AAPL"))
    as (s & Hs & Hinv).
  vm_compute in Hs. injection Hs as <-. exact Hinv.
Qed.

(** ** The specification of the order book *)

(** C1 (the code departs from the claim). A MARKET order submitted to a book
    whose opposite side is empty is accepted and then rests: it sits in the
    bid ladder at its price field, it stays in the id map and is counted,
    its status is still PENDING, and no trade is recorded. *)
Theorem market_order_rests_in_book :
  exists s', add_order 2 1%N market_on_empty = Some (true, s') /\
    bids_ (book s') = [(0%float, [1%N])] /\ asks_ (book s') = [] /\
    orders_by_id_ (book s') !! 1 = Some 1%N /\
    get_order_count (book s') = 1 /\
    status (deref (heap s') 1%N) = PENDING /\
    remaining_quantity (deref (heap s') 1%N) = 50 /\
    trace s' = [].
Proof. eexists. split; [by vm_compute|]. by vm_compute. Qed.

(** C2, the claim as it stands fails: a LIMIT order of quantity 0 and a
    LIMIT order at price -1.0 are both accepted, and the book changes. *)
Lemma malformed_orders_are_accepted :
  (quantity zero_quantity_buy <= 0 /\
   exists s', add_order 2 1%N malformed_orders = Some (true, s') /\
              bids_ (book s') = [(150%float, [1%N])] /\ s' <> malformed_orders) /\
  (type negative_price_buy = LIMIT /\
   (price negative_price_buy <=? 0)%float = true /\
   exists s', add_order 2 2%N malformed_orders = Some (true, s') /\
              bids_ (book s') = [((-1)%float, [2%N])] /\ s' <> malformed_orders).
Proof.
  split.
  - split; [done|]. eexists. split; [by vm_compute|]. split; [by vm_compute|].
    intros E. apply (f_equal (fun s => bids_ (book s))) in E. by vm_compute in E.
  - split; [done|]. split; [by vm_compute|].
    eexists. split; [by vm_compute|]. split; [by vm_compute|].
    intros E. apply (f_equal (fun s => bids_ (book s))) in E. by vm_compute in E.
Qed.

(** C2 (amended). [add_order] returns false and leaves the state as it was
    whenever the pointer is null, the symbol of the order is not the symbol
    of the book, or the id of the order is in the id map; every other order
    is accepted, whatever its quantity and price. *)
Theorem add_order_refuses_symbol_and_duplicate_only :
  (forall now order s, refused order s -> add_order now order s = Some (false, s)) /\
  (forall now order s, book_inv s -> ~ refused order s ->
     exists s', add_order now order s = Some (true, s')).
Proof.
  split.
  - intros now order s. unfold refused, add_order.
    destruct (heap s !! order) as [o|]; [|done].
    intros [Hsym|[p Hid]].
    + apply String.eqb_neq in Hsym. by rewrite Hsym.
    + rewrite Hid. by destruct (negb _).
  - intros now order s Hinv Hok.
    destruct (add_order_inv now order s Hinv) as (r & s' & Hadd & _).
    exists s'. rewrite Hadd. destruct r; [done|exfalso]. apply Hok.
    unfold refused, add_order in *.
    destruct (heap s !! order) as [o|]; [|done].
    destruct (String.eqb_spec (symbol o) (symbol_ (book s))) as [_|Hne]; [|by left].
    cbn [negb] in Hadd. right.
    destruct (orders_by_id_ (book s) !! order_id o) as [p|]; [done|].
    unfold process_market_order, process_limit_order in Hadd.
    destruct (type o);
      (destruct (match_orders now _) as [s4|]; cbn [mbind option_bind] in Hadd;
       [|congruence]);
      destruct (match_orders now s4); cbn [mbind option_bind] in Hadd; congruence.
Qed.

Lemma add_order_refuses_symbol_and_duplicate_only_witness :
  refused 1%N (State_new "AAPL") /\
  add_order 2 1%N (State_new "AAPL") = Some (false, State_new "AAPL") /\
  book_inv early_state /\ ~ refused 1%N early_state /\
  exists s', add_order 9 1%N early_state = Some (true, s').
Proof.
  assert (refused 1%N (State_new "AAPL")) as H1 by done.
  assert (~ refused 1%N early_state) as H2.
  { unfold refused. cbn. rewrite lookup_insert_eq. intros [H|[p H]]; [done|].
    cbn in H. by rewrite lookup_empty in H. }
  split; [exact H1|]. split.
  - exact (proj1 add_order_refuses_symbol_and_duplicate_only 2 1%N _ H1).
  - split; [exact early_state_inv|]. split; [exact H2|].
    exact (proj2 add_order_refuses_symbol_and_duplicate_only 9 1%N _ early_state_inv H2).
Defined.









Lemma record_trade_recent (now : time_point) (prc : float) (qty : Z) (s : State) :
  MarketData_trade (symbol_ (book s)) now prc qty (u64 (total_trades_ (book s) + 1))
  ∈ recent_trades_ (book (record_trade now prc qty s)).
Proof.
  unfold record_trade. cbn [book recent_trades_].
  set (t := MarketData_trade _ _ _ _ _). destruct (_ <? _) eqn:E.
  - destruct (recent_trades_ (book s)) as [|x l]; [done|].
    cbn. apply elem_of_app. right. left.
  - apply elem_of_app. right. left.
Qed.

Lemma match_step_recent (now : time_point) (s s' : State) :
  match_step now s = Some s' ->
  exists t, trace s' = trace s ++ [t] /\ t ∈ recent_trades_ (book s').
Proof.
  intros H. unfold match_step in H.
  destruct (bids_ (book s)) as [|[bb [|buy rb]] bids'] eqn:Eb; try discriminate;
    destruct (asks_ (book s)) as [|[ba [|sell ra]] asks'] eqn:Ea; try discriminate;
    destruct (bb <? ba)%float eqn:Ecmp; try discriminate.
  eexists. unfold unlink_if_filled in H.
  destruct (is_filled _), (is_filled _); injection H as <-;
    (split; [reflexivity|apply record_trade_recent]).
Qed.

(** C5, the claim as it stands fails: after S1 neither order has status
    FILLED. *)
Lemma S1_orders_are_not_FILLED :
  exists s, run S1_ops (State_new "AAPL") = Some s /\
    status (deref (heap s) 1%N) <> FILLED /\
    status (deref (heap s) 2%N) <> FILLED.
Proof. eexists. split; [by vm_compute|]. by vm_compute. Qed.

(** C5 (amended). Every trade executed by the matching loop is priced at
    the midpoint [(B + A) / 2] (in double arithmetic) of the best bid [B]
    and the best ask [A] at match time.  For BUY 100 @ 150.00 followed by
    SELL 100 @ 149.00 on an empty book exactly one trade is recorded, of
    quantity 100 at price 149.50; both orders end fully filled
    ([is_filled()] holds, nothing remains) with status PENDING, and the
    book is empty. *)
Theorem trades_are_priced_at_the_midpoint :
  (forall now s s', match_step now s = Some s' ->
     exists t, trace s' = trace s ++ [t] /\ t ∈ recent_trades_ (book s') /\
       trade_price t
       = ((get_best_bid (book s) + get_best_ask (book s)) / 2)%float) /\
  (exists s t, run S1_ops (State_new "AAPL") = Some s /\
     trace s = [t] /\ recent_trades_ (book s) = [t] /\ get_trade_count (book s) = 1 /\
     trade_quantity t = 100 /\ trade_price t = 149.5%float /\
     is_filled (deref (heap s) 1%N) = true /\ is_filled (deref (heap s) 2%N) = true /\
     remaining_quantity (deref (heap s) 1%N) = 0 /\
     remaining_quantity (deref (heap s) 2%N) = 0 /\
     status (deref (heap s) 1%N) = PENDING /\ status (deref (heap s) 2%N) = PENDING /\
     bids_ (book s) = [] /\ asks_ (book s) = [] /\
     orders_by_id_ (book s) = ∅ /\ get_order_count (book s) = 0).
Proof.
  split.
  - intros now s s' H.
    destruct (match_step_recent _ _ _ H) as (t & Ht & Hrec).
    exists t. split; [done|]. split; [done|].
    apply match_step_Some in H
      as (bb & buy & rb & bids' & ba & sell & ra & asks' & Eb & Ea & _ & H).
    cbv zeta in H. destruct H as (_ & _ & _ & Ht' & _).
    rewrite Ht' in Ht. apply app_inv_head in Ht. injection Ht as <-.
    unfold get_best_bid, get_best_ask. by rewrite Eb, Ea.
  - do 2 eexists. split; [by vm_compute|]. split; [by vm_compute|]. by vm_compute.
Qed.

Lemma trades_are_priced_at_the_midpoint_witness :
  exists s' t, match_step 4 S1_crossed = Some s' /\
    trace s' = trace S1_crossed ++ [t] /\ trade_price t = 149.5%float.
Proof.
  destruct (proj1 trades_are_priced_at_the_midpoint 4 S1_crossed _ eq_refl)
    as (t & Ht & _ & Hp).
  eexists _, t. split; [reflexivity|]. split; [exact Ht|].
  rewrite Hp. by vm_compute.
Defined.

(** C6. After any sequence of operations on a book, when a call of
    [add_order] returns (it does return, accepting or refusing) the bid
    side is empty, or the ask side is empty, or
    [get_best_bid() < get_best_ask()]. *)
Theorem add_order_leaves_no_crossed_book (sym : string) (ops : list Op)
    (now : time_point) (order : ptr) :
  exists s r s', run ops (State_new sym) = Some s /\
    add_order now order s = Some (r, s') /\
    (bids_ (book s') = [] \/ asks_ (book s') = [] \/
     (get_best_bid (book s') <? get_best_ask (book s'))%float = true).
Proof.
  destruct (run_inv ops _ (book_inv_new sym)) as (s & Hs & Hinv).
  destruct (add_order_inv now order s Hinv) as (r & s' & Hadd & [_ Hset] & _).
  exists s, r, s'. split; [done|]. split; [done|]. apply Hset.
Qed.

(** C9, the claim as it stands fails: the volume is not the sum of
    [trade_price * trade_quantity].  After one trade of 3 at the double
    nearest to 0.1 the volume is the double 0.30000000000000004, which is
    2^-55 above three times that price; after one trade of 2^53 + 1 at 1.0
    the volume is 2^53, one less than the sum. *)
Lemma total_volume_is_not_the_exact_sum :
  (exists s t, run tenth_ops (State_new "AAPL") = Some s /\
     trace s = [t] /\ trade_price t = tenth /\ trade_quantity t = 3 /\
     get_total_volume (book s) = 0x1.3333333333334p-2%float /\
     exists v x, scaled (get_total_volume (book s)) = Some v /\
       exact_volume (trace s) = Some x /\ v - x = 2 ^ 1019 /\ v <> x) /\
  (exists s t, run huge_ops (State_new "AAPL") = Some s /\
     trace s = [t] /\ trade_price t = 1%float /\ trade_quantity t = 2 ^ 53 + 1 /\
     get_total_volume (book s) = 9007199254740992%float /\
     exists v x, scaled (get_total_volume (book s)) = Some v /\
       exact_volume (trace s) = Some x /\ x - v = 2 ^ 1074 /\ v <> x).
Proof.
  split.
  - eexists _, _. split; [by vm_compute|]. split; [by vm_compute|].
    split; [by vm_compute|]. split; [by vm_compute|]. split; [by vm_compute|].
    eexists _, _. split; [by vm_compute|]. split; [by vm_compute|].
    split; [by vm_compute|]. by vm_compute.
  - eexists _, _. split; [by vm_compute|]. split; [by vm_compute|].
    split; [by vm_compute|]. split; [by vm_compute|]. split; [by vm_compute|].
    eexists _, _. split; [by vm_compute|]. split; [by vm_compute|].
    split; [by vm_compute|]. by vm_compute.
Qed.

(** C9 (amended). After any sequence of operations on a book the value that
    [get_total_volume] returns is the result of the additions and
    multiplications of doubles that [record_trade] has made: starting from
    0.0, in the order of recording, it has added for every trade the
    product of [trade_price] and of [trade_quantity] converted to double.
    The trades are all that were recorded, of which [recent_trades_] holds
    the last 1000: while no trade has left the bounded history, the volume
    is that accumulation over [recent_trades_].  Every product and every sum is rounded, and so is the
    conversion: after S1 the volume is 14950.0, which is the sum; a
    quantity of 2^53 + 1 counts as 2^53. *)
Theorem total_volume_is_the_sum_over_all_trades :
  (forall sym ops, exists s, run ops (State_new sym) = Some s /\
     get_total_volume (book s) = volume_of (trace s) /\
     recent_trades_ (book s) = drop (length (trace s) - 1000) (trace s) /\
     ((length (trace s) <= 1000)%nat ->
      get_total_volume (book s) = volume_of (recent_trades_ (book s)))) /\
  volume_of [] = 0%float /\
  (forall trades t,
     volume_of (trades ++ [t]) =
     (volume_of trades + trade_price t * double_of_u64 (trade_quantity t))%float) /\
  (exists s, run S1_ops (State_new "AAPL") = Some s /\
     get_total_volume (book s) = 14950%float /\
     scaled (get_total_volume (book s)) = exact_volume (trace s)) /\
  double_of_u64 100 = 100%float /\
  double_of_u64 (2 ^ 53 + 1) = 9007199254740992%float.
Proof.
  split; [|split; [|split; [|split; [|split]]]].
  - intros sym ops.
    destruct (run_inv ops _ (book_inv_new sym)) as (s & Hs & _).
    exists s. split; [done|].
    destruct (run_accounted ops (State_new sym) s) as [Hv Hr]; [by split|done|].
    change (Z.to_nat MAX_TRADES_HISTORY) with 1000%nat in Hr.
    split; [done|]. split; [done|].
    intros Hlen. rewrite Hr.
    replace (length (trace s) - 1000)%nat with 0%nat by lia. done.
  - done.
  - intros trades t. unfold volume_of. by rewrite foldl_app.
  - eexists. split; [by vm_compute|]. split; by vm_compute.
  - by vm_compute.
  - by vm_compute.
Qed.

(** Two calls of [cancel_order] in succession.  For every state of the book
    and every id, the first returns true exactly when the id is in the id
    map, and then the order has status CANCELLED, its id has left the id
    map and the order count has dropped by one; in every state reached
    from an empty book by operations whose prices are numbers, the order
    is in no level of either ladder afterwards; in every state reached
    from an empty book no level is left empty; the first call changes
    nothing when it returns false; the second returns false and leaves
    the state of the first. *)
Theorem cancel_order_twice (id : Z) (s : State) :
  let r1 := (cancel_order id s).1 in
  let s1 := (cancel_order id s).2 in
  let r2 := (cancel_order id s1).1 in
  let s2 := (cancel_order id s1).2 in
  (r1 = true <-> is_Some (orders_by_id_ (book s) !! id)) /\
  (r1 = false -> s1 = s) /\
  (forall order, orders_by_id_ (book s) !! id = Some order ->
     status (deref (heap s1) order) = CANCELLED /\
     orders_by_id_ (book s1) = delete id (orders_by_id_ (book s)) /\
     get_order_count (book s1) = u64 (get_order_count (book s) - 1)) /\
  (forall sym ops order,
     forallb numeric_op ops = true -> run ops (State_new sym) = Some s ->
     orders_by_id_ (book s) !! id = Some order ->
     (order ∉ ladder_ptrs (bids_ (book s1))) /\
     (order ∉ ladder_ptrs (asks_ (book s1)))) /\
  (forall sym ops, run ops (State_new sym) = Some s ->
     forall kv, kv ∈ bids_ (book s1) \/ kv ∈ asks_ (book s1) -> kv.2 <> []) /\
  orders_by_id_ (book s1) !! id = None /\
  r2 = false /\ s2 = s1.
Proof.
  cbv zeta.
  assert (orders_by_id_ (book (cancel_order id s).2) !! id = None) as Hgone.
  { unfold cancel_order.
    destruct (orders_by_id_ (book s) !! id) as [order|] eqn:E; [|done].
    cbn. apply lookup_delete_eq. }
  rewrite (cancel_order_absent id _ Hgone). cbn [fst snd].
  split; [|split; [|split; [|split; [|split; [|done]]]]].
  - unfold cancel_order. destruct (orders_by_id_ (book s) !! id) as [order|]; cbn.
    + split; [by eexists|done].
    + split; [done|]. by intros [? ?].
  - unfold cancel_order. by destruct (orders_by_id_ (book s) !! id).
  - intros order Hid. unfold cancel_order. rewrite Hid. cbn.
    split; [|split].
    + unfold deref. by rewrite lookup_total_insert_eq.
    + unfold remove_from_level. by destruct (side _).
    + unfold remove_from_level. by destruct (side _).
  - intros sym ops order Hnum Hrun Hid.
    destruct (run_index ops (State_new sym) s Hnum (book_inv_new sym)
                (index_inv_new sym) Hrun) as [[_ Hset] Hidx].
    by apply (cancel_order_index id s Hset Hidx).
  - intros sym ops Hrun kv Hkv.
    destruct (run_inv ops _ (book_inv_new sym)) as (s' & Hs' & Hinv).
    rewrite Hrun in Hs'. injection Hs' as <-.
    destruct (cancel_order_inv id s Hinv) as [[_ Hset] _].
    destruct (settled_no_empty_levels _ Hset) as [Hb Ha].
    unfold no_empty_level in Hb, Ha.
    destruct Hkv as [Hkv|Hkv].
    + eapply Forall_forall in Hb; [exact Hb|done].
    + eapply Forall_forall in Ha; [exact Ha|done].
Qed.

(** An order that rests in the bid ladder is in no level once cancelled,
    and its level is gone with it. *)
Lemma cancel_order_twice_witness :
  exists s, run [OpNew 1%N early_order; OpAdd 9 1%N] (State_new "AAPL") = Some s /\
    orders_by_id_ (book s) !! 1 = Some 1%N /\
    bids_ (book s) = [(150%float, [1%N])] /\
    (cancel_order 1 s).1 = true /\
    bids_ (book (cancel_order 1 s).2) = [] /\
    (1%N ∉ ladder_ptrs (bids_ (book (cancel_order 1 s).2))) /\
    (1%N ∉ ladder_ptrs (asks_ (book (cancel_order 1 s).2))).
Proof.
  eexists. split; [reflexivity|]. split; [reflexivity|]. split; [reflexivity|].
  split; [reflexivity|]. split; [reflexivity|].
  match goal with
  | |- (_ ∉ ladder_ptrs (bids_ (book (cancel_order _ ?s).2))) /\ _ =>
      destruct (cancel_order_twice 1 s) as (_ & _ & _ & Hgone & _)
  end.
  apply (Hgone "AAPL"%string [OpNew 1%N early_order; OpAdd 9 1%N] 1%N);
    reflexivity.
Defined.

(** C7 (the code departs from the claim). An order whose price is a NaN is
    accepted and put into the level that is first in the ladder at that
    moment; once another level is first, [cancel_order] looks for the
    order there: it returns true, sets the status CANCELLED, erases the id
    and lowers the order count, and the order stays in its level.  A SELL
    that arrives afterwards trades with the cancelled order, and the order
    count is 0 while the cancelled order still rests.  A second
    [cancel_order] returns false and changes nothing. *)
Theorem cancel_order_leaves_NaN_order_in_its_level :
  exists s, run NaN_between (State_new "AAPL") = Some s /\
    bids_ (book s) = [(101%float, [3%N]); (100%float, [1%N; 2%N])] /\
    orders_by_id_ (book s) !! 2 = Some 2%N /\
    is_number (price (deref (heap s) 2%N)) = false /\
    get_order_count (book s) = 3 /\
    let s1 := (cancel_order 2 s).2 in
    (cancel_order 2 s).1 = true /\
    status (deref (heap s1) 2%N) = CANCELLED /\
    orders_by_id_ (book s1) !! 2 = None /\
    get_order_count (book s1) = 2 /\
    bids_ (book s1) = [(101%float, [3%N]); (100%float, [1%N; 2%N])] /\
    2%N ∈ ladder_ptrs (bids_ (book s1)) /\
    cancel_order 2 s1 = (false, s1) /\
    exists s2, run sell_after_cancel s1 = Some s2 /\
      length (trace s2) = 3%nat /\
      filled_quantity (deref (heap s2) 2%N) = 5 /\
      status (deref (heap s2) 2%N) = CANCELLED /\
      bids_ (book s2) = [(100%float, [2%N])] /\
      get_order_count (book s2) = 0.
Proof.
  eexists. split; [by vm_compute|]. split; [by vm_compute|].
  split; [by vm_compute|]. split; [by vm_compute|]. split; [by vm_compute|].
  cbv zeta. split; [by vm_compute|]. split; [by vm_compute|].
  split; [by vm_compute|]. split; [by vm_compute|]. split; [by vm_compute|].
  split; [by vm_compute; set_solver|]. split; [by vm_compute|].
  eexists. split; [by vm_compute|]. by vm_compute.
Qed.

(** ** The engine *)

Lemma same_trades_refl (e : OrderMatchingEngine) : same_trades e e.
Proof. done. Qed.

Lemma same_trades_trans (e1 e2 e3 : OrderMatchingEngine) :
  same_trades e1 e2 -> same_trades e2 e3 -> same_trades e1 e3.
Proof. unfold same_trades. intros (-> & -> & ->) (-> & -> & ->). done. Qed.

Lemma same_trades_counted (e e' : OrderMatchingEngine) :
  same_trades e e' -> no_trades_counted e -> no_trades_counted e'.
Proof. unfold same_trades, no_trades_counted. intros (-> & -> & ->). done. Qed.

Lemma book_inv_heap (h h' : gmap ptr Order) (b : OrderBook) (tr tr' : list MarketData) :
  typed_heap h' -> heap_rel same_side h h' ->
  book_inv (mkState h b tr) -> book_inv (mkState h' b tr').
Proof.
  intros Ht Hrel [Hwf Hset]. split; [|done].
  by apply (well_formed_heap h' (mkState h b tr)).
Qed.

Lemma same_side_trans (a b c : Order) : same_side a b -> same_side b c -> same_side a c.
Proof. unfold same_side. congruence. Qed.

Lemma store_book_inv (sym : string) (s : State) (e : OrderMatchingEngine) :
  engine_inv e -> book_inv s -> heap_rel same_side (orders e) (heap s) ->
  engine_inv (store_book sym s e).
Proof.
  intros [Ht Hbooks] Hinv Hrel.
  assert (typed_heap (heap s)) as Hts by apply Hinv.
  split; [done|].
  intros sym' b. cbn [store_book order_book_manager_ orders].
  destruct (decide (sym = sym')) as [->|Hne].
  - rewrite lookup_insert_eq. intros [= <-]. destruct s as [h b tr].
    apply (book_inv_heap h h b tr []); [done| |done].
    apply heap_rel_refl. by intros ?.
  - rewrite lookup_insert_ne by done. intros Hb.
    apply (book_inv_heap (orders e) (heap s) b [] []); [done|done|by apply (Hbooks sym')].
Qed.

Lemma get_or_create_inv (sym : string) (e : OrderMatchingEngine) :
  engine_inv e -> book_inv (mkState (orders e) (get_or_create_order_book sym e) []).
Proof.
  intros [Ht Hbooks]. unfold get_or_create_order_book.
  destruct (order_book_manager_ e !! sym) as [b|] eqn:Hb; [by apply (Hbooks sym)|].
  apply (book_inv_heap ∅ (orders e) (OrderBook_new sym) [] []);
    [exact Ht| |apply (book_inv_new sym)].
  intros p o Hp. by rewrite lookup_empty in Hp.
Qed.

Lemma process_order_inv (now : time_point) (order : ptr) (e : OrderMatchingEngine) :
  engine_inv e ->
  exists e', process_order now order e = Some e' /\ engine_inv e' /\ same_trades e e'.
Proof.
  intros Hinv. unfold process_order.
  set (sym := symbol _). set (s := mkState _ _ _).
  destruct (add_order_inv now order s (get_or_create_inv sym e Hinv))
    as (r & s' & -> & Hinv' & Hrel & _).
  cbn [mbind option_bind].
  assert (engine_inv (store_book sym s' e)) as Hst.
  { apply store_book_inv; [done..|].
    eapply heap_rel_weaken; [apply filled_only_same_side|exact Hrel]. }
  destruct r; eexists; (split; [done|]); by split.
Qed.

Lemma process_orders_inv (now : time_point) (batch : list ptr) (e : OrderMatchingEngine) :
  engine_inv e ->
  exists e', process_orders now batch e = Some e' /\ engine_inv e' /\ same_trades e e'.
Proof.
  revert e. induction batch as [|order batch IH]; intros e Hinv; [by exists e|].
  destruct (process_order_inv now order e Hinv) as (e1 & H1 & Hinv1 & Hs1).
  destruct (IH e1 Hinv1) as (e' & H' & Hinv' & Hs').
  exists e'. cbn. rewrite H1. cbn. split; [done|]. split; [done|].
  by eapply same_trades_trans.
Qed.

Lemma foldl_count_market_data {A : Type} (batch : list A) (e : OrderMatchingEngine) :
  let e' := foldl (fun e' _ => count_market_data_update e') e batch in
  same_trades e e' /\ orders e' = orders e /\
  order_book_manager_ e' = order_book_manager_ e.
Proof.
  revert e. induction batch as [|x batch IH]; intros e; [done|].
  cbn. destruct (IH (count_market_data_update e)) as (Hs & Ho & Hm).
  split; [|by split]. eapply same_trades_trans; [|exact Hs]. done.
Qed.

Lemma engine_inv_frame (e e' : OrderMatchingEngine) :
  orders e' = orders e -> order_book_manager_ e' = order_book_manager_ e ->
  engine_inv e -> engine_inv e'.
Proof. unfold engine_inv. by intros -> ->. Qed.

(** Every step of the engine returns, keeps the books in order and counts
    no trade. *)
Lemma engine_step_inv (op : EngineOp) (e : OrderMatchingEngine) :
  engine_inv e -> no_trades_counted e ->
  exists e', engine_step op e = Some e' /\ engine_inv e' /\ no_trades_counted e'.
Proof.
  intros Hinv Hno.
  destruct op as [p o|tcp mdp| |order latency|id sym|now id sym q prc|data|now| | |];
    cbn [engine_step].
  - eexists; split; [done|]. split; [|done]. destruct Hinv as [Ht Hbooks].
    split; [by apply typed_heap_alloc|]. intros sym b Hb.
    eapply book_inv_heap; [by apply typed_heap_alloc|apply heap_rel_alloc|by apply (Hbooks sym)].
  - eexists; split; [done|]. unfold engine_start.
    destruct (running_ e), tcp, mdp; by split.
  - eexists; split; [done|]. unfold engine_stop. destruct (running_ e); by split.
  - eexists; split; [done|]. unfold submit_order.
    destruct (negb (running_ e) || _); [by split|].
    destruct (try_push _ _ _) as [[|] rb]; by split.
  - eexists; split; [done|]. unfold engine_cancel_order.
    destruct (negb (running_ e)); [by split|].
    destruct (order_book_manager_ e !! sym) as [b|] eqn:Hb; [|by split].
    destruct (cancel_order_inv id (mkState (orders e) b []) (proj2 Hinv sym b Hb))
      as [Hinv' Hrel].
    destruct (cancel_order id _) as [r s]. cbn [snd] in *.
    split; [by apply store_book_inv|done].
  - unfold engine_modify_order.
    destruct (negb (running_ e)); [by exists e|].
    destruct (order_book_manager_ e !! sym) as [b|] eqn:Hb; [|by exists e].
    destruct (modify_order_inv now id (u64 q) prc (mkState (orders e) b [])
                (u64_range q) (proj2 Hinv sym b Hb))
      as (r & s & -> & Hinv' & Hrel & _).
    eexists; split; [done|]. split; [by apply store_book_inv|done].
  - eexists; split; [done|]. unfold submit_market_data.
    destruct (negb (running_ e)); [by split|].
    destruct (try_push _ _ _) as [[|] rb]; by split.
  - unfold process_order_batch. destruct (pop_batch _ _) as [batch rb].
    destruct (process_orders_inv now batch (set_order_buffer rb e))
      as (e' & -> & Hinv' & Hs); [done|].
    exists e'. split; [done|]. split; [done|].
    by apply (same_trades_counted (set_order_buffer rb e)).
  - eexists; split; [done|]. unfold process_market_data_batch.
    destruct (pop_batch _ _) as [batch rb].
    destruct (foldl_count_market_data batch (set_market_data_buffer rb e))
      as (Hs & Ho & Hm).
    split; [by eapply engine_inv_frame|].
    by apply (same_trades_counted (set_market_data_buffer rb e)).
  - eexists; split; [done|]. split; [by apply (engine_inv_frame e)|].
    destruct Hno as (Hte & Htps & Hlast). unfold no_trades_counted. cbn.
    by rewrite Hte, Hlast.
  - eexists; split; [done|]. split; [by apply (engine_inv_frame e)|].
    destruct Hno as (_ & _ & Hlast). by split.
Qed.

Lemma engine_inv_new : engine_inv OrderMatchingEngine_new.
Proof.
  split; [intros p o Hp|intros sym b Hb]; cbn in *; by rewrite lookup_empty in *.
Qed.

Lemma engine_run_inv (ops : list EngineOp) (e : OrderMatchingEngine) :
  engine_inv e -> no_trades_counted e ->
  exists e', engine_run ops e = Some e' /\ engine_inv e' /\ no_trades_counted e'.
Proof.
  revert e. induction ops as [|op ops IH]; intros e Hinv Hno; [by exists e|].
  destruct (engine_step_inv op e Hinv Hno) as (e1 & H1 & Hinv1 & Hno1).
  destruct (IH e1 Hinv1 Hno1) as (e' & H' & Hinv' & Hno').
  exists e'. cbn. by rewrite H1.
Qed.

(** C10. No operation of the engine increments [trades_executed]: after any
    sequence of client calls and of passes of the matching, market data and
    metrics threads on a fresh engine the counter reads 0, and so does
    [trades_per_second], which is derived from it. *)
Theorem trades_executed_stays_zero (ops : list EngineOp) :
  exists e, engine_run ops OrderMatchingEngine_new = Some e /\
    trades_executed (metrics_ e) = 0 /\ trades_per_second (metrics_ e) = 0.
Proof.
  destruct (engine_run_inv ops OrderMatchingEngine_new engine_inv_new)
    as (e & He & _ & Hte & Htps & _); [done|].
  by exists e.
Qed.

(** ** The ring buffer as a bounded queue *)

Lemma mod_add_range (S a b : Z) :
  0 <= a < S -> 0 <= b < S ->
  (a + b) mod S = if a + b <? S then a + b else a + b - S.
Proof.
  intros Ha Hb. destruct (Z.ltb_spec (a + b) S).
  - apply Z.mod_small. lia.
  - replace (a + b) with (a + b - S + 1 * S) at 1 by lia.
    rewrite Z_mod_plus_full. apply Z.mod_small. lia.
Qed.

Lemma mod_sub_range (S a b : Z) :
  0 <= a < S -> 0 <= b < S ->
  (a - b) mod S = if b <=? a then a - b else a - b + S.
Proof.
  intros Ha Hb. destruct (Z.leb_spec b a).
  - apply Z.mod_small. lia.
  - replace (a - b) with (a - b + S + (-1) * S) at 1 by lia.
    rewrite Z_mod_plus_full. apply Z.mod_small. lia.
Qed.

Lemma mod_succ_range (S a : Z) :
  0 <= a < S -> (a + 1) mod S = if a + 1 <? S then a + 1 else 0.
Proof.
  intros Ha. destruct (Z.ltb_spec (a + 1) S).
  - apply Z.mod_small. lia.
  - replace (a + 1) with S by lia. apply Z_mod_same_full.
Qed.

Section QueueFacts.
Context {T : Type} `{Inhabited T}.
Variable Size : Z.
Hypothesis HSize : Size_ok Size.

Lemma try_pop_spec (rb : LockFreeRingBuffer T) :
  0 <= head_ rb < Size ->
  try_pop Size rb =
    if head_ rb =? tail_ rb then (None, rb)
    else (Some (buffer_ rb !!! Z.to_nat (head_ rb)),
          mkRing (buffer_ rb) ((head_ rb + 1) mod Size) (tail_ rb)).
Proof.
  intros Hh. unfold try_pop. cbv zeta.
  assert (Size < 2 ^ 64) by apply HSize.
  rewrite u64_small by lia. by rewrite land_MASK by (done || lia).
Qed.

Lemma ring_items_length (rb : LockFreeRingBuffer T) :
  length (ring_items Size rb) = Z.to_nat ((tail_ rb - head_ rb) mod Size).
Proof. unfold ring_items. by rewrite length_fmap, length_seq. Qed.

Lemma ring_items_nil (rb : LockFreeRingBuffer T) :
  ring_inv Size rb -> (ring_items Size rb = [] <-> head_ rb = tail_ rb).
Proof.
  intros (Hh & Ht & _). rewrite <- length_zero_iff_nil, ring_items_length.
  rewrite mod_sub_range by done. destruct (Z.leb_spec (head_ rb) (tail_ rb)); lia.
Qed.

(** A successful push puts the item behind the others; a push fails
    exactly when [Size - 1] items are waiting, and then changes nothing. *)
Lemma try_push_items (item : T) (rb : LockFreeRingBuffer T) :
  ring_inv Size rb ->
  ring_inv Size (try_push Size item rb).2 /\
  if (try_push Size item rb).1
  then ring_items Size (try_push Size item rb).2 = ring_items Size rb ++ [item]
  else (try_push Size item rb).2 = rb /\
       Z.of_nat (length (ring_items Size rb)) = Size - 1.
Proof.
  intros (Hh & Ht & Hlen).
  assert (0 < Size) as Hpos by apply HSize.
  rewrite try_push_spec by done.
  pose proof (mod_sub_range Size (tail_ rb) (head_ rb) Ht Hh) as Hn.
  pose proof (mod_succ_range Size (tail_ rb) Ht) as Hnext.
  destruct ((tail_ rb + 1) mod Size =? head_ rb) eqn:E; cbn [fst snd].
  - apply Z.eqb_eq in E. split; [done|]. split; [done|].
    rewrite ring_items_length, Hn.
    destruct (Z.ltb_spec (tail_ rb + 1) Size), (Z.leb_spec (head_ rb) (tail_ rb)); lia.
  - apply Z.eqb_neq in E.
    assert (0 <= (tail_ rb + 1) mod Size < Size) as Hnt by (apply Z.mod_pos_bound; lia).
    split. { split; [done|]. split; [done|]. cbn. by rewrite length_insert. }
    unfold ring_items. cbn [head_ tail_ buffer_].
    pose proof (mod_sub_range Size ((tail_ rb + 1) mod Size) (head_ rb) Hnt Hh) as Hn'.
    set (n := Z.to_nat ((tail_ rb - head_ rb) mod Size)).
    assert (Z.to_nat (((tail_ rb + 1) mod Size - head_ rb) mod Size) = S n) as ->.
    { unfold n. rewrite Hn, Hn'. rewrite Hnext in *.
      destruct (Z.ltb_spec (tail_ rb + 1) Size);
        destruct (Z.leb_spec (head_ rb) (tail_ rb));
        destruct (Z.leb_spec (head_ rb) (tail_ rb + 1));
        destruct (Z.leb_spec (head_ rb) 0); lia. }
    rewrite seq_S, fmap_app. cbn [fmap list_fmap Nat.add].
    assert ((head_ rb + Z.of_nat n) mod Size = tail_ rb) as Hlast.
    { unfold n. rewrite Z2Nat.id by (apply Z.mod_pos_bound; lia).
      rewrite Zplus_mod_idemp_r. replace (head_ rb + (tail_ rb - head_ rb)) with (tail_ rb) by lia.
      apply Z.mod_small. lia. }
    f_equal.
    + apply list_fmap_ext. intros k i Hi.
      apply lookup_seq in Hi as [Ei Hi]. cbn [Nat.add] in Ei. subst k.
      rewrite list_lookup_total_insert_ne; [done|].
      intros E'. apply Z2Nat.inj in E';
        [|lia|apply Z.mod_pos_bound; lia].
      assert (0 <= Z.of_nat i < Size) as Hir.
      { unfold n in Hi. pose proof (Z.mod_pos_bound (tail_ rb - head_ rb) Size Hpos). lia. }
      rewrite (mod_add_range Size (head_ rb) (Z.of_nat i) Hh Hir) in E'.
      unfold n in Hi. rewrite Hn in Hi.
      destruct (Z.ltb_spec (head_ rb + Z.of_nat i) Size);
        destruct (Z.leb_spec (head_ rb) (tail_ rb)); lia.
    + rewrite Hlast. f_equal. apply list_lookup_total_insert_eq. lia.
Qed.

(** A pop fails exactly when no item is waiting, and then changes nothing;
    otherwise it hands out the oldest item and keeps the others. *)
Lemma try_pop_items (rb : LockFreeRingBuffer T) :
  ring_inv Size rb ->
  match (try_pop Size rb).1 with
  | None => (try_pop Size rb).2 = rb /\ ring_items Size rb = []
  | Some x => ring_inv Size (try_pop Size rb).2 /\
              ring_items Size rb = x :: ring_items Size (try_pop Size rb).2
  end.
Proof.
  intros Hinv. pose proof Hinv as (Hh & Ht & Hlen).
  assert (0 < Size) as Hpos by apply HSize.
  rewrite try_pop_spec by done.
  destruct (head_ rb =? tail_ rb) eqn:E; cbn [fst snd].
  - apply Z.eqb_eq in E. split; [done|]. by apply ring_items_nil.
  - apply Z.eqb_neq in E.
    assert (0 <= (head_ rb + 1) mod Size < Size) as Hnh by (apply Z.mod_pos_bound; lia).
    split; [done|].
    unfold ring_items. cbn [head_ tail_ buffer_].
    pose proof (mod_sub_range Size (tail_ rb) (head_ rb) Ht Hh) as Hn.
    pose proof (mod_sub_range Size (tail_ rb) ((head_ rb + 1) mod Size) Ht Hnh) as Hn'.
    pose proof (mod_succ_range Size (head_ rb) Hh) as Hnext.
    set (n' := Z.to_nat ((tail_ rb - (head_ rb + 1) mod Size) mod Size)).
    assert (Z.to_nat ((tail_ rb - head_ rb) mod Size) = S n') as ->.
    { unfold n'. rewrite Hn, Hn'. rewrite Hnext in *.
      destruct (Z.ltb_spec (head_ rb + 1) Size);
        destruct (Z.leb_spec (head_ rb) (tail_ rb));
        destruct (Z.leb_spec (head_ rb + 1) (tail_ rb));
        destruct (Z.leb_spec 0 (tail_ rb)); lia. }
    cbn [seq fmap list_fmap]. f_equal.
    + f_equal. rewrite Z.add_0_r. f_equal. apply Z.mod_small. lia.
    + rewrite <- fmap_S_seq, <- list_fmap_compose. apply list_fmap_ext.
      intros k i _. cbn. f_equal. f_equal.
      rewrite Zplus_mod_idemp_l. f_equal. lia.
Qed.

Lemma ring_size_items (rb : LockFreeRingBuffer T) :
  ring_inv Size rb -> ring_size Size rb = Z.of_nat (length (ring_items Size rb)).
Proof.
  intros (Hh & Ht & _). assert (Size < 2 ^ 64) by apply HSize.
  rewrite ring_items_length, Z2Nat.id by (apply Z.mod_pos_bound; lia).
  rewrite mod_sub_range by done. unfold ring_size.
  destruct (Z.leb_spec (head_ rb) (tail_ rb)); [done|].
  rewrite (u64_small (Size - head_ rb)) by lia. rewrite u64_small by lia. lia.
Qed.

End QueueFacts.

Lemma ring_items_bound {T : Type} `{Inhabited T} (Size : Z) (rb : LockFreeRingBuffer T) :
  0 < Size -> Z.of_nat (length (ring_items Size rb)) <= Size - 1.
Proof.
  intros Hpos. rewrite ring_items_length.
  pose proof (Z.mod_pos_bound (tail_ rb - head_ rb) Size Hpos). lia.
Qed.

Lemma ring_inv_new {T : Type} `{Inhabited T} (Size : Z) :
  0 < Size -> ring_inv Size (LockFreeRingBuffer_new Size : LockFreeRingBuffer T).
Proof. intros Hpos. split; [cbn; lia|]. split; [cbn; lia|]. cbn. apply length_replicate. Qed.

Lemma BUFFER_SIZE_ok : Size_ok BUFFER_SIZE.
Proof. by vm_compute. Qed.

(** The collecting loop of the batch functions hands out the oldest items
    in order. *)
Lemma pop_batch_items {T : Type} `{Inhabited T} (n : nat) (rb : LockFreeRingBuffer T) :
  ring_inv BUFFER_SIZE rb ->
  (pop_batch n rb).1 = take n (ring_items BUFFER_SIZE rb) /\
  ring_items BUFFER_SIZE (pop_batch n rb).2 = drop n (ring_items BUFFER_SIZE rb) /\
  ring_inv BUFFER_SIZE (pop_batch n rb).2.
Proof.
  revert rb. induction n as [|n IH]; intros rb Hinv; [done|].
  cbn [pop_batch].
  pose proof (try_pop_items BUFFER_SIZE BUFFER_SIZE_ok rb Hinv) as Hpop.
  destruct (try_pop BUFFER_SIZE rb) as [[x|] rb1] eqn:E; cbn [fst snd] in Hpop.
  - destruct Hpop as [Hinv1 Hitems]. destruct (IH rb1 Hinv1) as (IH1 & IH2 & IH3).
    destruct (pop_batch n rb1) as [xs rb2]. cbn [fst snd] in *.
    rewrite Hitems. cbn [take drop]. rewrite IH1. by split.
  - destruct Hpop as [_ Hnil]. cbn [fst snd]. rewrite Hnil. by split.
Qed.

(** X1 (ring buffer, push). On a buffer whose indices are in range,
    [try_push] succeeds exactly when fewer than [Size - 1] items are
    waiting; it then puts the item behind the waiting ones, and a failed
    push changes nothing. *)
Theorem try_push_enqueues {T : Type} `{Inhabited T} (Size : Z) (item : T)
    (rb : LockFreeRingBuffer T) :
  Size_ok Size -> ring_inv Size rb ->
  ring_inv Size (try_push Size item rb).2 /\
  ((try_push Size item rb).1 = true <->
   Z.of_nat (length (ring_items Size rb)) < Size - 1) /\
  ((try_push Size item rb).1 = true ->
   ring_items Size (try_push Size item rb).2 = ring_items Size rb ++ [item]) /\
  ((try_push Size item rb).1 = false -> (try_push Size item rb).2 = rb).
Proof.
  intros HSize Hinv.
  destruct (try_push_items Size HSize item rb Hinv) as [Hinv' Hres].
  assert (0 < Size) as Hpos by apply HSize.
  pose proof (ring_items_bound Size (try_push Size item rb).2 Hpos) as Hb.
  split; [done|].
  destruct (try_push Size item rb).1.
  - rewrite Hres, length_app in Hb. cbn in Hb.
    split; [split; [lia|done]|]. split; [done|discriminate].
  - destruct Hres as [Hsame Hfull].
    split; [split; [discriminate|lia]|]. split; [discriminate|done].
Qed.

Lemma try_push_enqueues_witness :
  ring_items 8 (try_push 8 5 (snd (try_push 8 4 (LockFreeRingBuffer_new 8)))).2
  = [4; 5].
Proof.
  assert (Size_ok 8) as HSize by (by vm_compute).
  assert (ring_inv 8 (snd (try_push 8 4 (LockFreeRingBuffer_new 8)))) as Hinv
    by (by vm_compute).
  destruct (try_push_enqueues 8 5 _ HSize Hinv) as (_ & _ & Hpush & _).
  rewrite Hpush by reflexivity. reflexivity.
Defined.

(** X2 (ring buffer, pop). On a buffer whose indices are in range,
    [try_pop] fails exactly when no item is waiting and then changes
    nothing; otherwise it hands out the oldest waiting item and leaves
    the others waiting in their order. *)
Theorem try_pop_dequeues {T : Type} `{Inhabited T} (Size : Z)
    (rb : LockFreeRingBuffer T) :
  Size_ok Size -> ring_inv Size rb ->
  ring_inv Size (try_pop Size rb).2 /\
  ((try_pop Size rb).1 = None <-> ring_items Size rb = []) /\
  ((try_pop Size rb).1 = None -> (try_pop Size rb).2 = rb) /\
  (forall x, (try_pop Size rb).1 = Some x ->
     ring_items Size rb = x :: ring_items Size (try_pop Size rb).2).
Proof.
  intros HSize Hinv.
  pose proof (try_pop_items Size HSize rb Hinv) as Hres.
  destruct (try_pop Size rb).1 as [x|].
  - destruct Hres as [Hinv' Hitems]. split; [done|].
    split; [split; [discriminate|by rewrite Hitems]|].
    split; [discriminate|]. by intros ? [= <-].
  - destruct Hres as [Hsame Hnil]. rewrite Hsame.
    split; [done|]. split; [done|]. split; [done|discriminate].
Qed.

Lemma try_pop_dequeues_witness :
  (try_pop 8 (snd (try_push 8 5 (snd (try_push 8 4 (LockFreeRingBuffer_new 8)))))).1
  = Some 4 /\
  ring_items 8
    (try_pop 8 (snd (try_push 8 5 (snd (try_push 8 4 (LockFreeRingBuffer_new 8)))))).2
  = [5].
Proof.
  assert (Size_ok 8) as HSize by (by vm_compute).
  set (rb := snd (try_push 8 5 (snd (try_push 8 4 (LockFreeRingBuffer_new 8))))).
  assert (ring_inv 8 rb) as Hinv by (by vm_compute).
  destruct (try_pop_dequeues 8 rb HSize Hinv) as (_ & _ & _ & Hpop).
  split; [reflexivity|].
  exact (eq_sym (f_equal (drop 1) (Hpop 4 eq_refl))).
Defined.

(** X3 (ring buffer, observers). [size()] is the number of waiting items,
    [empty()] holds exactly when there is none and [full()] exactly when
    there are [Size - 1]; a new buffer and a cleared one have none. *)
Theorem ring_size_counts_items {T : Type} `{Inhabited T} (Size : Z)
    (rb : LockFreeRingBuffer T) :
  Size_ok Size -> ring_inv Size rb ->
  ring_size Size rb = Z.of_nat (length (ring_items Size rb)) /\
  (ring_empty rb = true <-> ring_items Size rb = []) /\
  (ring_full Size rb = true <->
   Z.of_nat (length (ring_items Size rb)) = Size - 1) /\
  ring_items Size (ring_clear rb) = [] /\
  ring_items Size (LockFreeRingBuffer_new Size : LockFreeRingBuffer T) = [].
Proof.
  intros HSize Hinv. pose proof Hinv as (Hh & Ht & Hlen).
  assert (0 < Size) as Hpos by apply HSize.
  assert (Size < 2 ^ 64) as Hlt by apply HSize.
  split; [by apply ring_size_items|]. split; [|split; [|split]].
  - unfold ring_empty. rewrite Z.eqb_eq. symmetry. by apply ring_items_nil.
  - unfold ring_full. rewrite u64_small by lia.
    rewrite land_MASK by (done || lia). rewrite Z.eqb_eq.
    rewrite ring_items_length, Z2Nat.id by (apply Z.mod_pos_bound; lia).
    rewrite (mod_succ_range Size (tail_ rb) Ht), (mod_sub_range Size _ _ Ht Hh).
    destruct (Z.ltb_spec (tail_ rb + 1) Size), (Z.leb_spec (head_ rb) (tail_ rb)); lia.
  - unfold ring_items. cbn. by rewrite Z.mod_0_l by lia.
  - unfold ring_items. cbn. by rewrite Z.mod_0_l by lia.
Qed.

Lemma ring_size_counts_items_witness :
  ring_size 8 (snd (try_push 8 5 (snd (try_push 8 4 (LockFreeRingBuffer_new 8))))) = 2.
Proof.
  assert (Size_ok 8) as HSize by (by vm_compute).
  set (rb := snd (try_push 8 5 (snd (try_push 8 4 (LockFreeRingBuffer_new 8))))).
  assert (ring_inv 8 rb) as Hinv by (by vm_compute).
  destruct (ring_size_counts_items 8 rb HSize Hinv) as (Hsize & _).
  rewrite Hsize. reflexivity.
Defined.

(** ** The queries of a book *)

Lemma collect_levels_take (h : gmap ptr Order) (levels count : nat) (l : Ladder) :
  collect_levels h levels count l = level_total h <$> take (levels - count) l.
Proof.
  revert count. induction l as [|[prc level] l IH]; intros count; cbn.
  { by rewrite take_nil. }
  destruct (Nat.leb_spec levels count) as [Hle|Hlt].
  - by replace (levels - count)%nat with 0%nat by lia.
  - replace (levels - count)%nat with (S (levels - S count)) by lia.
    cbn. by rewrite IH.
Qed.



(** A property of the ledger that [record_trade] keeps holds in every
    state an operation of the book leaves. *)
Section Ledger.
Variable P : State -> Prop.
Hypothesis P_ledger : forall s s', ledger s' = ledger s -> P s -> P s'.
Hypothesis P_record : forall now prc qty s, P s -> P (record_trade now prc qty s).

Lemma match_step_ledger (now : time_point) (s s' : State) :
  P s -> match_step now s = Some s' -> P s'.
Proof.
  intros HP H. unfold match_step in H.
  destruct (bids_ (book s)) as [|[bb [|buy rb]] bids'] eqn:Eb; try discriminate;
    destruct (asks_ (book s)) as [|[ba [|sell ra]] asks'] eqn:Ea; try discriminate;
    destruct (bb <? ba)%float eqn:Ecmp; try discriminate.
  set (s1 := record_trade now _ _ s) in H.
  assert (P s1) as H1 by apply P_record, HP.
  unfold unlink_if_filled in H.
  destruct (is_filled _), (is_filled _); injection H as <-;
    (eapply P_ledger; [|exact H1]); reflexivity.
Qed.

Lemma match_orders_ledger (now : time_point) (s s' : State) :
  P s -> match_orders now s = Some s' -> P s'.
Proof.
  intros HP H. unfold match_orders in H.
  eapply (match_loop_ind P); [|done..].
  intros ? ? ? ?. by eapply match_step_ledger.
Qed.

Lemma step_ledger (op : Op) (s s' : State) :
  P s -> step op s = Some s' -> P s'.
Proof.
  intros HP. destruct op as [p o|now order|id|now id q prc]; cbn [step].
  - intros [= <-]. by apply (P_ledger s).
  - unfold add_order.
    destruct (heap s !! order) as [o|]; [|by intros [= <-]].
    destruct (negb _); [by intros [= <-]|].
    destruct (orders_by_id_ (book s) !! order_id o); [by intros [= <-]|].
    set (s3 := upd_book _ (add_to_level o order _)).
    assert (P s3) as H3.
    { apply (P_ledger s); [|done]. unfold s3, add_to_level. by destruct (side o). }
    unfold process_market_order, process_limit_order.
    destruct (type o);
      (destruct (match_orders now s3) as [s4|] eqn:H4; [|done]);
      cbn [mbind option_bind fmap option_fmap option_map];
      (destruct (match_orders now s4) as [s5|] eqn:H5; [|done]);
      cbn [mbind option_bind fmap option_fmap option_map snd]; intros [= <-];
      (eapply match_orders_ledger; [|exact H5]);
      (eapply match_orders_ledger; [|exact H4]); done.
  - intros [= <-]. unfold cancel_order.
    destruct (orders_by_id_ (book s) !! id) as [order|]; [|done]. cbn [snd].
    apply (P_ledger s); [|done]. unfold remove_from_level. by destruct (side _).
  - unfold modify_order.
    destruct (orders_by_id_ (book s) !! id) as [order|]; [|by intros [= <-]].
    set (o := deref (heap s) order). set (o' := set_quantity_price_timestamp _ _ _ _).
    set (s2 := set_heap _ _).
    assert (P (add_to_level o' order s2)) as H3.
    { apply (P_ledger s); [|done].
      unfold s2, add_to_level, remove_from_level. by destruct (side o'), (side o). }
    destruct (match_orders now _) as [s4|] eqn:H4; [|done]. cbn.
    intros [= <-]. apply (P_ledger s4); [done|].
    by eapply match_orders_ledger.
Qed.

Lemma run_ledger (ops : list Op) (s s' : State) :
  P s -> run ops s = Some s' -> P s'.
Proof.
  revert s. induction ops as [|op ops IH]; intros s HP; cbn; [by intros [= <-]|].
  destruct (step op s) as [s1|] eqn:H1; [|done]. cbn.
  apply IH. by eapply step_ledger.
Qed.

End Ledger.

Lemma numbered_ledger (s s' : State) : ledger s' = ledger s -> numbered s -> numbered s'.
Proof. unfold ledger, numbered. intros [= -> -> _ -> _]. done. Qed.

Lemma numbered_record (now : time_point) (prc : float) (qty : Z) (s : State) :
  numbered s -> numbered (record_trade now prc qty s).
Proof.
  intros [Hcount Hall]. unfold numbered, record_trade.
  cbn [book trace total_trades_ symbol_].
  assert (u64 (total_trades_ (book s) + 1) = u64 (Z.of_nat (length (trace s)) + 1)) as E.
  { rewrite Hcount. unfold u64. by rewrite Zplus_mod_idemp_l. }
  split.
  - rewrite E, length_app. cbn. f_equal. lia.
  - intros i t Hi. apply lookup_app_Some in Hi as [Hi|[Hlen Hi]]; [by apply Hall|].
    destruct (i - length (trace s))%nat as [|k] eqn:Ek; [|done].
    injection Hi as <-. cbn. rewrite E. split; [|done]. f_equal. lia.
Qed.

Lemma run_numbered (sym : string) (ops : list Op) (s : State) :
  run ops (State_new sym) = Some s -> numbered s /\ symbol_ (book s) = sym.
Proof.
  intros Hrun. split.
  - apply (run_ledger numbered numbered_ledger numbered_record ops (State_new sym) s); [|done].
    split; [done|]. intros i t Hi. cbn in Hi. by rewrite lookup_nil in Hi.
  - apply (run_ledger (fun s => symbol_ (book s) = sym)
             ltac:(by unfold ledger; intros ? ? [= -> _ _ _ _])
             ltac:(done) ops (State_new sym) s); done.
Qed.


(** X5 (snapshot). After any sequence of operations on a book, the snapshot
    carries the symbol of the book and at most ten levels per side, and it
    is not crossed: when both sides have a level, the first bid price is
    below the first ask price. *)
Theorem snapshot_is_not_crossed (sym : string) (ops : list Op) (now : time_point) :
  exists s, run ops (State_new sym) = Some s /\
    snap_symbol (get_snapshot now s) = sym /\
    snap_timestamp (get_snapshot now s) = now /\
    (length (snap_bids (get_snapshot now s)) <= 10)%nat /\
    (length (snap_asks (get_snapshot now s)) <= 10)%nat /\
    (forall b a, head (snap_bids (get_snapshot now s)) = Some b ->
       head (snap_asks (get_snapshot now s)) = Some a ->
       (b.1 <? a.1)%float = true).
Proof.
  destruct (run_inv ops _ (book_inv_new sym)) as (s & Hs & _ & _ & _ & _ & _ & Hun).
  exists s. split; [done|]. split; [by apply (run_numbered sym ops s)|].
  split; [done|]. cbn [get_snapshot snap_bids snap_asks].
  unfold get_bids, get_asks. rewrite !collect_levels_take, !Nat.sub_0_r.
  split; [|split].
  - rewrite length_fmap, length_take. lia.
  - rewrite length_fmap, length_take. lia.
  - unfold uncrossed, get_best_bid, get_best_ask in Hun.
    destruct (bids_ (book s)) as [|[kb lb] bids]; [done|].
    destruct (asks_ (book s)) as [|[ka la] asks]; [done|].
    cbn. intros b a [= <-] [= <-]. cbn. by destruct Hun as [?|[?|?]].
Qed.

(** X6 (trade history). After any sequence of operations on a book the
    bounded history holds at most 1000 trades, and [get_recent_trades(count)]
    returns the latest [count] recorded trades, newest first, for every
    [count] up to 1000 (all recorded trades when there are fewer). *)
Theorem recent_trades_are_the_latest (sym : string) (ops : list Op) (count : nat) :
  exists s, run ops (State_new sym) = Some s /\
    (length (recent_trades_ (book s)) <= 1000)%nat /\
    length (get_recent_trades count (book s))
    = (count `min` length (recent_trades_ (book s)))%nat /\
    ((count <= 1000)%nat ->
     get_recent_trades count (book s) = take count (reverse (trace s))).
Proof.
  destruct (run_inv ops _ (book_inv_new sym)) as (s & Hs & _).
  exists s. split; [done|].
  destruct (run_accounted ops (State_new sym) s) as [_ Hrec]; [by split|done|].
  unfold MAX_TRADES_HISTORY in Hrec. unfold get_recent_trades. rewrite Hrec.
  split; [|split].
  - rewrite length_drop. lia.
  - by rewrite length_take, length_reverse.
  - intros Hc. rewrite reverse_drop, take_take.
    destruct (Nat.le_gt_cases count (length (trace s))) as [Hle|Hgt]; [f_equal; lia|].
    rewrite !take_ge; [done|rewrite length_reverse; lia..].
Qed.

(** X7 (trade numbering). After any sequence of operations on a book,
    [get_trade_count] is the number of trades recorded so far (modulo
    2^64), and the trades carry the ids 1, 2, 3, ... in the order of
    recording, the type TRADE and the symbol of the book. *)
Theorem trades_are_numbered_in_sequence (sym : string) (ops : list Op) :
  exists s, run ops (State_new sym) = Some s /\
    get_trade_count (book s) = u64 (Z.of_nat (length (trace s))) /\
    forall i t, trace s !! i = Some t ->
      trade_id t = u64 (Z.of_nat i + 1) /\ md_type t = TRADE /\ md_symbol t = sym.
Proof.
  destruct (run_inv ops _ (book_inv_new sym)) as (s & Hs & _).
  exists s. split; [done|].
  destruct (run_numbered sym ops s Hs) as [[Hcount Hall] Hsym].
  split; [done|]. intros i t Hi. rewrite <- Hsym. by apply Hall.
Qed.

(** ** Invariants of the reachable states of a book *)

(** A state property that the parts of the operations keep is kept by
    every run whose operations are admitted by [ok]. *)
Section Invariant.
Variable ok : Op -> bool.
Variable J : State -> Prop.
Hypothesis J_alloc : forall p o s,
  ok (OpNew p o) = true -> book_inv s -> J s -> J (set_heap (alloc p o (heap s)) s).
Hypothesis J_entered : forall o order s,
  heap s !! order = Some o -> orders_by_id_ (book s) !! order_id o = None ->
  book_inv s -> J s -> J (add_order_entered o order s).
Hypothesis J_match : forall now s s',
  well_formed s -> ordered (book s) -> J s -> match_step now s = Some s' -> J s'.
Hypothesis J_cancel : forall id s, book_inv s -> J s -> J (cancel_order id s).2.
Hypothesis J_modify : forall now id q prc order s,
  ok (OpModify now id q prc) = true -> book_inv s ->
  orders_by_id_ (book s) !! id = Some order -> J s ->
  J (modify_order_entered now id (u64 q) prc order s).
Hypothesis J_cleanup : forall s, J s -> J (cleanup_empty_levels s).

Lemma match_orders_keeps (now : time_point) (s s' : State) :
  well_formed s -> ordered (book s) -> J s -> match_orders now s = Some s' ->
  well_formed s' /\ ordered (book s') /\ J s'.
Proof.
  intros Hwf Ho HJ H. unfold match_orders in H.
  eapply (match_loop_ind (fun s => well_formed s /\ ordered (book s) /\ J s));
    [|by split|done].
  intros s1 s2 (Hwf1 & Ho1 & HJ1) Hs.
  split; [by eapply match_step_well_formed|].
  split; [by eapply match_step_ordered|]. by eapply J_match.
Qed.

Lemma step_keeps (op : Op) (s s' : State) :
  ok op = true -> book_inv s -> J s -> step op s = Some s' -> J s'.
Proof.
  intros Hok Hinv HJ. destruct op as [p o|now order|id|now id q prc]; cbn [step].
  - intros [= <-]. by apply J_alloc.
  - destruct (refused_dec order s) as [Hr|Hnr].
    { rewrite (add_order_refusing now order s Hr). by intros [= <-]. }
    destruct (heap s !! order) as [o|] eqn:Ho.
    2:{ exfalso. apply Hnr. unfold refused. by rewrite Ho. }
    rewrite (add_order_accepting now order o s Ho Hnr).
    destruct (add_order_entered_inv o order s Ho Hinv) as (Hwf3 & Ho3 & _).
    assert (J (add_order_entered o order s)) as HJ3.
    { apply J_entered; [done| |done..].
      unfold refused in Hnr. rewrite Ho in Hnr.
      destruct (orders_by_id_ (book s) !! order_id o) eqn:E; [|done].
      exfalso. apply Hnr. right. by eexists. }
    destruct (match_orders now (add_order_entered o order s)) as [s4|] eqn:Hs4; [|done].
    destruct (match_orders_keeps now _ s4 Hwf3 Ho3 HJ3 Hs4) as (Hwf4 & Ho4 & HJ4).
    cbn [mbind option_bind].
    destruct (match_orders now s4) as [s5|] eqn:Hs5; [|done]. cbn.
    intros [= <-]. by apply (match_orders_keeps now s4 s5).
  - intros [= <-]. by apply J_cancel.
  - destruct (orders_by_id_ (book s) !! id) as [order|] eqn:Hid.
    2:{ rewrite (modify_order_absent now id (u64 q) prc s Hid). by intros [= <-]. }
    rewrite (modify_order_found now id (u64 q) prc order s Hid).
    destruct (modify_order_entered_inv now id (u64 q) prc order s (u64_range q) Hinv)
      as (Hwf3 & Ho3 & _).
    pose proof (J_modify now id q prc order s Hok Hinv Hid HJ) as HJ3.
    destruct (match_orders now _) as [s4|] eqn:Hs4; [|done]. cbn.
    intros [= <-]. apply J_cleanup.
    by apply (match_orders_keeps now _ s4 Hwf3 Ho3 HJ3 Hs4).
Qed.

Lemma run_keeps (ops : list Op) (s s' : State) :
  forallb ok ops = true -> book_inv s -> J s -> run ops s = Some s' ->
  book_inv s' /\ J s'.
Proof.
  revert s. induction ops as [|op ops IH]; intros s Hok Hinv HJ; cbn.
  - intros [= <-]. by split.
  - cbn in Hok. apply andb_prop in Hok as [Hop Hops].
    destruct (step op s) as [s1|] eqn:Hs; [|done]. cbn.
    destruct (step_inv op s Hinv) as (s1' & Hs1 & Hinv1).
    assert (s1' = s1) as -> by congruence.
    apply IH; [done|done|]. exact (step_keeps op s s1 Hop Hinv HJ Hs).
Qed.

End Invariant.

(** *** The order count, the id map and the ladders *)

Ltac book_fields :=
  unfold add_to_bid_level, add_to_ask_level, remove_from_bid_level,
    remove_from_ask_level;
  cbn [book heap trace bids_ asks_ orders_by_id_ total_orders_ upd_book set_book
       set_heap set_bids set_asks set_total_orders set_orders_by_id].

Lemma ladder_ptrs_cons (k : float) (v : list ptr) (l : Ladder) (p : ptr) :
  p ∈ ladder_ptrs ((k, v) :: l) <-> p ∈ v \/ p ∈ ladder_ptrs l.
Proof. unfold ladder_ptrs. cbn. by rewrite elem_of_app. Qed.

Lemma elem_of_level_push (h : gmap ptr Order) (q p : ptr) (v : list ptr) :
  p ∈ level_push h q v <-> p = q \/ p ∈ v.
Proof. by rewrite level_push_perm, elem_of_cons. Qed.

Lemma ladder_ptrs_upsert (comp : float -> float -> bool) (h : gmap ptr Order)
    (q p : ptr) (k : float) (l : Ladder) :
  p ∈ ladder_ptrs (map_upsert comp [] (level_push h q) k l) <->
  p = q \/ p ∈ ladder_ptrs l.
Proof.
  induction l as [|[k' v] l IH]; cbn [map_upsert].
  - rewrite ladder_ptrs_cons, elem_of_level_push. unfold ladder_ptrs. cbn.
    rewrite !elem_of_nil. tauto.
  - destruct (comp k' k).
    + rewrite !ladder_ptrs_cons, IH. tauto.
    + destruct (comp k k').
      * rewrite !ladder_ptrs_cons, elem_of_level_push, elem_of_nil. tauto.
      * rewrite !ladder_ptrs_cons, elem_of_level_push. tauto.
Qed.

Lemma ladder_ptrs_adjust_keep (comp : float -> float -> bool) (h : gmap ptr Order)
    (id : Z) (p : ptr) (k : float) (l : Ladder) :
  p ∈ ladder_ptrs l -> order_id (deref h p) <> id ->
  p ∈ ladder_ptrs (map_adjust comp (level_remove h id) k l).
Proof.
  intros Hp Hid. induction l as [|[k' v] l IH]; cbn [map_adjust]; [done|].
  apply ladder_ptrs_cons in Hp.
  destruct (comp k' k); [rewrite ladder_ptrs_cons; tauto|].
  destruct (comp k k'); [rewrite ladder_ptrs_cons; tauto|].
  rewrite ladder_ptrs_cons. destruct Hp as [Hp|Hp]; [left|by right].
  unfold level_remove. by apply list_elem_of_filter.
Qed.

Lemma ladder_ptrs_drop_empty_keep (l : Ladder) (p : ptr) :
  p ∈ ladder_ptrs l -> p ∈ ladder_ptrs (drop_empty l).
Proof.
  rewrite !elem_of_ladder_ptrs. intros (kv & Hkv & Hp). exists kv. split; [|done].
  unfold drop_empty. apply list_elem_of_filter. split; [|done].
  intros E. rewrite E in Hp. by apply elem_of_nil in Hp.
Qed.

Lemma ladder_ptrs_relink (k : float) (v : list ptr) (l : Ladder) (p : ptr) :
  p ∈ ladder_ptrs (relink k v l) <-> p ∈ v \/ p ∈ ladder_ptrs l.
Proof.
  destruct v as [|q v]; cbn [relink]; [rewrite elem_of_nil; tauto|apply ladder_ptrs_cons].
Qed.

Lemma u64_succ (z : Z) : u64 (u64 z + 1) = u64 (z + 1).
Proof. unfold u64. by rewrite Zplus_mod_idemp_l. Qed.

Lemma u64_pred (z : Z) : u64 (u64 z - 1) = u64 (z - 1).
Proof. unfold u64. by rewrite Zminus_mod_idemp_l. Qed.

Lemma counted_delete (id : Z) (p : ptr) (ids : gmap Z ptr) (n : Z) :
  ids !! id = Some p -> n = u64 (Z.of_nat (size ids)) ->
  u64 (n - 1) = u64 (Z.of_nat (size (delete id ids))).
Proof.
  intros Hid ->. rewrite u64_pred. f_equal.
  rewrite map_size_delete_Some by done.
  destruct (size ids) as [|k] eqn:E; [|cbn; lia].
  apply map_size_empty_iff in E. rewrite E in Hid. by rewrite lookup_empty in Hid.
Qed.

(** What a pass of the matching loop does to the order count. *)
Lemma match_step_count (now : time_point) (s s' : State) (buy sell : ptr)
    (rb ra : list ptr) (bb ba : float) (bids' asks' : Ladder) :
  bids_ (book s) = (bb, buy :: rb) :: bids' ->
  asks_ (book s) = (ba, sell :: ra) :: asks' ->
  match_step now s = Some s' ->
  total_orders_ (book s') =
    (if is_filled (deref (heap s') sell) then fun n => u64 (n - 1) else id)
      ((if is_filled (deref (heap s') buy) then fun n => u64 (n - 1) else id)
         (total_orders_ (book s))).
Proof.
  intros Eb Ea H. unfold match_step in H. rewrite Eb, Ea in H.
  destruct (bb <? ba)%float; [done|].
  unfold unlink_if_filled in H. cbn [record_trade heap book trace] in H.
  destruct (is_filled (deref _ buy)) eqn:Fb, (is_filled (deref _ sell)) eqn:Fs;
    injection H as <-; cbn [heap book total_orders_ set_asks set_bids
                            set_total_orders set_orders_by_id];
    rewrite ?Fb, ?Fs; reflexivity.
Qed.

Lemma census_alloc (p : ptr) (o : Order) (s : State) :
  numeric_op (OpNew p o) = true -> book_inv s -> census s ->
  census (set_heap (alloc p o (heap s)) s).
Proof.
  intros Hnum _ (Hidx & Hc & Hr). split; [by apply alloc_index|]. by split.
Qed.

Lemma census_entered (o : Order) (order : ptr) (s : State) :
  heap s !! order = Some o -> orders_by_id_ (book s) !! order_id o = None ->
  book_inv s -> census s -> census (add_order_entered o order s).
Proof.
  intros Ho Hnone _ (Hidx & Hc & Hr).
  split; [by apply add_order_entered_index|].
  assert (orders_by_id_ (book (add_order_entered o order s))
          = <[order_id o := order]> (orders_by_id_ (book s))) as Ei.
  { unfold add_order_entered, add_to_level. by destruct (side o). }
  assert (total_orders_ (book (add_order_entered o order s))
          = u64 (total_orders_ (book s) + 1)) as Et.
  { unfold add_order_entered, add_to_level. by destruct (side o). }
  split.
  - unfold counted. rewrite Ei, Et, Hc, u64_succ, map_size_insert_None by done.
    f_equal. lia.
  - intros id p. rewrite Ei. intros Hp.
    assert (p = order \/ p ∈ ladder_ptrs (bids_ (book s))
            \/ p ∈ ladder_ptrs (asks_ (book s))) as Hin.
    { apply lookup_insert_Some in Hp as [[_ <-]|[_ Hp]]; [by left|right].
      by apply (Hr id). }
    unfold add_order_entered, add_to_level.
    destruct (side o); book_fields; rewrite ladder_ptrs_upsert; tauto.
Qed.

Lemma census_match (now : time_point) (s s' : State) :
  well_formed s -> ordered (book s) -> census s -> match_step now s = Some s' ->
  census s'.
Proof.
  intros Hwf Hord (Hidx & Hc & Hr) H.
  split; [by eapply match_step_index|].
  pose proof Hidx as (Hn & Hids & Hb & Ha).
  pose proof (match_step_heap _ _ _ H) as Hrel.
  pose proof H as H0.
  apply match_step_Some in H0
    as (bb & buy & rb & bids' & ba & sell & ra & asks' & Eb & Ea & _ & H0).
  cbv zeta in H0. destruct H0 as (Hh & Hb' & Ha' & _ & _ & _ & _ & Hids').
  pose proof (match_step_count now s s' buy sell rb ra bb ba bids' asks' Eb Ea H) as Ht.
  rewrite <- Hh in Hb', Ha', Hids'.
  rewrite Eb in Hb. rewrite Ea in Ha.
  destruct (ladder_indexed_elem BUY gtb _ _ _ (bb, buy :: rb) buy Hb)
    as [_ (ob & Hob & Sob & Iob & _)]; [left|left|].
  destruct (ladder_indexed_elem SELL PrimFloat.ltb _ _ _ (ba, sell :: ra) sell Ha)
    as [_ (oa & Hoa & Soa & Ioa & _)]; [left|left|].
  destruct (Hrel buy ob Hob) as (ob' & Hob' & Fob).
  destruct (Hrel sell oa Hoa) as (oa' & Hoa' & Foa).
  apply filled_only_key_fields in Fob as (_ & _ & Eob).
  apply filled_only_key_fields in Foa as (_ & _ & Eoa).
  rewrite (deref_Some _ _ _ Hob'), (deref_Some _ _ _ Hoa') in *.
  rewrite Eob, Eoa in Hids'.
  assert (order_id ob <> order_id oa) as Hne.
  { intros E. rewrite E in Iob. assert (buy = sell) as -> by congruence.
    assert (ob = oa) as -> by congruence. congruence. }
  split.
  - unfold counted. rewrite Ht, Hids'.
    destruct (is_filled ob'), (is_filled oa'); cbv beta delta [Datatypes.id]; try done.
    + eapply counted_delete; [by rewrite lookup_delete_ne|].
      by eapply counted_delete.
    + by eapply counted_delete.
    + by eapply counted_delete.
  - intros id p Hp. rewrite Hids' in Hp.
    assert (orders_by_id_ (book s) !! id = Some p /\
            (is_filled ob' = true -> p <> buy) /\
            (is_filled oa' = true -> p <> sell)) as (Hp0 & Hnb & Hna).
    { assert (forall q oq, heap s !! q = Some oq ->
                orders_by_id_ (book s) !! id = Some p -> id <> order_id oq ->
                p <> q) as Hother.
      { intros q oq Hq Hip Hd ->. destruct (Hids id q Hip) as (o' & Ho' & E).
        congruence. }
      destruct (is_filled ob'), (is_filled oa'); cbv beta delta [Datatypes.id] in Hp;
        repeat (apply lookup_delete_Some in Hp as [? Hp]);
        (split; [done|]); split; intros ?; try done; eauto. }
    rewrite Hb', Ha', !ladder_ptrs_relink.
    destruct (Hr id p Hp0) as [Hin|Hin]; [left|right].
    + rewrite Eb in Hin. apply ladder_ptrs_cons in Hin as [Hin|Hin]; [left|by right].
      destruct (is_filled ob'); [|done].
      apply elem_of_cons in Hin as [->|Hin]; [|done]. by destruct Hnb.
    + rewrite Ea in Hin. apply ladder_ptrs_cons in Hin as [Hin|Hin]; [left|by right].
      destruct (is_filled oa'); [|done].
      apply elem_of_cons in Hin as [->|Hin]; [|done]. by destruct Hna.
Qed.

Lemma census_cleanup (s : State) : census s -> census (cleanup_empty_levels s).
Proof.
  intros (Hidx & Hc & Hr). split; [by apply index_inv_cleanup|]. split; [done|].
  intros id p Hp. cbn. destruct (Hr id p Hp); [left|right];
    by apply ladder_ptrs_drop_empty_keep.
Qed.

Lemma remove_from_level_keeps (o : Order) (id : Z) (p : ptr) (s : State) :
  order_id (deref (heap s) p) <> id ->
  p ∈ ladder_ptrs (bids_ (book s)) \/ p ∈ ladder_ptrs (asks_ (book s)) ->
  p ∈ ladder_ptrs (bids_ (book (remove_from_level o id s))) \/
  p ∈ ladder_ptrs (asks_ (book (remove_from_level o id s))).
Proof.
  intros Hid Hin. unfold remove_from_level.
  destruct (side o); book_fields; (destruct Hin as [Hin|Hin]; [left|right]);
    try done; by apply ladder_ptrs_adjust_keep.
Qed.

Lemma census_cancel (id : Z) (s : State) :
  book_inv s -> census s -> census (cancel_order id s).2.
Proof.
  intros [_ Hset] (Hidx & Hc & Hr).
  split; [by apply cancel_order_index|].
  destruct (orders_by_id_ (book s) !! id) as [order|] eqn:Hid.
  2:{ rewrite (cancel_order_absent id s Hid). by split. }
  destruct (cancel_order_fields id order s Hid) as (Eh & Ei & Eb & Ea).
  assert (total_orders_ (book (cancel_order id s).2)
          = u64 (total_orders_ (book s) - 1)) as Et.
  { unfold cancel_order. rewrite Hid. cbn. unfold remove_from_level.
    by destruct (side _). }
  destruct Hidx as (_ & Hids & _ & _).
  split.
  - unfold counted. rewrite Et, Ei. by eapply counted_delete.
  - intros id' p. rewrite Ei, Eb, Ea. intros [Hne Hp]%lookup_delete_Some.
    destruct (Hids id' p Hp) as (op & Hop & E).
    destruct (remove_from_level_keeps (deref (heap s) order) id p s) as [Hin|Hin];
      [rewrite (deref_Some _ _ _ Hop); congruence|by apply (Hr id')|left|right];
      by apply ladder_ptrs_drop_empty_keep.
Qed.

Lemma census_modify (now : time_point) (id q : Z) (prc : float) (order : ptr)
    (s : State) :
  numeric_op (OpModify now id q prc) = true -> book_inv s ->
  orders_by_id_ (book s) !! id = Some order -> census s ->
  census (modify_order_entered now id (u64 q) prc order s).
Proof.
  intros Hnum [_ Hset] Hid (Hidx & Hc & Hr).
  split; [by apply modify_order_entered_index|].
  destruct Hidx as (_ & Hids & _ & _).
  set (o := deref (heap s) order).
  set (o' := set_quantity_price_timestamp (u64 q) prc now o).
  assert (orders_by_id_ (book (modify_order_entered now id (u64 q) prc order s))
          = orders_by_id_ (book s)) as Ei.
  { unfold modify_order_entered, add_to_level, remove_from_level. fold o.
    cbn [side set_quantity_price_timestamp]. by destruct (side o). }
  assert (total_orders_ (book (modify_order_entered now id (u64 q) prc order s))
          = total_orders_ (book s)) as Et.
  { unfold modify_order_entered, add_to_level, remove_from_level. fold o.
    cbn [side set_quantity_price_timestamp]. by destruct (side o). }
  split; [unfold counted; by rewrite Ei, Et|].
  intros id' p. rewrite Ei. intros Hp.
  assert (p = order \/
          p ∈ ladder_ptrs (bids_ (book (remove_from_level o id s))) \/
          p ∈ ladder_ptrs (asks_ (book (remove_from_level o id s)))) as Hin.
  { destruct (decide (id' = id)) as [->|Hne]; [left; congruence|right].
    destruct (Hids id' p Hp) as (op & Hop & E).
    apply remove_from_level_keeps; [|by apply (Hr id')].
    rewrite (deref_Some _ _ _ Hop). congruence. }
  unfold modify_order_entered, add_to_level. fold o. fold o'.
  destruct (side o'); book_fields; rewrite ladder_ptrs_upsert; tauto.
Qed.

Lemma census_new (sym : string) : census (State_new sym).
Proof.
  split; [apply index_inv_new|]. split; [done|].
  intros id p Hp. cbn in Hp. by rewrite lookup_empty in Hp.
Qed.

Lemma run_census (sym : string) (ops : list Op) (s : State) :
  forallb numeric_op ops = true -> run ops (State_new sym) = Some s ->
  book_inv s /\ census s.
Proof.
  intros Hnum Hrun.
  apply (run_keeps numeric_op census census_alloc census_entered census_match
           census_cancel census_modify census_cleanup ops (State_new sym) s);
    [done|apply book_inv_new|apply census_new|done].
Qed.

(** Numbers that are equivalent keys compare equal. *)
Lemma equiv_keys_eqb (a b : float) :
  is_number a = true -> is_number b = true ->
  PrimFloat.ltb a b = false -> PrimFloat.ltb b a = false ->
  PrimFloat.eqb a b = true.
Proof.
  unfold is_number. rewrite !FloatAxioms.eqb_spec, !FloatAxioms.ltb_spec.
  intros Ha Hb Hab Hba. unfold SFeqb at 1. by rewrite (SFcompare_Eq _ _ Ha Hb Hab Hba).
Qed.

(** No pointer is in two places of a ladder. *)
Lemma ladder_ptrs_NoDup (sd : OrderSide) (comp : float -> float -> bool)
    (h : gmap ptr Order) (ids : gmap Z ptr) (l : Ladder) :
  (forall a b c, is_number a = true -> is_number b = true ->
     comp a b = false -> comp b a = false -> comp b c = true -> comp a c = true) ->
  numeric_heap h -> sorted comp l -> ladder_indexed h ids sd comp l ->
  NoDup (ladder_ptrs l).
Proof.
  intros Heq Hn. induction l as [|[k v] l IH]; intros Hs Hl; [constructor|].
  change (NoDup (v ++ ladder_ptrs l)). apply NoDup_app. split; [|split].
  - apply Forall_cons in Hl as [(_ & Hnd & _) _]. done.
  - intros p Hp (kv & Hkv & Hq)%elem_of_ladder_ptrs.
    by eapply (head_ptr_once sd comp Heq h ids k v l kv p).
  - apply IH; [apply Hs|]. by apply Forall_cons in Hl as [_ ?].
Qed.

Lemma resting_ptrs (b : OrderBook) :
  resting b = length (ladder_ptrs (bids_ b) ++ ladder_ptrs (asks_ b)).
Proof.
  assert (forall l : Ladder, ladder_size l = length (ladder_ptrs l)) as Hl.
  { intros l. unfold ladder_size, ladder_ptrs. rewrite length_join.
    f_equal. induction l as [|kv l IH]; [done|]. cbn. by rewrite IH. }
  unfold resting. by rewrite length_app, !Hl.
Qed.

(** The id map has one entry for each order of the ladders. *)
Lemma census_resting (s : State) :
  settled (book s) -> census s -> size (orders_by_id_ (book s)) = resting (book s).
Proof.
  intros (Sb & Sa & _) ((Hn & Hids & Hb & Ha) & _ & Hr).
  rewrite resting_ptrs.
  set (ptrs := ladder_ptrs (bids_ (book s)) ++ ladder_ptrs (asks_ (book s))).
  set (f := fun p : ptr => (order_id (deref (heap s) p), p)).
  assert (forall p, p ∈ ptrs -> orders_by_id_ (book s) !! (f p).1 = Some p) as Hfwd.
  { intros p [Hp|Hp]%elem_of_app;
      apply elem_of_ladder_ptrs in Hp as (kv & Hkv & Hp).
    - destruct (ladder_indexed_elem BUY gtb _ _ _ kv p Hb Hkv Hp)
        as [_ (o & Ho & _ & Hi & _)].
      cbn. by rewrite (deref_Some _ _ _ Ho).
    - destruct (ladder_indexed_elem SELL PrimFloat.ltb _ _ _ kv p Ha Hkv Hp)
        as [_ (o & Ho & _ & Hi & _)].
      cbn. by rewrite (deref_Some _ _ _ Ho). }
  assert (NoDup ptrs) as Hnd.
  { apply NoDup_app. split; [|split].
    - by apply (ladder_ptrs_NoDup BUY gtb (heap s) (orders_by_id_ (book s)) _ gtb_equiv_l).
    - intros p (kv & Hkv & Hp)%elem_of_ladder_ptrs (kv' & Hkv' & Hp')%elem_of_ladder_ptrs.
      destruct (ladder_indexed_elem BUY gtb _ _ _ kv p Hb Hkv Hp)
        as [_ (o & Ho & Hs & _)].
      destruct (ladder_indexed_elem SELL PrimFloat.ltb _ _ _ kv' p Ha Hkv' Hp')
        as [_ (o' & Ho' & Hs' & _)].
      congruence.
    - by apply (ladder_ptrs_NoDup SELL PrimFloat.ltb (heap s) (orders_by_id_ (book s))
                  _ ltb_equiv_l). }
  rewrite <- length_map_to_list, <- (length_fmap f ptrs).
  apply Permutation_length, NoDup_Permutation.
  - apply NoDup_map_to_list.
  - apply NoDup_fmap_2; [|done]. by intros p q [= _ ->].
  - intros [id p]. rewrite elem_of_map_to_list, list_elem_of_fmap. split.
    + intros Hp. exists p. destruct (Hids id p Hp) as (o & Ho & E).
      split; [unfold f; by rewrite (deref_Some _ _ _ Ho), E|].
      apply elem_of_app. destruct (Hr id p Hp); [by left|by right].
    + intros (q & [= -> ->] & Hq). by apply Hfwd.
Qed.

Lemma key_match_gtb_eqb (a b : float) :
  is_number a = true -> is_number b = true -> key_match gtb a b ->
  PrimFloat.eqb a b = true.
Proof. unfold key_match, gtb. intros Ha Hb [H1 H2]. by apply equiv_keys_eqb. Qed.

Lemma key_match_ltb_eqb (a b : float) :
  is_number a = true -> is_number b = true -> key_match PrimFloat.ltb a b ->
  PrimFloat.eqb a b = true.
Proof. unfold key_match. intros Ha Hb [H1 H2]. by apply equiv_keys_eqb. Qed.

(** X8 (ladders and id map). In every state reached from an empty book by
    operations whose prices are numbers: every pointer in a level of the
    bid (ask) ladder points to a BUY (SELL) order whose price compares
    equal to the price of the level and whose id the id map sends to that
    pointer; and every entry of the id map is an order of that id that is
    in a level of one of the ladders. *)
Theorem ladders_and_id_map_agree (sym : string) (ops : list Op) :
  forallb numeric_op ops = true ->
  exists s, run ops (State_new sym) = Some s /\
    (forall kv p, kv ∈ bids_ (book s) -> p ∈ kv.2 ->
       exists o, heap s !! p = Some o /\ side o = BUY /\
         (price o =? kv.1)%float = true /\
         orders_by_id_ (book s) !! order_id o = Some p) /\
    (forall kv p, kv ∈ asks_ (book s) -> p ∈ kv.2 ->
       exists o, heap s !! p = Some o /\ side o = SELL /\
         (price o =? kv.1)%float = true /\
         orders_by_id_ (book s) !! order_id o = Some p) /\
    (forall id p, orders_by_id_ (book s) !! id = Some p ->
       (exists o, heap s !! p = Some o /\ order_id o = id) /\
       (p ∈ ladder_ptrs (bids_ (book s)) \/ p ∈ ladder_ptrs (asks_ (book s)))).
Proof.
  intros Hnum. destruct (run_inv ops _ (book_inv_new sym)) as (s & Hs & _).
  exists s. split; [done|].
  destruct (run_census sym ops s Hnum Hs) as (_ & (Hn & Hids & Hb & Ha) & _ & Hr).
  split; [|split].
  - intros kv p Hkv Hp.
    destruct (ladder_indexed_elem BUY gtb _ _ _ kv p Hb Hkv Hp)
      as [Hk (o & Ho & Hsd & Hi & Hm)].
    exists o. split; [done|]. split; [done|]. split; [|done].
    apply key_match_gtb_eqb; [by eapply Hn|done..].
  - intros kv p Hkv Hp.
    destruct (ladder_indexed_elem SELL PrimFloat.ltb _ _ _ kv p Ha Hkv Hp)
      as [Hk (o & Ho & Hsd & Hi & Hm)].
    exists o. split; [done|]. split; [done|]. split; [|done].
    apply key_match_ltb_eqb; [by eapply Hn|done..].
  - intros id p Hp. split; [by apply Hids|by apply (Hr id)].
Qed.

Lemma ladders_and_id_map_agree_witness :
  exists s, run one_resting_buy (State_new "AAPL") = Some s /\
    bids_ (book s) = [(150%float, [1%N])] /\
    orders_by_id_ (book s) !! 1 = Some 1%N.
Proof.
  destruct (ladders_and_id_map_agree "AAPL" one_resting_buy eq_refl)
    as (s & Hs & _).
  exists s. split; [exact Hs|].
  vm_compute in Hs. injection Hs as <-. split; reflexivity.
Defined.

(** X9 (order count). In every state reached from an empty book by
    operations whose prices are numbers, [get_order_count] is the number
    of entries of the id map, which is the number of orders in the levels
    of the two ladders. *)
Theorem order_count_is_the_number_of_resting_orders (sym : string) (ops : list Op) :
  forallb numeric_op ops = true ->
  exists s, run ops (State_new sym) = Some s /\
    get_order_count (book s) = u64 (Z.of_nat (size (orders_by_id_ (book s)))) /\
    size (orders_by_id_ (book s)) = resting (book s).
Proof.
  intros Hnum. destruct (run_inv ops _ (book_inv_new sym)) as (s & Hs & _).
  exists s. split; [done|].
  destruct (run_census sym ops s Hnum Hs) as ([_ Hset] & Hcen).
  split; [apply Hcen|by apply census_resting].
Qed.

Lemma order_count_is_the_number_of_resting_orders_witness :
  exists s, run one_resting_buy (State_new "AAPL") = Some s /\
    get_order_count (book s) = 1 /\ resting (book s) = 1%nat.
Proof.
  destruct (order_count_is_the_number_of_resting_orders "AAPL" one_resting_buy eq_refl)
    as (s & Hs & _).
  exists s. split; [exact Hs|].
  vm_compute in Hs. injection Hs as <-. split; reflexivity.
Defined.

(** ** Time priority *)

Lemma by_time_insert (h : gmap ptr Order) (p : ptr) (l : list ptr) :
  by_time h l -> by_time h (insert_by_timestamp h p l).
Proof.
  induction l as [|q l IH]; cbn; [done|]. intros [Hall Hl].
  destruct (Z.ltb_spec (timestamp (deref h q)) (timestamp (deref h p))) as [Hlt|Hge].
  - cbn. split; [|by apply IH].
    rewrite insert_by_timestamp_perm. constructor; [lia|done].
  - cbn. split; [|by split]. constructor; [done|].
    eapply Forall_impl; [exact Hall|]. intros x Hx. cbn in Hx. lia.
Qed.

Lemma by_time_sort (h : gmap ptr Order) (l : list ptr) :
  by_time h (sort_by_timestamp h l).
Proof.
  unfold sort_by_timestamp. induction l as [|p l IH]; cbn; [done|].
  by apply by_time_insert.
Qed.

Lemma by_time_filter (h : gmap ptr Order) (P : ptr -> Prop)
    `{!forall x, Decision (P x)} (l : list ptr) :
  by_time h l -> by_time h (filter P l).
Proof.
  induction l as [|p l IH]; [done|]. cbn [by_time]. intros [Hall Hl].
  rewrite filter_cons. destruct (decide (P p)); [|by apply IH].
  cbn [by_time]. split; [|by apply IH].
  rewrite Forall_forall in Hall |- *. intros q [_ Hq]%list_elem_of_filter. by apply Hall.
Qed.

Lemma by_time_ext (h h' : gmap ptr Order) (l : list ptr) :
  (forall p, p ∈ l -> timestamp (deref h' p) = timestamp (deref h p)) ->
  by_time h l -> by_time h' l.
Proof.
  induction l as [|p l IH]; cbn; [done|]. intros Heq [Hall Hl].
  split; [|apply IH; [intros q Hq; apply Heq; by right|done]].
  rewrite Forall_forall in Hall |- *. intros q Hq.
  rewrite (Heq p), (Heq q); [by apply Hall|by right|by left].
Qed.

Lemma by_time_lookup (h : gmap ptr Order) (l : list ptr) (i j : nat) (p q : ptr) :
  by_time h l -> (i < j)%nat -> l !! i = Some p -> l !! j = Some q ->
  timestamp (deref h p) <= timestamp (deref h q).
Proof.
  revert i j. induction l as [|x l IH]; intros i j Hl Hij Hi Hj; [done|].
  destruct Hl as [Hall Hl]. destruct j as [|j]; [lia|]. cbn in Hj.
  destruct i as [|i].
  - injection Hi as ->. rewrite Forall_forall in Hall. apply Hall.
    by eapply list_elem_of_lookup_2.
  - cbn in Hi. apply (IH i j); [done|lia|done..].
Qed.

Lemma ladder_by_time_ext (h h' : gmap ptr Order) (l : Ladder) :
  (forall p, p ∈ ladder_ptrs l -> timestamp (deref h' p) = timestamp (deref h p)) ->
  ladder_by_time h l -> ladder_by_time h' l.
Proof.
  intros Heq Hl. unfold ladder_by_time in *. rewrite Forall_forall in Hl |- *.
  intros kv Hkv. apply (by_time_ext h); [|by apply Hl].
  intros p Hp. apply Heq, elem_of_ladder_ptrs. eauto.
Qed.

Lemma ladder_by_time_upsert (comp : float -> float -> bool) (h : gmap ptr Order)
    (p : ptr) (k : float) (l : Ladder) :
  ladder_by_time h l ->
  ladder_by_time h (map_upsert comp [] (level_push h p) k l).
Proof.
  intros Hl. unfold ladder_by_time in *. rewrite Forall_forall in Hl |- *.
  intros kv [Hold|[(v & Hv & ->)| ->]]%map_upsert_elem; [by apply Hl|..];
    apply by_time_sort.
Qed.

Lemma ladder_by_time_adjust (comp : float -> float -> bool) (h : gmap ptr Order)
    (id : Z) (k : float) (l : Ladder) :
  ladder_by_time h l ->
  ladder_by_time h (map_adjust comp (level_remove h id) k l).
Proof.
  intros Hl. unfold ladder_by_time in *. rewrite Forall_forall in Hl |- *.
  intros kv [Hold|(v & Hv & ->)]%map_adjust_elem; [by apply Hl|].
  unfold level_remove. apply by_time_filter. by apply (Hl (kv.1, v)).
Qed.

Lemma ladder_by_time_drop_empty (h : gmap ptr Order) (l : Ladder) :
  ladder_by_time h l -> ladder_by_time h (drop_empty l).
Proof.
  unfold ladder_by_time, drop_empty. rewrite !Forall_forall.
  intros Hl kv [_ Hkv]%list_elem_of_filter. by apply Hl.
Qed.

Lemma ladder_by_time_relink (h : gmap ptr Order) (k : float) (c : bool) (p : ptr)
    (rest : list ptr) (others : Ladder) :
  ladder_by_time h ((k, p :: rest) :: others) ->
  ladder_by_time h (relink k (if c then rest else p :: rest) others).
Proof.
  intros [[Hall Hrest] Ho]%Forall_cons. cbn in Hall, Hrest.
  unfold ladder_by_time. destruct c.
  - destruct rest as [|q rest]; cbn [relink]; [exact Ho|].
    constructor; [exact Hrest|exact Ho].
  - cbn [relink]. constructor; [by split|exact Ho].
Qed.

Lemma timestamp_fill (p q : ptr) (qty : Z) (h : gmap ptr Order) :
  timestamp (deref (fill p qty h) q) = timestamp (deref h q).
Proof.
  destruct (decide (p = q)) as [->|Hne].
  - by rewrite deref_fill_eq.
  - by rewrite deref_fill_ne.
Qed.

Lemma timed_alloc (p : ptr) (o : Order) (s : State) :
  numeric_op (OpNew p o) = true -> book_inv s -> timed s ->
  timed (set_heap (alloc p o (heap s)) s).
Proof.
  intros Hnum [(_ & Wb & Wa) _] (Hidx & Tb & Ta). split; [by apply alloc_index|].
  assert (forall sd l, ladder_all (side_of (heap s) sd) l ->
            ladder_by_time (heap s) l -> ladder_by_time (alloc p o (heap s)) l) as Hl.
  { intros sd l Hw. apply ladder_by_time_ext.
    intros q (kv & Hkv & Hq)%elem_of_ladder_ptrs.
    unfold ladder_all in Hw. rewrite Forall_forall in Hw.
    specialize (Hw kv Hkv). rewrite Forall_forall in Hw.
    destruct (Hw q Hq) as (oq & Hoq & _).
    by rewrite (deref_Some _ _ _ Hoq), (deref_Some _ _ _ (alloc_keeps p q o oq _ Hoq)). }
  split; cbn; eauto.
Qed.

Lemma timed_entered (o : Order) (order : ptr) (s : State) :
  heap s !! order = Some o -> orders_by_id_ (book s) !! order_id o = None ->
  book_inv s -> timed s -> timed (add_order_entered o order s).
Proof.
  intros Ho Hnone _ (Hidx & Tb & Ta).
  split; [by apply add_order_entered_index|].
  unfold add_order_entered, add_to_level.
  destruct (side o); book_fields; split; try done; by apply ladder_by_time_upsert.
Qed.

Lemma timed_match (now : time_point) (s s' : State) :
  well_formed s -> ordered (book s) -> timed s -> match_step now s = Some s' ->
  timed s'.
Proof.
  intros Hwf Hord (Hidx & Tb & Ta) H.
  split; [by eapply match_step_index|].
  apply match_step_Some in H
    as (bb & buy & rb & bids' & ba & sell & ra & asks' & Eb & Ea & _ & H).
  cbv zeta in H. destruct H as (Hh & Hb' & Ha' & _).
  rewrite Eb in Tb. rewrite Ea in Ta. rewrite Hb', Ha', Hh.
  split; (apply (ladder_by_time_ext (heap s));
          [intros; by rewrite 2!timestamp_fill|by apply ladder_by_time_relink]).
Qed.

Lemma timed_cleanup (s : State) : timed s -> timed (cleanup_empty_levels s).
Proof.
  intros (Hidx & Tb & Ta). split; [by apply index_inv_cleanup|].
  split; by apply ladder_by_time_drop_empty.
Qed.

Lemma timed_cancel (id : Z) (s : State) :
  book_inv s -> timed s -> timed (cancel_order id s).2.
Proof.
  intros [_ Hset] (Hidx & Tb & Ta).
  split; [by apply cancel_order_index|].
  destruct (orders_by_id_ (book s) !! id) as [order|] eqn:Hid.
  2:{ rewrite (cancel_order_absent id s Hid). by split. }
  destruct (cancel_order_fields id order s Hid) as (Eh & Ei & Eb & Ea).
  rewrite Eh, Eb, Ea.
  assert (forall l, ladder_by_time (heap s) l ->
            ladder_by_time
              (<[order := set_status CANCELLED (deref (heap s) order)]> (heap s))
              (drop_empty l)) as Hl.
  { intros l Hl. apply ladder_by_time_drop_empty.
    eapply ladder_by_time_ext; [|exact Hl]. intros p _. unfold deref.
    destruct (decide (order = p)) as [->|Hne].
    - by rewrite lookup_total_insert_eq.
    - by rewrite lookup_total_insert_ne. }
  unfold remove_from_level.
  destruct (side _); book_fields; split; apply Hl; try done;
    by apply ladder_by_time_adjust.
Qed.

Lemma timed_modify (now : time_point) (id q : Z) (prc : float) (order : ptr)
    (s : State) :
  numeric_op (OpModify now id q prc) = true -> book_inv s ->
  orders_by_id_ (book s) !! id = Some order -> timed s ->
  timed (modify_order_entered now id (u64 q) prc order s).
Proof.
  intros Hnum [_ Hset] Hid (Hidx & Tb & Ta).
  split; [by apply modify_order_entered_index|].
  destruct (remove_from_level_index id order s Hset Hidx Hid) as (Hfb & Hfa & _).
  cbv zeta in Hfb, Hfa.
  set (o := deref (heap s) order) in *.
  set (o' := set_quantity_price_timestamp (u64 q) prc now o).
  set (s1 := remove_from_level o id s) in *.
  assert (heap s1 = heap s) as Eh by apply remove_from_level_heap.
  assert (ladder_by_time (heap s) (bids_ (book s1)) /\
          ladder_by_time (heap s) (asks_ (book s1))) as [Tb1 Ta1].
  { unfold s1, remove_from_level.
    destruct (side o); book_fields; split; try done; by apply ladder_by_time_adjust. }
  assert (forall l, order ∉ ladder_ptrs l -> ladder_by_time (heap s) l ->
            ladder_by_time (<[order := o']> (heap s)) l) as Hl.
  { intros l Hfresh. apply ladder_by_time_ext. intros p Hp. unfold deref.
    rewrite lookup_total_insert_ne; [done|]. by intros <-. }
  unfold modify_order_entered. fold o. fold s1. fold o'. rewrite Eh.
  unfold add_to_level.
  destruct (side o'); book_fields; split; eauto; apply ladder_by_time_upsert; eauto.
Qed.

Lemma timed_new (sym : string) : timed (State_new sym).
Proof. split; [apply index_inv_new|]. split; constructor. Qed.

(** X10 (time priority). In every state reached from an empty book by
    operations whose prices are numbers, the orders of every level of
    both ladders are in the order of their timestamps, earliest first:
    the order that [match_orders] takes from the front of the best level
    is the earliest of that level. *)
Theorem levels_are_in_time_priority (sym : string) (ops : list Op) :
  forallb numeric_op ops = true ->
  exists s, run ops (State_new sym) = Some s /\
    forall kv i j p q, kv ∈ bids_ (book s) \/ kv ∈ asks_ (book s) ->
      (i < j)%nat -> kv.2 !! i = Some p -> kv.2 !! j = Some q ->
      timestamp (deref (heap s) p) <= timestamp (deref (heap s) q).
Proof.
  intros Hnum. destruct (run_inv ops _ (book_inv_new sym)) as (s & Hs & _).
  exists s. split; [done|].
  destruct (run_keeps numeric_op timed timed_alloc timed_entered timed_match
              timed_cancel timed_modify timed_cleanup ops (State_new sym) s)
    as (_ & _ & Tb & Ta); [done|apply book_inv_new|apply timed_new|done|].
  intros kv i j p q Hkv Hij Hi Hj.
  unfold ladder_by_time in Tb, Ta. rewrite Forall_forall in Tb, Ta.
  apply (by_time_lookup (heap s) kv.2 i j); [|done..].
  destruct Hkv; [by apply Tb|by apply Ta].
Qed.

Lemma levels_are_in_time_priority_witness :
  exists s, run late_first (State_new "AAPL") = Some s /\
    bids_ (book s) = [(150%float, [1%N; 2%N])] /\
    timestamp (deref (heap s) 1%N) <= timestamp (deref (heap s) 2%N).
Proof.
  destruct (levels_are_in_time_priority "AAPL" late_first eq_refl) as (s & Hs & Ht).
  exists s. split; [exact Hs|].
  assert (bids_ (book s) = [(150%float, [1%N; 2%N])]) as Eb.
  { vm_compute in Hs. by injection Hs as <-. }
  split; [exact Eb|].
  apply (Ht (150%float, [1%N; 2%N]) 0%nat 1%nat);
    [left; rewrite Eb; apply list_elem_of_here|lia|reflexivity|reflexivity].
Defined.

(** ** Fills *)

Lemma no_overfill_alloc (p : ptr) (o : Order) (s : State) :
  fills_from_matching (OpNew p o) = true -> book_inv s -> no_overfill s ->
  no_overfill (set_heap (alloc p o (heap s)) s).
Proof.
  intros Hok _ Hno q oq. cbn. unfold alloc.
  destruct (heap s !! p) eqn:Hp; [apply Hno|].
  destruct (typed_orderb o); [|apply Hno].
  destruct (decide (p = q)) as [->|Hne].
  - rewrite lookup_insert_eq. intros [= <-]. cbn in Hok. lia.
  - rewrite lookup_insert_ne by done. apply Hno.
Qed.

Lemma no_overfill_entered (o : Order) (order : ptr) (s : State) :
  heap s !! order = Some o -> orders_by_id_ (book s) !! order_id o = None ->
  book_inv s -> no_overfill s -> no_overfill (add_order_entered o order s).
Proof.
  intros _ _ _ Hno p op. unfold add_order_entered. cbn.
  rewrite add_to_level_heap. apply Hno.
Qed.

Lemma fill_within (o : Order) (other : Z) :
  0 <= quantity o < 2 ^ 64 -> 0 <= filled_quantity o <= quantity o -> 0 <= other ->
  let mq := Z.min (remaining_quantity o) other in
  0 <= u64 (filled_quantity o + mq) <= quantity o.
Proof.
  intros Hq Hf Ho. cbv zeta. unfold remaining_quantity.
  rewrite (u64_small (quantity o - filled_quantity o)) by lia.
  rewrite u64_small by lia. lia.
Qed.

Lemma no_overfill_match (now : time_point) (s s' : State) :
  well_formed s -> ordered (book s) -> no_overfill s ->
  match_step now s = Some s' -> no_overfill s'.
Proof.
  intros (Ht & Wb & Wa) _ Hno H.
  apply match_step_Some in H
    as (bb & buy & rb & bids' & ba & sell & ra & asks' & Eb & Ea & _ & H).
  cbv zeta in H. destruct H as (Hh & _).
  rewrite Eb in Wb. rewrite Ea in Wa.
  apply Forall_cons in Wb as [[(ob & Hob & Sob) _]%Forall_cons _].
  apply Forall_cons in Wa as [[(oa & Hoa & Soa) _]%Forall_cons _].
  assert (buy <> sell) as Hne by (intros ->; congruence).
  rewrite (deref_Some _ _ _ Hob), (deref_Some _ _ _ Hoa) in Hh.
  destruct (Ht buy ob Hob) as [Hqb Hfb]. destruct (Ht sell oa Hoa) as [Hqa Hfa].
  pose proof (Hno buy ob Hob) as Hnb. pose proof (Hno sell oa Hoa) as Hna.
  pose proof (u64_range (quantity ob - filled_quantity ob)) as Hrb.
  pose proof (u64_range (quantity oa - filled_quantity oa)) as Hra.
  intros p o. rewrite Hh. unfold fill at 1.
  rewrite (deref_fill_ne buy sell) by done. rewrite (deref_Some _ _ _ Hoa).
  destruct (decide (sell = p)) as [->|Hps].
  { rewrite lookup_insert_eq. intros [= <-]. cbn [filled_quantity quantity set_filled_quantity].
    rewrite Z.min_comm. apply fill_within; [done..|apply Hrb]. }
  rewrite lookup_insert_ne by done. unfold fill.
  rewrite (deref_Some _ _ _ Hob).
  destruct (decide (buy = p)) as [->|Hpb].
  { rewrite lookup_insert_eq. intros [= <-]. cbn [filled_quantity quantity set_filled_quantity].
    apply fill_within; [done..|apply Hra]. }
  rewrite lookup_insert_ne by done. apply Hno.
Qed.

Lemma no_overfill_cancel (id : Z) (s : State) :
  book_inv s -> no_overfill s -> no_overfill (cancel_order id s).2.
Proof.
  intros _ Hno.
  destruct (orders_by_id_ (book s) !! id) as [order|] eqn:Hid.
  2:{ by rewrite (cancel_order_absent id s Hid). }
  destruct (cancel_order_fields id order s Hid) as (Eh & _).
  intros p o. rewrite Eh. destruct (decide (order = p)) as [->|Hne].
  - rewrite lookup_insert_eq. intros [= <-]. cbn. unfold deref.
    rewrite lookup_total_alt. destruct (heap s !! p) as [op|] eqn:Hp; cbn; [|lia].
    by apply (Hno p).
  - rewrite lookup_insert_ne by done. apply Hno.
Qed.

Lemma no_overfill_modify (now : time_point) (id q : Z) (prc : float) (order : ptr)
    (s : State) :
  fills_from_matching (OpModify now id q prc) = true -> book_inv s ->
  orders_by_id_ (book s) !! id = Some order -> no_overfill s ->
  no_overfill (modify_order_entered now id (u64 q) prc order s).
Proof. discriminate. Qed.

Lemma no_overfill_cleanup (s : State) :
  no_overfill s -> no_overfill (cleanup_empty_levels s).
Proof. done. Qed.

(** X11 (no overfill). When orders are constructed with
    [filled_quantity <= quantity] and no quantity is modified afterwards,
    no sequence of [add_order] and [cancel_order] calls ever fills an order
    beyond its quantity: in every state reached, every order has
    [filled_quantity <= quantity], so [remaining_quantity()] is
    [quantity - filled_quantity] without wrap-around. *)
Theorem orders_are_never_overfilled (sym : string) (ops : list Op) :
  forallb fills_from_matching ops = true ->
  exists s, run ops (State_new sym) = Some s /\
    forall p o, heap s !! p = Some o ->
      0 <= filled_quantity o <= quantity o /\
      remaining_quantity o = quantity o - filled_quantity o.
Proof.
  intros Hok. destruct (run_inv ops _ (book_inv_new sym)) as (s & Hs & _).
  exists s. split; [done|].
  destruct (run_keeps fills_from_matching no_overfill no_overfill_alloc
              no_overfill_entered no_overfill_match no_overfill_cancel
              no_overfill_modify no_overfill_cleanup ops (State_new sym) s)
    as ([(Ht & _) _] & Hno); [done|apply book_inv_new| |done|].
  { intros p o Hp. cbn in Hp. by rewrite lookup_empty in Hp. }
  intros p o Hp. split; [by apply (Hno p)|].
  unfold remaining_quantity. apply u64_small.
  pose proof (Hno p o Hp). destruct (Ht p o Hp). lia.
Qed.

Lemma orders_are_never_overfilled_witness :
  exists s, run partial_fill (State_new "AAPL") = Some s /\
    filled_quantity (deref (heap s) 1%N) = 40 /\
    remaining_quantity (deref (heap s) 1%N) = 60.
Proof.
  destruct (orders_are_never_overfilled "AAPL" partial_fill eq_refl) as (s & Hs & _).
  exists s. split; [exact Hs|].
  vm_compute in Hs. injection Hs as <-. split; reflexivity.
Defined.

(** ** An order without a counterparty *)

Lemma match_orders_one_side_empty (now : time_point) (s : State) :
  bids_ (book s) = [] \/ asks_ (book s) = [] -> match_orders now s = Some s.
Proof.
  intros Hside. unfold match_orders. cbn [match_loop].
  assert (match_step now s = None) as ->; [|done].
  unfold match_step. destruct Hside as [-> | ->]; [done|].
  by destruct (bids_ (book s)) as [|[? ?] ?].
Qed.

(** X12 (no counterparty). An order that [add_order] accepts while the
    opposite ladder is empty is not matched, whatever its type: the call
    returns true, records no trade and leaves the order in a level of the
    ladder of its side, in the id map and counted; no [Order] object is
    changed. *)
Theorem add_order_without_counterparty_rests (now : time_point) (order : ptr)
    (o : Order) (s : State) :
  heap s !! order = Some o -> symbol o = symbol_ (book s) ->
  orders_by_id_ (book s) !! order_id o = None ->
  (side o = BUY -> asks_ (book s) = []) ->
  (side o = SELL -> bids_ (book s) = []) ->
  exists s', add_order now order s = Some (true, s') /\
    trace s' = trace s /\ heap s' = heap s /\
    orders_by_id_ (book s') = <[order_id o := order]> (orders_by_id_ (book s)) /\
    get_order_count (book s') = u64 (get_order_count (book s) + 1) /\
    (side o = BUY -> order ∈ ladder_ptrs (bids_ (book s')) /\
                     asks_ (book s') = []) /\
    (side o = SELL -> order ∈ ladder_ptrs (asks_ (book s')) /\
                      bids_ (book s') = []).
Proof.
  intros Ho Hsym Hnone Hbuy Hsell.
  assert (~ refused order s) as Hnr.
  { unfold refused. rewrite Ho, Hnone. intros [?|[? ?]]; done. }
  rewrite (add_order_accepting now order o s Ho Hnr).
  assert (bids_ (book (add_order_entered o order s)) = [] \/
          asks_ (book (add_order_entered o order s)) = []) as Hside.
  { unfold add_order_entered, add_to_level.
    destruct (side o); book_fields; [right|left]; eauto. }
  rewrite (match_orders_one_side_empty now _ Hside). cbn [mbind option_bind].
  rewrite (match_orders_one_side_empty now _ Hside). cbn [mbind option_bind].
  exists (add_order_entered o order s). split; [done|].
  unfold add_order_entered, add_to_level, get_order_count.
  destruct (side o); book_fields;
    (split; [done|]); (split; [done|]); (split; [done|]); (split; [done|]);
    split; intros Hsd; try discriminate.
  - split; [apply ladder_ptrs_upsert; by left|by apply Hbuy].
  - split; [apply ladder_ptrs_upsert; by left|by apply Hsell].
Qed.

Lemma add_order_without_counterparty_rests_witness :
  exists s', add_order 9 1%N
               (set_heap (<[1%N := Order_new 5 1 7 "AAPL" SELL MARKET 50 0%float]> ∅)
                         (State_new "AAPL")) = Some (true, s') /\
    trace s' = [] /\ 1%N ∈ ladder_ptrs (asks_ (book s')).
Proof.
  destruct (add_order_without_counterparty_rests 9 1%N
              (Order_new 5 1 7 "AAPL" SELL MARKET 50 0%float)
              (set_heap (<[1%N := Order_new 5 1 7 "AAPL" SELL MARKET 50 0%float]> ∅)
                        (State_new "AAPL")))
    as (s' & Hadd & Htr & _ & _ & _ & _ & Hs); try done.
  exists s'. split; [exact Hadd|]. split; [exact Htr|]. by apply Hs.
Defined.

(** ** The shape of the ladders *)

(** X13 (ladder shape). After any sequence of operations on a book the bid
    ladder is strictly decreasing in price and the ask ladder strictly
    increasing, no level of either is empty, every pointer of the bid
    ladder is a live BUY order and every pointer of the ask ladder a live
    SELL order. *)
Theorem ladders_are_sorted_without_empty_levels (sym : string) (ops : list Op) :
  exists s, run ops (State_new sym) = Some s /\
    sorted gtb (bids_ (book s)) /\ sorted PrimFloat.ltb (asks_ (book s)) /\
    (forall kv, kv ∈ bids_ (book s) \/ kv ∈ asks_ (book s) -> kv.2 <> []) /\
    (forall p, p ∈ ladder_ptrs (bids_ (book s)) ->
       exists o, heap s !! p = Some o /\ side o = BUY) /\
    (forall p, p ∈ ladder_ptrs (asks_ (book s)) ->
       exists o, heap s !! p = Some o /\ side o = SELL).
Proof.
  destruct (run_inv ops _ (book_inv_new sym))
    as (s & Hs & (_ & Wb & Wa) & Sb & Sa & Nb & Na & _).
  exists s. split; [done|]. split; [done|]. split; [done|].
  unfold no_empty_level, ladder_all in *.
  rewrite Forall_forall in Nb, Na, Wb, Wa.
  split; [|split].
  - intros kv [Hkv|Hkv]; [by apply Nb|by apply Na].
  - intros p (kv & Hkv & Hp)%elem_of_ladder_ptrs.
    specialize (Wb kv Hkv). rewrite Forall_forall in Wb. by apply Wb.
  - intros p (kv & Hkv & Hp)%elem_of_ladder_ptrs.
    specialize (Wa kv Hkv). rewrite Forall_forall in Wa. by apply Wa.
Qed.

(** ** The queues and the books of the engine *)

Lemma symbol_kept (op : Op) (s s' : State) :
  step op s = Some s' -> symbol_ (book s') = symbol_ (book s).
Proof.
  intros H.
  apply (step_ledger (fun s0 => symbol_ (book s0) = symbol_ (book s))
           ltac:(by unfold ledger; intros ? ? [= -> _ _ _ _])
           ltac:(done) op s s'); done.
Qed.

Lemma add_order_live (now : time_point) (order : ptr) (s s' : State) (r : bool) :
  add_order now order s = Some (r, s') ->
  symbol_ (book s') = symbol_ (book s) /\
  forall p, is_Some (heap s !! p) -> is_Some (heap s' !! p).
Proof.
  intros H. split.
  - apply (symbol_kept (OpAdd now order)). cbn. by rewrite H.
  - destruct (refused_dec order s) as [Hr|Hnr].
    { rewrite (add_order_refusing now order s Hr) in H. by injection H as _ <-. }
    destruct (heap s !! order) as [o|] eqn:Ho.
    2:{ exfalso. apply Hnr. unfold refused. by rewrite Ho. }
    rewrite (add_order_accepting now order o s Ho Hnr) in H.
    destruct (match_orders now (add_order_entered o order s)) as [s4|] eqn:H4; [|done].
    cbn [mbind option_bind] in H.
    destruct (match_orders now s4) as [s5|] eqn:H5; [|done].
    cbn in H. injection H as _ <-.
    assert (forall s1 s2, match_orders now s1 = Some s2 ->
              heap_rel filled_only (heap s1) (heap s2)) as Hm.
    { intros s1 s2 H12. unfold match_orders in H12.
      eapply (match_loop_ind (fun s0 => heap_rel filled_only (heap s1) (heap s0)));
        [|apply heap_rel_refl, filled_only_refl|exact H12].
      intros sa sb Ha Hb. eapply heap_rel_trans; [apply filled_only_trans|done|].
      by eapply match_step_heap. }
    intros p [op Hp].
    assert (heap (add_order_entered o order s) = heap s) as Eh.
    { unfold add_order_entered. cbn. by rewrite add_to_level_heap. }
    rewrite <- Eh in Hp.
    destruct (Hm _ _ H4 p op Hp) as (o4 & Hp4 & _).
    destruct (Hm _ _ H5 p o4 Hp4) as (o5 & Hp5 & _). by exists o5.
Qed.

Lemma process_order_shape (now : time_point) (order : ptr) (e e' : OrderMatchingEngine) :
  (forall sym b, order_book_manager_ e !! sym = Some b -> symbol_ b = sym) ->
  process_order now order e = Some e' ->
  same_queues e e' /\
  (forall sym b, order_book_manager_ e' !! sym = Some b -> symbol_ b = sym) /\
  (forall p, is_Some (orders e !! p) -> is_Some (orders e' !! p)).
Proof.
  intros Hkey. unfold process_order.
  set (sym := symbol _). set (s := mkState _ _ _).
  destruct (add_order now order s) as [[r s']|] eqn:Hadd; [|done].
  cbn [mbind option_bind]. intros [= <-].
  destruct (add_order_live now order s s' r Hadd) as [Hsym Hlive].
  assert (symbol_ (book s') = sym) as Hsym'.
  { rewrite Hsym. unfold s, get_or_create_order_book. cbn.
    destruct (order_book_manager_ e !! sym) as [b|] eqn:Hb; [by apply Hkey|done]. }
  assert (forall sym0 b, order_book_manager_ (store_book sym s' e) !! sym0 = Some b ->
            symbol_ b = sym0) as Hkey'.
  { intros sym0 b. cbn. destruct (decide (sym = sym0)) as [<-|Hne].
    - rewrite lookup_insert_eq. by intros [= <-].
    - rewrite lookup_insert_ne by done. apply Hkey. }
  destruct r; (split; [done|]); (split; [exact Hkey'|]); exact Hlive.
Qed.

Lemma process_orders_shape (now : time_point) (batch : list ptr)
    (e e' : OrderMatchingEngine) :
  (forall sym b, order_book_manager_ e !! sym = Some b -> symbol_ b = sym) ->
  process_orders now batch e = Some e' ->
  same_queues e e' /\
  (forall sym b, order_book_manager_ e' !! sym = Some b -> symbol_ b = sym) /\
  (forall p, is_Some (orders e !! p) -> is_Some (orders e' !! p)).
Proof.
  revert e. induction batch as [|order batch IH]; intros e Hkey; cbn.
  { intros [= <-]. by split. }
  destruct (process_order now order e) as [e1|] eqn:H1; [|done]. cbn.
  intros H'. destruct (process_order_shape now order e e1 Hkey H1) as (Hq1 & Hk1 & Hl1).
  destruct (IH e1 Hk1 H') as (Hq' & Hk' & Hl').
  split; [|split; [done|eauto]].
  destruct Hq1 as (Ea & Eb & Ec), Hq' as (Ea' & Eb' & Ec').
  split; [congruence|]. split; congruence.
Qed.

Lemma foldl_count_market_data_queues {A : Type} (batch : list A)
    (e : OrderMatchingEngine) :
  let e' := foldl (fun e' _ => count_market_data_update e') e batch in
  order_buffer_ e' = order_buffer_ e /\
  market_data_buffer_ e' = market_data_buffer_ e /\
  running_ e' = running_ e /\
  market_data_updates (metrics_ e')
  = match batch with
    | [] => market_data_updates (metrics_ e)
    | _ => u64 (market_data_updates (metrics_ e) + Z.of_nat (length batch))
    end.
Proof.
  revert e. induction batch as [|x batch IH]; intros e; [done|].
  cbn [foldl]. destruct (IH (count_market_data_update e)) as (E1 & E2 & E3 & E4).
  rewrite E1, E2, E3, E4. split; [done|]. split; [done|]. split; [done|].
  destruct batch as [|y batch]; cbn [count_market_data_update metrics_ set_metrics
                                     market_data_updates length].
  - done.
  - unfold u64. rewrite Zplus_mod_idemp_l. f_equal. lia.
Qed.

Lemma heap_rel_live (R : Order -> Order -> Prop) (h h' : gmap ptr Order) (p : ptr) :
  heap_rel R h h' -> is_Some (h !! p) -> is_Some (h' !! p).
Proof. intros Hrel [o Ho]. destruct (Hrel p o Ho) as (o' & Ho' & _). by exists o'. Qed.

Lemma submit_order_spec (order : ptr) (latency : Z) (e : OrderMatchingEngine) :
  ring_inv BUFFER_SIZE (order_buffer_ e) ->
  ((submit_order order latency e).1 = true <->
   running_ e = true /\ is_Some (orders e !! order) /\
   Z.of_nat (length (pending_orders e)) < 65535) /\
  ((submit_order order latency e).1 = true ->
   pending_orders (submit_order order latency e).2 = pending_orders e ++ [order] /\
   ring_inv BUFFER_SIZE (order_buffer_ (submit_order order latency e).2) /\
   market_data_buffer_ (submit_order order latency e).2 = market_data_buffer_ e /\
   order_book_manager_ (submit_order order latency e).2 = order_book_manager_ e /\
   orders (submit_order order latency e).2 = orders e) /\
  ((submit_order order latency e).1 = false -> (submit_order order latency e).2 = e).
Proof.
  intros Hinv. unfold submit_order, pending_orders.
  destruct (try_push_items BUFFER_SIZE BUFFER_SIZE_ok order (order_buffer_ e) Hinv)
    as [Hinv' Hres].
  pose proof (ring_items_bound BUFFER_SIZE (order_buffer_ e) ltac:(done)) as Hb.
  pose proof (ring_items_bound BUFFER_SIZE
                (try_push BUFFER_SIZE order (order_buffer_ e)).2 ltac:(done)) as Hb'.
  assert (BUFFER_SIZE = 65536) as HB by reflexivity.
  destruct (running_ e); cbn [negb orb]; [|by split; [split; [|intros [? _]]|]].
  destruct (bool_decide (is_Some (orders e !! order))) eqn:Hlive; cbn [negb].
  2:{ apply bool_decide_eq_false in Hlive.
      split; [split; [done|by intros (_ & ? & _)]|]. by split. }
  apply bool_decide_eq_true in Hlive.
  destruct (try_push BUFFER_SIZE order (order_buffer_ e)) as [[|] rb];
    cbn [fst snd negb] in *.
  - rewrite Hres, length_app in Hb'. cbn in Hb'.
    split; [split; [intros _|done]|].
    { split; [done|]. split; [done|]. lia. }
    split; [|done]. intros _. by split.
  - destruct Hres as [_ Hfull].
    split; [split; [done|intros (_ & _ & ?); lia]|]. by split.
Qed.

(** Every step of the engine keeps the shape. *)
Lemma engine_step_shape (op : EngineOp) (e e' : OrderMatchingEngine) :
  engine_inv e -> engine_shape e -> engine_step op e = Some e' -> engine_shape e'.
Proof.
  intros Hinv (Ho & Hm & Hkey & Hlive).
  destruct op as [p o|tcp mdp| |order latency|id sym|now id sym q prc|data|now| | |];
    cbn [engine_step].
  - intros [= <-]. split; [done|]. split; [done|]. split; [done|].
    intros q Hq. destruct (Hlive q Hq) as [oq Hoq]. exists oq.
    by apply alloc_keeps.
  - intros [= <-]. unfold engine_start. by destruct (running_ e), tcp, mdp.
  - intros [= <-]. unfold engine_stop. by destruct (running_ e).
  - intros [= <-].
    destruct (submit_order_spec order latency e Ho) as (Hiff & Hok & Hfail).
    destruct (submit_order order latency e).1 eqn:Hr.
    + destruct (Hok eq_refl) as (Hp & Hinv' & Em & Ek & Eo).
      split; [done|]. split; [by rewrite Em|]. split; [by rewrite Ek|].
      intros p. rewrite Hp, Eo. intros [Hin|Hin]%elem_of_app; [by apply Hlive|].
      apply list_elem_of_singleton in Hin as ->. by apply Hiff.
    + by rewrite (Hfail eq_refl).
  - intros [= <-]. unfold engine_cancel_order.
    destruct (negb (running_ e)); [done|].
    destruct (order_book_manager_ e !! sym) as [b|] eqn:Hb; [|done].
    destruct (cancel_order_inv id (mkState (orders e) b []) (proj2 Hinv sym b Hb))
      as [_ Hrel].
    pose proof (symbol_kept (OpCancel id) (mkState (orders e) b []) _ eq_refl) as Hsym.
    destruct (cancel_order id _) as [r s]. cbn [snd] in *.
    split; [done|]. split; [done|]. split.
    + intros sym0 b0. cbn. destruct (decide (sym = sym0)) as [<-|Hne].
      * rewrite lookup_insert_eq. intros [= <-]. rewrite Hsym. by apply Hkey.
      * rewrite lookup_insert_ne by done. apply Hkey.
    + intros p Hp. cbn. eapply heap_rel_live; [exact Hrel|]. by apply Hlive.
  - unfold engine_modify_order.
    destruct (negb (running_ e)); [by intros [= <-]|].
    destruct (order_book_manager_ e !! sym) as [b|] eqn:Hb; [|by intros [= <-]].
    destruct (modify_order_inv now id (u64 q) prc (mkState (orders e) b [])
                (u64_range q) (proj2 Hinv sym b Hb))
      as (r & s & Hmod & _ & Hrel & _).
    pose proof (symbol_kept (OpModify now id q prc) (mkState (orders e) b []) s) as Hsym.
    cbn [step] in Hsym. rewrite Hmod in Hsym. specialize (Hsym eq_refl).
    rewrite Hmod. cbn. intros [= <-].
    split; [done|]. split; [done|]. split.
    + intros sym0 b0. cbn. destruct (decide (sym = sym0)) as [<-|Hne].
      * rewrite lookup_insert_eq. intros [= <-]. rewrite Hsym. by apply Hkey.
      * rewrite lookup_insert_ne by done. apply Hkey.
    + intros p Hp. cbn. eapply heap_rel_live; [exact Hrel|]. by apply Hlive.
  - intros [= <-]. unfold submit_market_data.
    destruct (negb (running_ e)); [done|].
    destruct (try_push_items BUFFER_SIZE BUFFER_SIZE_ok data (market_data_buffer_ e) Hm)
      as [Hinv' _].
    destruct (try_push BUFFER_SIZE data (market_data_buffer_ e)) as [[|] rb]; done.
  - unfold process_order_batch.
    destruct (pop_batch_items 100 (order_buffer_ e) Ho) as (Hb & Hrest & Hinv').
    destruct (pop_batch 100 (order_buffer_ e)) as [batch rb]. cbn [fst snd] in *.
    intros Hrun.
    destruct (process_orders_shape now batch (set_order_buffer rb e) e' Hkey Hrun)
      as ((Ea & Eb & _) & Hkey' & Hlive').
    unfold engine_shape, pending_orders. rewrite Ea, Eb. cbn.
    split; [done|]. split; [done|]. split; [done|].
    intros p Hp. apply Hlive'. cbn. apply Hlive. unfold pending_orders.
    rewrite Hrest in Hp. by eapply subseteq_drop.
  - intros [= <-]. unfold process_market_data_batch.
    destruct (pop_batch_items 100 (market_data_buffer_ e) Hm) as (_ & _ & Hinv').
    destruct (pop_batch 100 (market_data_buffer_ e)) as [batch rb]. cbn [fst snd] in *.
    destruct (foldl_count_market_data batch (set_market_data_buffer rb e))
      as (_ & Eo & Em).
    destruct (foldl_count_market_data_queues batch (set_market_data_buffer rb e))
      as (Ea & Eb & _).
    unfold engine_shape, pending_orders. rewrite Ea, Eb, Eo, Em. by cbn.
  - by intros [= <-].
  - by intros [= <-].
Qed.

Lemma engine_shape_new : engine_shape OrderMatchingEngine_new.
Proof.
  split; [by apply ring_inv_new|]. split; [by apply ring_inv_new|].
  split; [intros sym b Hb; cbn in Hb; by rewrite lookup_empty in Hb|].
  intros p Hp. by apply elem_of_nil in Hp.
Qed.

(** Every run of a fresh engine returns, in a state of that shape. *)
Lemma engine_run_shape (ops : list EngineOp) :
  exists e, engine_run ops OrderMatchingEngine_new = Some e /\
    engine_inv e /\ engine_shape e.
Proof.
  assert (forall e, engine_inv e -> no_trades_counted e -> engine_shape e ->
            exists e', engine_run ops e = Some e' /\ engine_inv e' /\ engine_shape e')
    as Hgen.
  { induction ops as [|op ops IH]; intros e Hinv Hno Hsh; [by exists e|].
    destruct (engine_step_inv op e Hinv Hno) as (e1 & H1 & Hinv1 & Hno1).
    pose proof (engine_step_shape op e e1 Hinv Hsh H1) as Hsh1.
    destruct (IH e1 Hinv1 Hno1 Hsh1) as (e' & H' & Hinv' & Hsh').
    exists e'. cbn. by rewrite H1. }
  apply Hgen; [apply engine_inv_new|done|apply engine_shape_new].
Qed.

(** X14 (engine, order queue). After any sequence of client calls and worker
    passes on a fresh engine, at most 65535 orders are pending and all of
    them are live orders; [submit_order] returns true exactly when the
    engine is running, the pointer is not null and fewer than 65535 orders
    are pending, and then the order is pending behind the others; when it
    returns false the engine is unchanged. *)
Theorem engine_submit_order_enqueues (ops : list EngineOp) :
  exists e, engine_run ops OrderMatchingEngine_new = Some e /\
    Z.of_nat (length (pending_orders e)) <= 65535 /\
    (forall p, p ∈ pending_orders e -> is_Some (orders e !! p)) /\
    forall order latency,
      ((submit_order order latency e).1 = true <->
       running_ e = true /\ is_Some (orders e !! order) /\
       Z.of_nat (length (pending_orders e)) < 65535) /\
      ((submit_order order latency e).1 = true ->
       pending_orders (submit_order order latency e).2
       = pending_orders e ++ [order]) /\
      ((submit_order order latency e).1 = false ->
       (submit_order order latency e).2 = e).
Proof.
  destruct (engine_run_shape ops) as (e & He & _ & Ho & _ & _ & Hlive).
  exists e. split; [done|]. split; [|split; [done|]].
  - pose proof (ring_items_bound BUFFER_SIZE (order_buffer_ e) ltac:(done)) as Hb.
    assert (BUFFER_SIZE = 65536) as HB by reflexivity. unfold pending_orders. lia.
  - intros order latency.
    destruct (submit_order_spec order latency e Ho) as (Hiff & Hok & Hfail).
    split; [done|]. split; [|done]. intros Hr. by apply Hok.
Qed.


(** X16 (engine, market data queue). After any sequence of client calls and
    worker passes on a fresh engine, [submit_market_data] returns true
    exactly when the engine is running and fewer than 65535 items are
    pending; a pass of the market data thread takes the oldest pending
    items, at most 100, and adds their number to [market_data_updates]. *)
Theorem engine_market_data_is_queued_and_counted (ops : list EngineOp) :
  exists e, engine_run ops OrderMatchingEngine_new = Some e /\
    (forall data,
       ((submit_market_data data e).1 = true <->
        running_ e = true /\ Z.of_nat (length (pending_market_data e)) < 65535) /\
       ((submit_market_data data e).1 = true ->
        pending_market_data (submit_market_data data e).2
        = pending_market_data e ++ [data]) /\
       ((submit_market_data data e).1 = false -> (submit_market_data data e).2 = e)) /\
    pending_market_data (process_market_data_batch e)
    = drop 100 (pending_market_data e) /\
    market_data_updates (metrics_ (process_market_data_batch e))
    = match take 100 (pending_market_data e) with
      | [] => market_data_updates (metrics_ e)
      | batch => u64 (market_data_updates (metrics_ e) + Z.of_nat (length batch))
      end.
Proof.
  destruct (engine_run_shape ops) as (e & He & _ & _ & Hm & _).
  exists e. split; [done|]. split; [|split].
  - intros data. unfold submit_market_data, pending_market_data.
    destruct (try_push_items BUFFER_SIZE BUFFER_SIZE_ok data (market_data_buffer_ e) Hm)
      as [_ Hres].
    pose proof (ring_items_bound BUFFER_SIZE
                  (try_push BUFFER_SIZE data (market_data_buffer_ e)).2 ltac:(done)) as Hb'.
    assert (BUFFER_SIZE = 65536) as HB by reflexivity.
    destruct (running_ e); cbn [negb]; [|by split; [split; [|intros [? _]]|]].
    destruct (try_push BUFFER_SIZE data (market_data_buffer_ e)) as [[|] rb];
      cbn [fst snd negb] in *.
    + rewrite Hres, length_app in Hb'. cbn in Hb'.
      split; [split; [intros _; split; [done|lia]|done]|]. by split.
    + destruct Hres as [_ Hfull].
      split; [split; [done|intros [_ ?]; lia]|]. by split.
  - unfold process_market_data_batch, pending_market_data.
    destruct (pop_batch_items 100 (market_data_buffer_ e) Hm) as (_ & Hrest & _).
    destruct (pop_batch 100 (market_data_buffer_ e)) as [batch rb]. cbn [snd] in *.
    destruct (foldl_count_market_data_queues batch (set_market_data_buffer rb e))
      as (_ & Eb & _).
    by rewrite Eb.
  - unfold process_market_data_batch, pending_market_data.
    destruct (pop_batch_items 100 (market_data_buffer_ e) Hm) as (Hb & _ & _).
    destruct (pop_batch 100 (market_data_buffer_ e)) as [batch rb]. cbn [fst] in *.
    destruct (foldl_count_market_data_queues batch (set_market_data_buffer rb e))
      as (_ & _ & _ & Ec).
    rewrite Ec, <- Hb. by destruct batch.
Qed.

(** X17 (engine, routing). After any sequence of client calls and worker
    passes on a fresh engine every book is stored under its own symbol, so
    the book that the matching thread picks for a live order never refuses
    it for its symbol: the order is accepted and counted in
    [orders_processed] exactly when its id is not in that book, and
    otherwise the pass leaves books, orders and metrics as they are. *)
Theorem engine_books_are_keyed_by_symbol (ops : list EngineOp) :
  exists e, engine_run ops OrderMatchingEngine_new = Some e /\
    (forall sym b, order_book_manager_ e !! sym = Some b -> symbol_ b = sym) /\
    forall now order o, orders e !! order = Some o ->
      exists e', process_order now order e = Some e' /\
        (orders_by_id_ (get_or_create_order_book (symbol o) e) !! order_id o = None ->
         orders_processed (metrics_ e')
         = u64 (orders_processed (metrics_ e) + 1) /\
         is_Some (order_book_manager_ e' !! symbol o)) /\
        (is_Some (orders_by_id_ (get_or_create_order_book (symbol o) e) !! order_id o) ->
         metrics_ e' = metrics_ e /\ orders e' = orders e /\
         order_book_manager_ e' = order_book_manager_ e).
Proof.
  destruct (engine_run_shape ops) as (e & He & Hinv & _ & _ & Hkey & _).
  exists e. split; [done|]. split; [done|].
  intros now order o Ho.
  destruct (process_order_inv now order e Hinv) as (e' & He' & _).
  exists e'. split; [done|].
  unfold process_order in He'. rewrite (deref_Some _ _ _ Ho) in He'.
  set (b := get_or_create_order_book (symbol o) e) in *.
  set (s := mkState (orders e) b []) in *.
  assert (symbol_ b = symbol o) as Hsym.
  { unfold b, get_or_create_order_book.
    destruct (order_book_manager_ e !! symbol o) as [b0|] eqn:Hb; [by apply Hkey|done]. }
  split.
  - intros Hnone.
    assert (~ refused order s) as Hnr.
    { unfold refused. cbn. rewrite Ho, Hnone. intros [?|[? ?]]; done. }
    rewrite (add_order_accepting now order o s Ho Hnr) in He'.
    destruct (match_orders now _) as [s4|]; [|done]. cbn [mbind option_bind] in He'.
    destruct (match_orders now s4) as [s5|]; [|done]. cbn in He'.
    injection He' as <-.
    cbn [count_order_processed set_metrics metrics_ orders_processed store_book
         order_book_manager_].
    split; [done|]. by rewrite lookup_insert_eq.
  - intros Hsome.
    assert (refused order s) as Hr.
    { unfold refused. cbn. rewrite Ho. by right. }
    rewrite (add_order_refusing now order s Hr) in He'. cbn in He'.
    injection He' as <-. cbn. split; [done|]. split; [done|].
    apply insert_id. unfold b, get_or_create_order_book in *.
    destruct (order_book_manager_ e !! symbol o) as [b0|] eqn:Hb; [done|].
    cbn in Hsome. rewrite lookup_empty in Hsome. by destruct Hsome.
Qed.

(** ** The metrics of the engine *)

Lemma record_latencies_metrics (ls : list Z) (e : OrderMatchingEngine) :
  let m := metrics_ e in
  let m' := metrics_ (record_latencies ls e) in
  max_latency_ns m' = foldl Z.max (max_latency_ns m) ls /\
  min_latency_ns m' = foldl Z.min (min_latency_ns m) ls /\
  u64 (total_latency_ns m') = u64 (total_latency_ns m + foldr Z.add 0 ls) /\
  orders_processed m' = orders_processed m /\
  trades_executed m' = trades_executed m.
Proof.
  revert e. induction ls as [|l ls IH]; intros e; cbv zeta.
  { cbn. by rewrite Z.add_0_r. }
  unfold record_latencies. cbn [foldl foldr].
  destruct (IH (update_performance_metrics l e)) as (Hmax & Hmin & Htot & Hop & Hte).
  unfold record_latencies in *. rewrite Hmax, Hmin, Htot, Hop, Hte.
  cbn [update_performance_metrics set_metrics metrics_ max_latency_ns min_latency_ns
       total_latency_ns orders_processed trades_executed].
  split; [|split; [|split; [|done]]].
  - f_equal. destruct (Z.ltb_spec (max_latency_ns (metrics_ e)) l); lia.
  - f_equal. destruct (Z.ltb_spec l (min_latency_ns (metrics_ e))); lia.
  - unfold u64. rewrite Zplus_mod_idemp_l. f_equal. lia.
Qed.

Lemma foldl_max_bounds (ls : list Z) (a : Z) :
  a <= foldl Z.max a ls /\ forall l, l ∈ ls -> l <= foldl Z.max a ls.
Proof.
  revert a. induction ls as [|x ls IH]; intros a; cbn.
  { split; [lia|]. by intros l ?%elem_of_nil. }
  destruct (IH (Z.max a x)) as [Ha Hall]. split; [lia|].
  intros l [->|Hl]%elem_of_cons; [lia|by apply Hall].
Qed.

Lemma foldl_min_bounds (ls : list Z) (a : Z) :
  foldl Z.min a ls <= a /\ forall l, l ∈ ls -> foldl Z.min a ls <= l.
Proof.
  revert a. induction ls as [|x ls IH]; intros a; cbn.
  { split; [lia|]. by intros l ?%elem_of_nil. }
  destruct (IH (Z.min a x)) as [Ha Hall]. split; [lia|].
  intros l [->|Hl]%elem_of_cons; [lia|by apply Hall].
Qed.

(** X18 (engine, latency statistics). Over any sequence of calls of
    [update_performance_metrics], [max_latency_ns] becomes the largest and
    [min_latency_ns] the smallest of its old value and the latencies
    given, so every latency given lies between them, and
    [total_latency_ns] grows by their sum modulo 2^64; the counters of
    orders and trades are not touched. *)
Theorem latency_statistics_bound_every_latency (ls : list Z)
    (e : OrderMatchingEngine) :
  let m := metrics_ e in
  let m' := metrics_ (record_latencies ls e) in
  max_latency_ns m' = foldl Z.max (max_latency_ns m) ls /\
  min_latency_ns m' = foldl Z.min (min_latency_ns m) ls /\
  (forall l, l ∈ ls -> min_latency_ns m' <= l <= max_latency_ns m') /\
  u64 (total_latency_ns m') = u64 (total_latency_ns m + foldr Z.add 0 ls) /\
  orders_processed m' = orders_processed m /\
  trades_executed m' = trades_executed m.
Proof.
  cbv zeta.
  destruct (record_latencies_metrics ls e) as (Hmax & Hmin & Htot & Hop & Hte).
  split; [done|]. split; [done|]. split; [|done].
  intros l Hl. rewrite Hmax, Hmin.
  split; [by apply foldl_min_bounds|by apply foldl_max_bounds].
Qed.

(** ** The performance counters *)

Lemma increments_spec (vs : list Z) (c : PerformanceCounter) :
  let c' := increments vs c in
  u64 (get_count c') = u64 (count_ c + Z.of_nat (length vs)) /\
  u64 (get_total c') = u64 (total_ c + foldr Z.add 0 vs) /\
  get_min c' = foldl Z.min (min_ c) vs /\
  get_max c' = foldl Z.max (max_ c) vs /\
  value c' = value c /\ count c' = count c /\
  min_value c' = min_value c /\ max_value c' = max_value c /\
  type_ c' = type_ c.
Proof.
  revert c. induction vs as [|v vs IH]; intros c; cbv zeta.
  { cbn. by rewrite !Z.add_0_r. }
  unfold increments. cbn [foldl foldr length].
  destruct (IH (increment v c)) as (Hc & Ht & Hmin & Hmax & Hv & Hpc & Hmi & Hma & Hty).
  unfold increments, get_count, get_total, get_min, get_max in *.
  rewrite Hc, Ht, Hmin, Hmax, Hv, Hpc, Hmi, Hma, Hty.
  cbn [increment count_ total_ min_ max_ value count min_value max_value type_].
  split; [|split; [|split; [|split; [|done]]]].
  - unfold u64. rewrite Zplus_mod_idemp_l. f_equal. lia.
  - unfold u64. rewrite Zplus_mod_idemp_l. f_equal. lia.
  - f_equal. destruct (Z.ltb_spec v (min_ c)); lia.
  - f_equal. destruct (Z.ltb_spec (max_ c) v); lia.
Qed.

(** X20 (performance counter). A counter that has been incremented with a
    sequence of values since its construction holds their number and
    their sum, both modulo 2^64, and their smallest and largest value
    (UINT64_MAX and 0 when there is none); every value given lies between
    [get_min] and [get_max].  The public member [value] is not written. *)
Theorem performance_counter_tracks_count_sum_and_extremes (t : CounterType)
    (vs : list Z) :
  let c := increments vs (PerformanceCounter_new t) in
  get_count c = u64 (Z.of_nat (length vs)) /\
  get_total c = u64 (foldr Z.add 0 vs) /\
  get_min c = foldl Z.min UINT64_MAX vs /\
  get_max c = foldl Z.max 0 vs /\
  (forall v, v ∈ vs -> get_min c <= v <= get_max c) /\
  value c = 0.
Proof.
  cbv zeta.
  destruct (increments_spec vs (PerformanceCounter_new t))
    as (Hc & Ht & Hmin & Hmax & Hv & _).
  cbn [PerformanceCounter_new count_ total_ min_ max_ value] in *.
  rewrite Z.add_0_l in Hc, Ht.
  assert (forall c0 vs0, vs0 <> [] ->
            u64 (get_count (increments vs0 c0)) = get_count (increments vs0 c0) /\
            u64 (get_total (increments vs0 c0)) = get_total (increments vs0 c0)) as Hr.
  { intros c0 vs0. revert c0. induction vs0 as [|v0 vs0 IH] using rev_ind; [done|].
    intros c0 _. unfold increments. rewrite foldl_app. cbn.
    unfold get_count, get_total. cbn. unfold u64. by rewrite !Z.mod_mod. }
  split; [|split; [|split; [done|split; [done|split; [|done]]]]].
  - destruct vs as [|v vs]; [done|]. rewrite <- Hc. symmetry. by apply Hr.
  - destruct vs as [|v vs]; [done|]. rewrite <- Ht. symmetry. by apply Hr.
  - intros v Hv'. rewrite Hmin, Hmax.
    split; [by apply foldl_min_bounds|by apply foldl_max_bounds].
Qed.

(** ** The performance monitor *)

Lemma public_untouched_new (t : CounterType) : public_untouched (PerformanceCounter_new t).
Proof. done. Qed.

Lemma public_untouched_increment (v : Z) (c : PerformanceCounter) :
  public_untouched c -> public_untouched (increment v c).
Proof. done. Qed.

Lemma public_untouched_reset (c : PerformanceCounter) :
  public_untouched c -> public_untouched (counter_reset c).
Proof. intros (_ & ? & ? & ?). by split. Qed.

Lemma ensure_counter_untouched (name : string) (t : CounterType)
    (pm : PerformanceMonitor) :
  map_Forall (fun _ c => public_untouched c) (counters_ pm) ->
  map_Forall (fun _ c => public_untouched c) (counters_ (ensure_counter name t pm)).
Proof.
  intros Hall. unfold ensure_counter, get_counter.
  destruct (counters_ pm !! name); [done|]. cbn.
  by apply map_Forall_insert_2.
Qed.

Lemma monitor_step_untouched (op : MonitorOp) (pm : PerformanceMonitor) :
  map_Forall (fun _ c => public_untouched c) (counters_ pm) ->
  map_Forall (fun _ c => public_untouched c) (counters_ (monitor_step op pm)).
Proof.
  intros Hall. destruct op as [name t|name|operation l|operation n|enable|]; cbn.
  - by apply map_Forall_insert_2.
  - by apply map_Forall_delete.
  - unfold monitor_record_latency.
    pose proof (ensure_counter_untouched operation LATENCY pm Hall) as H1.
    destruct (get_counter operation _) as [c|] eqn:Hc; [|done].
    destruct (detailed_monitoring_enabled_ _); cbn;
      (apply map_Forall_insert_2; [|done]);
      apply public_untouched_increment; by apply (H1 operation).
  - unfold record_throughput.
    pose proof (ensure_counter_untouched operation THROUGHPUT pm Hall) as H1.
    destruct (get_counter operation _) as [c|] eqn:Hc; [|done]. cbn.
    apply map_Forall_insert_2; [|done].
    apply public_untouched_increment; by apply (H1 operation).
  - done.
  - intros name c. rewrite lookup_fmap. intros Hc.
    destruct (counters_ pm !! name) as [c0|] eqn:Hc0; [|done].
    injection Hc as <-. apply public_untouched_reset. by apply (Hall name).
Qed.

(** X21 (performance monitor, throughput). Over any sequence of calls of
    the monitor (creating and removing counters, recording latencies and
    throughputs, switching detailed monitoring, resetting), no call
    writes the public members [value], [count], [min_value] and
    [max_value] of a counter, which are what the reports print; so
    [get_throughput] returns 0 for every operation, whatever was
    recorded. *)
Theorem get_throughput_is_always_zero (ops : list MonitorOp) (detailed : bool)
    (operation : string) :
  let pm := monitor_run ops (PerformanceMonitor_new detailed) in
  get_throughput operation pm = 0 /\
  forall name c, get_counter name pm = Some c ->
    value c = 0 /\ count c = 0 /\ min_value c = UINT64_MAX /\ max_value c = 0.
Proof.
  cbv zeta.
  assert (forall pm, map_Forall (fun _ c => public_untouched c) (counters_ pm) ->
            map_Forall (fun _ c => public_untouched c) (counters_ (monitor_run ops pm)))
    as Hrun.
  { unfold monitor_run. induction ops as [|op ops IH]; intros pm Hall; [done|].
    cbn. by apply IH, monitor_step_untouched. }
  specialize (Hrun (PerformanceMonitor_new detailed) ltac:(apply map_Forall_empty)).
  split; [|intros name c Hc; by apply (Hrun name)].
  unfold get_throughput.
  destruct (get_counter operation _) as [c|] eqn:Hc; [|done].
  by apply (Hrun operation).
Qed.

(** ** The latency histogram *)

Lemma histogram_ok_new (n : Z) : histogram_ok n (LatencyHistogram_new n).
Proof.
  split; [done|]. split; [apply length_replicate|]. split; [done|].
  apply Forall_replicate. lia.
Qed.

Lemma bucket_of_range (n l : Z) : 0 < n -> 0 <= l -> 0 <= bucket_of n l < n.
Proof.
  intros Hn Hl. unfold bucket_of.
  assert (0 <= l / 1000) by (apply Z.div_pos; lia). lia.
Qed.

Lemma add_latency_spec (n l : Z) (h : LatencyHistogram) :
  0 < n < 2 ^ 64 -> 0 <= l -> histogram_ok n h ->
  add_latency l h =
    mkHistogram (<[Z.to_nat (bucket_of n l) :=
                     u64 (buckets_ h !!! Z.to_nat (bucket_of n l) + 1)]> (buckets_ h))
                (u64 (total_count_ h + 1)) n 1000.
Proof.
  intros Hn Hl (Hnum & Hlen & Hsize & _).
  pose proof (bucket_of_range n l ltac:(lia) Hl) as Hb.
  assert (get_bucket_index l h = bucket_of n l) as Hidx.
  { unfold get_bucket_index, bucket_of. rewrite Hnum, Hsize, u64_small by lia.
    destruct (Z.ltb_spec (l / 1000) (n - 1)); lia. }
  unfold add_latency. rewrite Hidx, Hlen, Hnum, Hsize.
  destruct (Z.ltb_spec (bucket_of n l) (Z.of_nat (Z.to_nat n))); [done|lia].
Qed.

Lemma add_latency_ok (n l : Z) (h : LatencyHistogram) :
  0 < n < 2 ^ 64 -> 0 <= l -> histogram_ok n h -> histogram_ok n (add_latency l h).
Proof.
  intros Hn Hl Hok. rewrite (add_latency_spec n l h Hn Hl Hok).
  destruct Hok as (Hnum & Hlen & Hsize & Hall).
  split; [done|]. split; [cbn; by rewrite length_insert|]. split; [done|].
  cbn. apply Forall_insert; [done|apply u64_range].
Qed.

Lemma add_latencies_buckets (n : Z) (ls : list Z) (h : LatencyHistogram) (i : Z) :
  0 < n < 2 ^ 64 -> Forall (fun l => 0 <= l) ls -> histogram_ok n h -> 0 <= i < n ->
  histogram_ok n (add_latencies ls h) /\
  u64 (total_count_ (add_latencies ls h))
  = u64 (total_count_ h + Z.of_nat (length ls)) /\
  buckets_ (add_latencies ls h) !! Z.to_nat i
  = Some (u64 (buckets_ h !!! Z.to_nat i
               + Z.of_nat (length (filter (fun l => bucket_of n l = i) ls)))).
Proof.
  intros Hn Hls Hok Hi. revert h Hok.
  induction Hls as [|l ls Hl Hls IH]; intros h Hok.
  { cbn. split; [done|]. split; [by rewrite Z.add_0_r|].
    destruct Hok as (_ & Hlen & _ & Hall). rewrite Z.add_0_r.
    destruct (buckets_ h !! Z.to_nat i) as [b|] eqn:Hb.
    - rewrite (list_lookup_total_correct _ _ _ Hb). f_equal. symmetry.
      apply u64_small. rewrite Forall_forall in Hall. apply Hall.
      by eapply list_elem_of_lookup_2.
    - apply lookup_ge_None in Hb. lia. }
  unfold add_latencies. cbn [foldl].
  destruct (IH (add_latency l h) (add_latency_ok n l h Hn Hl Hok)) as (Hok' & Ht & Hb).
  unfold add_latencies in *. split; [done|].
  rewrite Ht, Hb, (add_latency_spec n l h Hn Hl Hok).
  cbn [total_count_ buckets_ length]. split.
  { unfold u64. rewrite Zplus_mod_idemp_l. f_equal. lia. }
  f_equal. rewrite filter_cons.
  pose proof (bucket_of_range n l ltac:(lia) Hl) as Hbl.
  destruct Hok as (_ & Hlen & _).
  destruct (decide (bucket_of n l = i)) as [->|Hne].
  - rewrite list_lookup_total_insert_eq by lia. cbn [length].
    unfold u64. rewrite Zplus_mod_idemp_l. f_equal. lia.
  - rewrite list_lookup_total_insert_ne; [done|]. intros E.
    apply Z2Nat.inj in E; lia.
Qed.

(** X22 (latency histogram, buckets). A histogram constructed with
    [num_buckets] between 1 and 2^64 - 1 and fed a sequence of latencies
    holds in bucket [i] the number (modulo 2^64) of latencies whose whole
    microseconds are [i], the last bucket holding all latencies of
    [num_buckets - 1] microseconds and more; no latency is dropped:
    [total_count_] is their number. *)
Theorem latency_histogram_counts_per_microsecond (n : Z) (ls : list Z) (i : Z) :
  0 < n < 2 ^ 64 -> Forall (fun l => 0 <= l) ls -> 0 <= i < n ->
  let h := add_latencies ls (LatencyHistogram_new n) in
  length (buckets_ h) = Z.to_nat n /\
  total_count_ h = u64 (Z.of_nat (length ls)) /\
  buckets_ h !! Z.to_nat i
  = Some (u64 (Z.of_nat (length (filter (fun l => Z.min (l / 1000) (n - 1) = i) ls)))).
Proof.
  intros Hn Hls Hi. cbv zeta.
  destruct (add_latencies_buckets n ls (LatencyHistogram_new n) i Hn Hls
              (histogram_ok_new n) Hi) as ((_ & Hlen & _) & Ht & Hb).
  split; [done|]. split.
  - change (total_count_ (LatencyHistogram_new n)) with 0 in Ht.
    rewrite Z.add_0_l in Ht. rewrite <- Ht. clear Ht Hb.
    destruct ls as [|l ls] using rev_ind; [done|].
    replace (add_latencies (ls ++ [l]) (LatencyHistogram_new n))
      with (add_latency l (add_latencies ls (LatencyHistogram_new n)))
      by (unfold add_latencies; by rewrite foldl_app).
    apply Forall_app in Hls as [Hls Hl]. apply Forall_cons in Hl as [Hl _].
    destruct (add_latencies_buckets n ls (LatencyHistogram_new n) i Hn Hls
                (histogram_ok_new n) Hi) as (Hok & _).
    rewrite (add_latency_spec n l _ Hn Hl Hok). cbn. unfold u64. by rewrite Z.mod_mod.
  - rewrite Hb. cbn [LatencyHistogram_new buckets_]. f_equal. f_equal.
    rewrite lookup_total_replicate_2 by lia. done.
Qed.

Lemma latency_histogram_counts_per_microsecond_witness :
  buckets_ (add_latencies [1500; 250; 1999; 987654] (LatencyHistogram_new 4))
    !! 1%nat = Some 2 /\
  buckets_ (add_latencies [1500; 250; 1999; 987654] (LatencyHistogram_new 4))
    !! 3%nat = Some 1.
Proof.
  split.
  - destruct (latency_histogram_counts_per_microsecond 4 [1500; 250; 1999; 987654] 1)
      as (_ & _ & Hb); [lia|repeat constructor; lia|lia|exact Hb].
  - destruct (latency_histogram_counts_per_microsecond 4 [1500; 250; 1999; 987654] 3)
      as (_ & _ & Hb); [lia|repeat constructor; lia|lia|exact Hb].
Defined.

Lemma sum_insert (i : nat) (x : Z) (l : list Z) :
  (i < length l)%nat ->
  foldr Z.add 0 (<[i := x]> l) = foldr Z.add 0 l - l !!! i + x.
Proof.
  revert i. induction l as [|y l IH]; intros i Hi; [cbn in Hi; lia|].
  destruct i as [|i]; [cbn; lia|].
  rewrite lookup_total_cons_ne_0 by done. cbn [Nat.pred]. cbn in Hi.
  change (<[S i := x]> (y :: l)) with (y :: <[i := x]> l). cbn [foldr].
  rewrite IH by lia. lia.
Qed.

Lemma elem_le_sum (i : nat) (l : list Z) :
  Forall (fun b => 0 <= b) l -> (i < length l)%nat -> l !!! i <= foldr Z.add 0 l.
Proof.
  intros Hall. revert i. induction Hall as [|y l Hy Hall IH]; intros i Hi;
    [cbn in Hi; lia|].
  assert (0 <= foldr Z.add 0 l) as Hs.
  { clear IH Hi. induction Hall as [|z l Hz Hall IH]; cbn; lia. }
  destruct i as [|i]; [cbn; lia|].
  rewrite lookup_total_cons_ne_0 by done. cbn [Nat.pred foldr]. cbn in Hi.
  specialize (IH i ltac:(lia)). lia.
Qed.

Lemma histogram_entries_sum (size i : Z) (buckets : list Z) :
  Forall (fun b => 0 <= b) buckets ->
  foldr Z.add 0 (histogram_entries size i buckets).*2 = foldr Z.add 0 buckets /\
  Forall (fun e => 0 < e.2) (histogram_entries size i buckets).
Proof.
  intros Hall. revert i. induction Hall as [|c l Hc Hall IH]; intros i; [done|].
  cbn [histogram_entries]. destruct (IH (i + 1)) as [Hs Hp].
  destruct (Z.ltb_spec 0 c).
  - cbn. rewrite Hs. split; [done|]. by constructor.
  - cbn. rewrite Hs. split; [lia|done].
Qed.

Lemma add_latencies_sum (n : Z) (ls : list Z) :
  0 < n < 2 ^ 64 -> Forall (fun l => 0 <= l) ls -> Z.of_nat (length ls) < 2 ^ 64 ->
  histogram_ok n (add_latencies ls (LatencyHistogram_new n)) /\
  foldr Z.add 0 (buckets_ (add_latencies ls (LatencyHistogram_new n)))
  = Z.of_nat (length ls).
Proof.
  intros Hn Hls. induction ls as [|l ls IH] using rev_ind; intros Hlen.
  { split; [apply histogram_ok_new|]. cbn.
    induction (Z.to_nat n) as [|k IHk]; [done|]. cbn. by rewrite IHk. }
  apply Forall_app in Hls as [Hls Hl]. apply Forall_cons in Hl as [Hl _].
  rewrite length_app in Hlen |- *. cbn [length] in Hlen |- *.
  destruct (IH Hls ltac:(lia)) as [Hok Hsum].
  replace (add_latencies (ls ++ [l]) (LatencyHistogram_new n))
    with (add_latency l (add_latencies ls (LatencyHistogram_new n)))
    by (unfold add_latencies; by rewrite foldl_app).
  split; [by apply add_latency_ok|].
  rewrite (add_latency_spec n l _ Hn Hl Hok). cbn [buckets_].
  pose proof (bucket_of_range n l ltac:(lia) Hl) as Hb.
  destruct Hok as (_ & Hlen' & _ & Hall).
  assert (Forall (fun b => 0 <= b)
            (buckets_ (add_latencies ls (LatencyHistogram_new n)))) as Hpos.
  { eapply Forall_impl; [exact Hall|]. intros b ?. cbn in *. lia. }
  pose proof (elem_le_sum (Z.to_nat (bucket_of n l)) _ Hpos ltac:(lia)) as Hle.
  assert (0 <= buckets_ (add_latencies ls (LatencyHistogram_new n))
                 !!! Z.to_nat (bucket_of n l)) as Hge.
  { rewrite Forall_forall in Hpos. apply Hpos, list_elem_of_lookup_total_2. lia. }
  rewrite sum_insert by lia. rewrite u64_small by lia. lia.
Qed.

(** X23 (latency histogram, report). For a histogram constructed with
    [num_buckets] between 1 and 2^64 - 1 and fed fewer than 2^64
    latencies, the counts that [get_histogram] reports are all positive
    and add up to the number of latencies recorded. *)
Theorem get_histogram_accounts_for_every_latency (n : Z) (ls : list Z) :
  0 < n < 2 ^ 64 -> Forall (fun l => 0 <= l) ls -> Z.of_nat (length ls) < 2 ^ 64 ->
  let h := add_latencies ls (LatencyHistogram_new n) in
  foldr Z.add 0 (get_histogram h).*2 = Z.of_nat (length ls) /\
  Forall (fun e => 0 < e.2) (get_histogram h) /\
  total_count_ h = Z.of_nat (length ls).
Proof.
  intros Hn Hls Hlen. cbv zeta.
  destruct (add_latencies_sum n ls Hn Hls Hlen) as [(_ & _ & _ & Hall) Hsum].
  assert (Forall (fun b => 0 <= b)
            (buckets_ (add_latencies ls (LatencyHistogram_new n)))) as Hpos.
  { eapply Forall_impl; [exact Hall|]. intros b ?. cbn in *. lia. }
  destruct (histogram_entries_sum
              (bucket_size_ns_ (add_latencies ls (LatencyHistogram_new n))) 0 _ Hpos)
    as [Hs Hp].
  unfold get_histogram. rewrite Hs. split; [done|]. split; [done|].
  destruct (add_latencies_buckets n ls (LatencyHistogram_new n) 0 Hn Hls
              (histogram_ok_new n) ltac:(lia)) as (_ & Ht & _).
  change (total_count_ (LatencyHistogram_new n)) with 0 in Ht.
  rewrite Z.add_0_l, (u64_small (Z.of_nat (length ls))) in Ht by lia.
  rewrite <- Ht. clear Ht Hs Hp Hpos Hsum Hall.
  destruct ls as [|l ls] using rev_ind; [done|].
  replace (add_latencies (ls ++ [l]) (LatencyHistogram_new n))
    with (add_latency l (add_latencies ls (LatencyHistogram_new n)))
    by (unfold add_latencies; by rewrite foldl_app).
  apply Forall_app in Hls as [Hls Hl]. apply Forall_cons in Hl as [Hl _].
  rewrite length_app in Hlen. cbn in Hlen.
  destruct (add_latencies_sum n ls Hn Hls ltac:(lia)) as [Hok _].
  rewrite (add_latency_spec n l _ Hn Hl Hok). cbn. unfold u64. by rewrite Z.mod_mod.
Qed.

Lemma get_histogram_accounts_for_every_latency_witness :
  get_histogram (add_latencies [1500; 250; 1999; 987654] (LatencyHistogram_new 4))
  = [(0, 1); (1000, 2); (3000, 1)] /\
  foldr Z.add 0
    (get_histogram (add_latencies [1500; 250; 1999; 987654] (LatencyHistogram_new 4))).*2
  = 4.
Proof.
  split; [reflexivity|].
  destruct (get_histogram_accounts_for_every_latency 4 [1500; 250; 1999; 987654])
    as (Hsum & _); [lia|repeat constructor; lia|cbn; lia|exact Hsum].
Defined.

(** ** Comparisons of doubles *)

Lemma SFcompare_Eq_trans (a b c : spec_float) :
  SFcompare a b = Some Eq -> SFcompare b c = Some Eq -> SFcompare a c = Some Eq.
Proof.
  unfold SFcompare.
  destruct a as [sa|sa| |sa ma ea], b as [sb|sb| |sb mb eb], c as [sc|sc| |sc mc ec];
    try discriminate; try reflexivity;
    repeat match goal with s : bool |- _ => destruct s end;
    try discriminate; try reflexivity;
    change (PosDef.Pos.compare_cont Eq) with Pos.compare;
    destruct (Z.compare_spec ea eb); try discriminate; subst;
    destruct (Pos.compare_spec ma mb); try discriminate; subst; intros _; done.
Qed.

Lemma SFcompare_Eq_sym (a b : spec_float) :
  SFcompare a b = Some Eq -> SFcompare b a = Some Eq.
Proof.
  unfold SFcompare.
  destruct a as [sa|sa| |sa ma ea], b as [sb|sb| |sb mb eb];
    try discriminate; try reflexivity;
    repeat match goal with s : bool |- _ => destruct s end;
    try discriminate; try reflexivity;
    change (PosDef.Pos.compare_cont Eq) with Pos.compare;
    destruct (Z.compare_spec ea eb); try discriminate; subst;
    destruct (Pos.compare_spec ma mb); try discriminate; subst; intros _;
    by rewrite Z.compare_refl, Pos.compare_refl.
Qed.

Lemma eqb_compare (a b : float) :
  (a =? b)%float = true <-> SFcompare (Prim2SF a) (Prim2SF b) = Some Eq.
Proof.
  rewrite FloatAxioms.eqb_spec. unfold SFeqb.
  destruct (SFcompare _ _) as [[| |]|]; split; done.
Qed.

Lemma ltb_compare (a b : float) :
  (a <? b)%float = true <-> SFcompare (Prim2SF a) (Prim2SF b) = Some Lt.
Proof.
  rewrite FloatAxioms.ltb_spec. unfold SFltb.
  destruct (SFcompare _ _) as [[| |]|]; split; done.
Qed.

Lemma ltb_not_eqb (a b : float) : (a <? b)%float = true -> (a =? b)%float = false.
Proof.
  intros H%ltb_compare. rewrite FloatAxioms.eqb_spec. unfold SFeqb. by rewrite H.
Qed.

Lemma ltb_asym (a b : float) : (a <? b)%float = true -> (b <? a)%float = false.
Proof.
  intros H. destruct (b <? a)%float eqn:E; [|done].
  pose proof (ltb_trans a b a H E) as Hc. by rewrite ltb_irrefl in Hc.
Qed.

Lemma eqb_ltb_l (a b c : float) :
  (a =? b)%float = true -> (a <? c)%float = (b <? c)%float.
Proof.
  intros H%eqb_compare. rewrite !FloatAxioms.ltb_spec. by apply SFcompare_Eq_ltb_l.
Qed.

Lemma eqb_ltb_r (a b c : float) :
  (a =? b)%float = true -> (c <? a)%float = (c <? b)%float.
Proof.
  intros H%eqb_compare. rewrite !FloatAxioms.ltb_spec. by apply SFcompare_Eq_ltb_r.
Qed.

Lemma eqb_trans (a b c : float) :
  (a =? b)%float = true -> (b =? c)%float = true -> (a =? c)%float = true.
Proof. rewrite !eqb_compare. apply SFcompare_Eq_trans. Qed.

Lemma eqb_sym (a b : float) : (a =? b)%float = true -> (b =? a)%float = true.
Proof. rewrite !eqb_compare. apply SFcompare_Eq_sym. Qed.

(** ** The comparator of orders *)

Lemma OrderCompare_cases (a b : Order) :
  OrderCompare a b = true <->
  better_price (side a) a b = true \/
  ((price a =? price b)%float = true /\ timestamp b < timestamp a).
Proof.
  unfold OrderCompare, better_price, gtb.
  destruct (side a); destruct (price a =? price b)%float eqn:E; cbn [negb];
    rewrite ?Z.ltb_lt.
  - split; [intros H; by right|]. intros [H|[_ H]]; [|done].
    apply ltb_not_eqb in H. congruence.
  - split; [intros H; by left|]. by intros [H|[? _]].
  - split; [intros H; by right|]. intros [H|[_ H]]; [|done].
    apply ltb_not_eqb in H. apply eqb_sym in E. congruence.
  - split; [intros H; by left|]. by intros [H|[? _]].
Qed.

(** X24 (order comparator). On orders of one side [OrderCompare] is a strict
    order: no order is ranked below itself, two orders are never ranked
    below each other, and the ranking is transitive; [a] is ranked below
    [b] exactly when [b] has the better price (higher for BUY, lower for
    SELL) or a price that compares equal and an earlier timestamp. *)
Theorem OrderCompare_is_a_strict_order_on_one_side (a b c : Order) :
  side b = side a -> side c = side a ->
  OrderCompare a a = false /\
  (OrderCompare a b = true -> OrderCompare b a = false) /\
  (OrderCompare a b = true -> OrderCompare b c = true -> OrderCompare a c = true) /\
  (OrderCompare a b = true <->
   better_price (side a) a b = true \/
   ((price a =? price b)%float = true /\ timestamp b < timestamp a)).
Proof.
  intros Hb Hc. split; [|split; [|split; [|apply OrderCompare_cases]]].
  - destruct (OrderCompare a a) eqn:E; [|done].
    apply OrderCompare_cases in E as [E|[_ E]]; [|lia].
    unfold better_price in E. destruct (side a); by rewrite ltb_irrefl in E.
  - intros Hab. destruct (OrderCompare b a) eqn:Hba; [|done]. exfalso.
    apply OrderCompare_cases in Hab, Hba. rewrite Hb in Hba.
    unfold better_price in *.
    destruct Hab as [Hab|[Eab Tab]], Hba as [Hba|[Eba Tba]]; try lia.
    + destruct (side a); apply ltb_asym in Hab; congruence.
    + destruct (side a); apply ltb_not_eqb in Hab;
        first [congruence|apply eqb_sym in Eba; congruence].
    + destruct (side a); apply ltb_not_eqb in Hba;
        first [congruence|apply eqb_sym in Eab; congruence].
  - intros Hab Hbc. apply OrderCompare_cases in Hab, Hbc. rewrite Hb in Hbc.
    apply OrderCompare_cases. unfold better_price in *.
    destruct Hab as [Hab|[Eab Tab]], Hbc as [Hbc|[Ebc Tbc]].
    + left. destruct (side a); eauto using ltb_trans.
    + left. destruct (side a).
      * by rewrite <- (eqb_ltb_r _ _ _ Ebc).
      * by rewrite <- (eqb_ltb_l _ _ _ Ebc).
    + left. destruct (side a).
      * by rewrite (eqb_ltb_l _ _ _ Eab).
      * by rewrite (eqb_ltb_r _ _ _ Eab).
    + right. split; [by eapply eqb_trans|lia].
Qed.

Lemma OrderCompare_is_a_strict_order_on_one_side_witness :
  OrderCompare (Order_new 5 1 7 "AAPL" BUY LIMIT 100 149%float)
               (Order_new 9 2 7 "AAPL" BUY LIMIT 100 150%float) = true /\
  OrderCompare (Order_new 9 2 7 "AAPL" BUY LIMIT 100 150%float)
               (Order_new 5 1 7 "AAPL" BUY LIMIT 100 149%float) = false.
Proof.
  split; [reflexivity|].
  destruct (OrderCompare_is_a_strict_order_on_one_side
              (Order_new 5 1 7 "AAPL" BUY LIMIT 100 149%float)
              (Order_new 9 2 7 "AAPL" BUY LIMIT 100 150%float)
              (Order_new 9 2 7 "AAPL" BUY LIMIT 100 150%float) eq_refl eq_refl)
    as (_ & Hasym & _).
  by apply Hasym.
Defined.

(** ** Validation of market data *)

Lemma SFcompare_None (a b : spec_float) :
  SFcompare a b = None <-> SFeqb a a = false \/ SFeqb b b = false.
Proof.
  unfold SFeqb, SFcompare.
  destruct a as [sa|sa| |sa ma ea], b as [sb|sb| |sb mb eb];
    repeat match goal with s : bool |- _ => destruct s end;
    cbn; try (split; [discriminate|intros [?|?]; discriminate]);
    try (split; [auto|done]);
    change (PosDef.Pos.compare_cont Eq) with Pos.compare;
    rewrite ?Z.compare_refl, ?Pos.compare_refl;
    try (split; [discriminate|intros [?|?]; discriminate]);
    (split; [|intros [?|?]; discriminate]);
    destruct (ea ?= eb)%Z; try discriminate;
    try (destruct (ma ?= mb)%positive; discriminate);
    try (destruct (CompOpp (ma ?= mb)%positive); discriminate).
Qed.

Lemma SFcompare_Gt_Lt (a b : spec_float) :
  SFcompare a b = Some Gt <-> SFcompare b a = Some Lt.
Proof.
  unfold SFcompare.
  destruct a as [sa|sa| |sa ma ea], b as [sb|sb| |sb mb eb];
    repeat match goal with s : bool |- _ => destruct s end;
    try (split; (discriminate || reflexivity));
    change (PosDef.Pos.compare_cont Eq) with Pos.compare;
    rewrite (Z.compare_antisym ea eb), (Pos.compare_antisym ma mb);
    destruct (ea ?= eb)%Z; cbn; try (split; (discriminate || reflexivity));
    destruct (ma ?= mb)%positive; cbn; split; (discriminate || reflexivity).
Qed.

(** [a <= b] is false exactly when one of them is a NaN or [b < a]. *)
Lemma leb_false (a b : float) :
  (a <=? b)%float = false <->
  is_number a = false \/ is_number b = false \/ (b <? a)%float = true.
Proof.
  unfold is_number.
  rewrite FloatAxioms.leb_spec, !FloatAxioms.eqb_spec, FloatAxioms.ltb_spec.
  pose proof (SFcompare_None (Prim2SF a) (Prim2SF b)) as HN.
  pose proof (SFcompare_Gt_Lt (Prim2SF a) (Prim2SF b)) as HG.
  unfold SFleb, SFltb.
  destruct (SFcompare (Prim2SF a) (Prim2SF b)) as [[| |]|] eqn:E.
  - split; [done|]. intros [H|[H|H]].
    + destruct HN as [_ HN]. by specialize (HN (or_introl H)).
    + destruct HN as [_ HN]. by specialize (HN (or_intror H)).
    + destruct HG as [_ HG].
      destruct (SFcompare (Prim2SF b) (Prim2SF a)) as [[| |]|]; try done.
      by specialize (HG eq_refl).
  - split; [done|]. intros [H|[H|H]].
    + destruct HN as [_ HN]. by specialize (HN (or_introl H)).
    + destruct HN as [_ HN]. by specialize (HN (or_intror H)).
    + destruct HG as [_ HG].
      destruct (SFcompare (Prim2SF b) (Prim2SF a)) as [[| |]|]; try done.
      by specialize (HG eq_refl).
  - split; [|done]. intros _. right; right.
    destruct HG as [HG _]. by rewrite (HG eq_refl).
  - split; [|done]. intros _. destruct HN as [HN _].
    destruct (HN eq_refl); tauto.
Qed.

Lemma not_positive_false (a : float) :
  (a <=? 0)%float = false <-> is_number a = false \/ (0 <? a)%float = true.
Proof.
  rewrite leb_false. split; [|tauto]. intros [?|[H|?]]; [tauto| |tauto].
  by vm_compute in H.
Qed.

(** X25 (market data validation). [validate_market_data] accepts a datum
    exactly when its symbol is not empty, its timestamp is not the epoch
    and, for a TRADE, the quantity is not 0 and the price is positive or a
    NaN; for a QUOTE, bid and ask are each positive or a NaN and, when
    both are numbers, the bid is below the ask; for an ORDER_BOOK_UPDATE,
    the price is positive or a NaN.  A NaN price is never rejected. *)
Theorem validate_market_data_lets_NaN_through (data : MarketData) :
  validate_market_data data = true <->
  md_symbol data <> "" /\ md_timestamp data <> 0 /\
  match md_type data with
  | TRADE =>
      trade_quantity data <> 0 /\
      (is_number (trade_price data) = false \/ (0 <? trade_price data)%float = true)
  | QUOTE =>
      (is_number (bid_price data) = false \/ (0 <? bid_price data)%float = true) /\
      (is_number (ask_price data) = false \/ (0 <? ask_price data)%float = true) /\
      (is_number (bid_price data) = false \/ is_number (ask_price data) = false \/
       (bid_price data <? ask_price data)%float = true)
  | ORDER_BOOK_UPDATE =>
      is_number (md_price data) = false \/ (0 <? md_price data)%float = true
  | TICK => True
  end.
Proof.
  unfold validate_market_data.
  destruct (String.eqb_spec (md_symbol data) "") as [Hs|Hs]; [split; [done|tauto]|].
  destruct (Z.eqb_spec (md_timestamp data) 0) as [Ht|Ht]; [split; [done|tauto]|].
  destruct (md_type data).
  - rewrite negb_true_iff, orb_false_iff, not_positive_false, Z.eqb_neq. tauto.
  - rewrite negb_true_iff, !orb_false_iff, !not_positive_false, leb_false. tauto.
  - rewrite negb_true_iff, not_positive_false. tauto.
  - tauto.
Qed.

(** ** The engine and the processor it owns *)

Lemma pop_batch_empty {T : Type} `{Inhabited T} (n : nat) (rb : LockFreeRingBuffer T) :
  head_ rb = tail_ rb -> pop_batch n rb = ([], rb).
Proof.
  intros Hrb. destruct n as [|n]; [done|].
  cbn [pop_batch]. unfold try_pop. rewrite Hrb, Z.eqb_refl. done.
Qed.

Lemma processor_start_unconnected :
  processor_start (MarketDataProcessor_new MarketDataConfig_default) =
  (false, MarketDataProcessor_new MarketDataConfig_default).
Proof. reflexivity. Qed.

Lemma idle_new : idle OrderMatchingEngine_owned.
Proof. by repeat split. Qed.

Lemma owned_step_idle (op : EngineOp) ep :
  idle ep -> exists ep', owned_step op ep = Some ep' /\ idle ep'.
Proof.
  destruct ep as [e p]. intros (Hr & Hm & Ho & Hd & Hp).
  cbn [fst snd] in Hr, Hm, Ho, Hd, Hp. subst p.
  destruct op; cbn [owned_step engine_step fst snd].
  - eexists. split; [done|]. by repeat split.
  - eexists. split; [done|]. unfold engine_start_owned. rewrite Hr.
    destruct tcp_ok; by repeat split.
  - eexists. split; [done|]. unfold engine_stop_owned. rewrite Hr. by repeat split.
  - unfold submit_order. rewrite Hr. cbn.
    eexists. split; [done|]. by repeat split.
  - unfold engine_cancel_order. rewrite Hr. cbn.
    eexists. split; [done|]. by repeat split.
  - unfold engine_modify_order. rewrite Hr. cbn.
    eexists. split; [done|]. by repeat split.
  - unfold submit_market_data. rewrite Hr. cbn.
    eexists. split; [done|]. by repeat split.
  - unfold process_order_batch. rewrite (pop_batch_empty _ _ Ho). cbn.
    eexists. split; [done|]. by repeat split.
  - unfold process_market_data_batch. rewrite (pop_batch_empty _ _ Hd). cbn.
    eexists. split; [done|]. by repeat split.
  - cbn. eexists. split; [done|]. by repeat split.
  - cbn. eexists. split; [done|]. by repeat split.
Qed.

(** Every sequence of calls on an engine with its own processor returns. *)
Lemma owned_run_idle (ops : list EngineOp) ep :
  idle ep -> exists ep', owned_run ops ep = Some ep' /\ idle ep'.
Proof.
  revert ep. induction ops as [|op ops IH]; intros ep Hi; cbn [owned_run].
  - by exists ep.
  - destruct (owned_step_idle op ep Hi) as (ep1 & Hs & Hi1). rewrite Hs. cbn.
    exact (IH ep1 Hi1).
Qed.

(** ** The market data processor *)

Lemma foldl_count_processed_buffer (batch : list MarketData) (p : MarketDataProcessor) :
  config_ (foldl (fun p' _ => count_message_processed p') p batch) = config_ p /\
  input_buffer_ (foldl (fun p' _ => count_message_processed p') p batch) = input_buffer_ p /\
  processor_running_ (foldl (fun p' _ => count_message_processed p') p batch) =
    processor_running_ p /\
  data_source_ (foldl (fun p' _ => count_message_processed p') p batch) = data_source_ p.
Proof.
  revert p. induction batch as [|d batch IH]; intros p; [done|].
  cbn [foldl]. destruct (IH (count_message_processed p)) as (-> & -> & -> & ->). done.
Qed.

Lemma processor_start_fields (p : MarketDataProcessor) :
  config_ (processor_start p).2 = config_ p /\
  input_buffer_ (processor_start p).2 = input_buffer_ p.
Proof.
  unfold processor_start. destruct (processor_running_ p); [done|].
  destruct (data_source_ p) as [src|]; [|done].
  destruct (start_streaming src) as [[|] src']; done.
Qed.

Lemma processor_submit_screened (data : MarketData) (latency : Z) (p : MarketDataProcessor) :
  screened p -> screened (processor_submit_market_data data latency p).2.
Proof.
  intros (Hv & Hi & Hq). unfold processor_submit_market_data.
  destruct (processor_running_ p); cbn [negb]; [|done].
  rewrite Hv. cbn [andb].
  destruct (validate_market_data data) eqn:Hd; cbn [negb]; [|done].
  pose proof (try_push_items BUFFER_SIZE BUFFER_SIZE_ok data (input_buffer_ p) Hi)
    as [Hi' Hpush].
  destruct (try_push BUFFER_SIZE data (input_buffer_ p)) as [[|] rb];
    cbn [fst snd negb] in *; [|done].
  split; [done|]. split; [done|].
  unfold pending. cbn. rewrite Hpush. apply Forall_app. split; [done|].
  by apply Forall_singleton.
Qed.

Lemma processor_step_screened (op : ProcessorOp) (p : MarketDataProcessor) :
  validating op = true -> screened p ->
  Forall valid (processor_step op p).1 /\ screened (processor_step op p).2.
Proof.
  intros Hop Hp. pose proof Hp as (Hv & Hi & Hq).
  destruct op; cbn [processor_step fst snd validating] in *;
    try (split; [by apply Forall_nil|]).
  - destruct (processor_start_fields p) as [Hc Hb].
    unfold screened, pending. by rewrite Hc, Hb.
  - unfold processor_stop. by destruct (processor_running_ p).
  - unfold connect_data_source. by destruct (data_source_ p).
  - done.
  - by apply processor_submit_screened.
  - unfold processor_process_market_data_batch.
    destruct (pop_batch_items (Z.to_nat (batch_size (config_ p))) (input_buffer_ p) Hi)
      as (Hb & Hrest & Hi').
    destruct (pop_batch _ (input_buffer_ p)) as [batch rb]. cbn [fst snd] in *.
    subst batch. split.
    + eapply Forall_forall. intros d Hd.
      eapply Forall_forall; [exact Hq|]. eapply subseteq_take, Hd.
    + destruct (foldl_count_processed_buffer
                  (take (Z.to_nat (batch_size (config_ p))) (ring_items BUFFER_SIZE (input_buffer_ p)))
                  (set_input_buffer rb p)) as (Hc & Hbuf & _).
      unfold screened, pending. rewrite Hc, Hbuf. cbn.
      split; [done|]. split; [done|]. rewrite Hrest.
      eapply Forall_forall. intros d Hd.
      eapply Forall_forall; [exact Hq|]. eapply subseteq_drop, Hd.
  - done.
  - done.
Qed.

Lemma processor_run_screened (ops : list ProcessorOp) (p : MarketDataProcessor) :
  forallb validating ops = true -> screened p ->
  Forall valid (processor_run ops p).1 /\ screened (processor_run ops p).2.
Proof.
  revert p. induction ops as [|op ops IH]; intros p Hops Hp; cbn [processor_run].
  - split; [by apply Forall_nil|done].
  - cbn [forallb] in Hops. apply andb_prop in Hops as [Hop Hops].
    destruct (processor_step_screened op p Hop Hp) as [Ho Hp1].
    destruct (processor_step op p) as [out p1]. cbn [fst snd] in *.
    destruct (IH p1 Hops Hp1) as [Ho' Hp2].
    destruct (processor_run ops p1) as [out' p2]. cbn [fst snd] in *.
    split; [|done]. apply Forall_app. by split.
Qed.

Lemma screened_new (config : MarketDataConfig) :
  enable_validation config = true -> screened (MarketDataProcessor_new config).
Proof.
  intros Hv. split; [done|]. split.
  - apply ring_inv_new. by vm_compute.
  - unfold pending. cbn. by apply Forall_nil.
Qed.

(** X26 (engine, start).  An engine never gets running.  Its constructor makes
    its market data processor with the default configuration, whose
    simulated source is not connected, and nothing connects it: so
    [start] returns false whether or not the TCP server comes up.  Every
    sequence of calls on a new engine returns, and after it the engine is
    not running, refuses every order and market datum and has no order
    book. *)
Theorem engine_never_starts (ops : list EngineOp) :
  exists e p, owned_run ops OrderMatchingEngine_owned = Some (e, p) /\
    running_ e = false /\
    order_book_manager_ e = ∅ /\
    (forall tcp_ok, (engine_start_owned tcp_ok (e, p)).1 = false) /\
    (forall order latency, submit_order order latency e = (false, e)) /\
    (forall data, submit_market_data data e = (false, e)).
Proof.
  destruct (owned_run_idle ops _ idle_new) as ([e p] & Hrun & Hr & Hm & _ & _ & Hp).
  cbn [fst snd] in Hr, Hm, Hp. subst p.
  exists e, (MarketDataProcessor_new MarketDataConfig_default).
  split; [done|]. split; [done|]. split; [done|]. split; [|split].
  - intros tcp_ok. unfold engine_start_owned. rewrite Hr.
    by destruct tcp_ok.
  - intros order latency. unfold submit_order. by rewrite Hr.
  - intros data. unfold submit_market_data. by rewrite Hr.
Qed.

(** X27 (processor, validation).  While validation stays enabled, whatever
    is done with a processor, every datum it hands to its callback passed
    [validate_market_data]. *)
Theorem processor_delivers_only_valid_data (config : MarketDataConfig)
    (ops : list ProcessorOp) :
  enable_validation config = true ->
  forallb validating ops = true ->
  Forall (fun data => validate_market_data data = true)
         (processor_run ops (MarketDataProcessor_new config)).1.
Proof.
  intros Hv Hops.
  exact (proj1 (processor_run_screened ops _ Hops (screened_new config Hv))).
Qed.

Lemma processor_delivers_only_valid_data_witness :
  (processor_run feed (MarketDataProcessor_new MarketDataConfig_default)).1 =
    [sample_tick] /\
  Forall (fun data => validate_market_data data = true)
         (processor_run feed (MarketDataProcessor_new MarketDataConfig_default)).1.
Proof.
  split; [by vm_compute|].
  apply (processor_delivers_only_valid_data MarketDataConfig_default feed); reflexivity.
Defined.
